(** * LogProcessingSystem: the structured logger and the HTTP middleware

    A shallow embedding of [services/log-ingestion/logger] (package
    [logger]) and [services/log-ingestion/middleware/logging.go] (package
    [middleware]), followed by the properties of the specification that
    concern them.

    Conventions of the embedding:
    - Go's [int], [int64], [LogLevel] and [LogFormat] are [Z]; the two places
      where the code does arithmetic on them ([requestCounts[ip]++] and
      [rw.written += int64(n)]) wrap at 64 bits, [time.Sub] saturates.
    - [map[string]interface{}] is [gmap string Value].  A map owned by a
      [Logger] lives in a store and the [Logger] holds a reference to it,
      as in Go; [*Logger] is a reference into a store of [Logger] structs.
    - Everything that touches the world runs in the monad [M]: a state
      monad over [World] whose result is a normal return, [os.Exit] or a
      run-time panic.
    - What the Go run time and the standard library decide (the clock, the
      call stack, [fmt.Sprintf], [json.Marshal], ...) is a [Runtime] record
      that every operation takes as its first argument.
    - [journal] is ghost state: the library calls a run performs, in program
      order.
    - An [io.Writer] takes what it is given; an inner [http.Handler] is the
      calls it makes on its response writer, and possibly a panic.
    - An [http.Header] is the map that Go has, indexed by canonical keys:
      [Get], [Set] and [Del] canonicalise the key they are given, as
      [textproto.CanonicalMIMEHeaderKey] does.
    - A [uuid.UUID] is its 16 bytes, and [String] their hexadecimal form.
    - Requests are handled one after the other. *)

From stdpp Require Import gmap strings list fin_maps.
From Stdlib Require Import ZArith Lia.

Local Open Scope Z_scope.

(** ** Values, time and machine integers *)

(** [interface{}] as far as the two packages put values into field maps. *)
Inductive Value :=
| VString (s : string)
| VInt (n : Z)
| VBool (b : bool)
| VNil.

(** [time.Time] and [time.Duration], both in nanoseconds. *)
Abbreviation Time := Z (only parsing).
Abbreviation Duration := Z (only parsing).

Definition maxInt64 : Z := 2 ^ 63 - 1.
Definition minInt64 : Z := - 2 ^ 63.

(** Two's-complement wrap-around of a 64-bit signed integer. *)
Definition wrap64 (z : Z) : Z := (z + 2 ^ 63) mod 2 ^ 64 - 2 ^ 63.

(** [t.Sub(u)]: the difference, saturated to the range of [Duration]. *)
Definition time_Sub (t u : Time) : Duration :=
  Z.max minInt64 (Z.min maxInt64 (t - u)).

Definition Millisecond : Duration := 1000000.
Definition Second : Duration := 1000 * Millisecond.
Definition Minute : Duration := 60 * Second.

Definition Duration_Milliseconds (d : Duration) : Z := d ÷ Millisecond.

Definition newline : string := String (Ascii.ascii_of_nat 10) EmptyString.

(** The double quote character, for the one format string that has it. *)
Definition dq : string := String (Ascii.ascii_of_nat 34) EmptyString.

(** ** The store *)

Abbreviation loc := nat (only parsing).
Abbreviation Fields := (gmap string Value) (only parsing).

(** [io.Writer]s are handles; what was written to each is in the world. *)
Abbreviation Writer := nat (only parsing).
Definition Stdout : Writer := 1%nat.

Abbreviation LogLevel := Z (only parsing).
Abbreviation LogFormat := Z (only parsing).

Record LogEntry := mkLogEntry {
  Timestamp : Time;
  Level : string;
  Message : string;
  Service : string;
  Component : string;
  TraceID : string;
  UserID : string;
  RequestID : string;
  File : string;
  Line : Z;
  Function : string;
  Duration_ : option Duration;
  Error_ : string;
  Fields_ : option Fields;       (* [None] is the nil map *)
  Tags : list string
}.

Record Logger := mkLogger {
  level : LogLevel;
  service : string;
  component : string;
  output : Writer;
  format : LogFormat;
  fields : loc                    (* reference to the map *)
}.

(** Library calls, as the journal records them. *)
Inductive Event :=
| EvSprintf (fmt : string) (args : list Value)   (* fmt.Sprintf *)
| EvCaller                                       (* runtime.Caller *)
| EvNow (t : Time)                               (* time.Now *)
| EvEntry (e : LogEntry)                         (* a record handed to writeEntry *)
| EvMarshal                                      (* json.Marshal *)
| EvWrite (w : Writer) (s : string)              (* one Write on an io.Writer *)
| EvUUID (s : string)                            (* uuid.New *)
| EvServeHTTP (ctx : list (string * Value))      (* next.ServeHTTP(w, r), with *)
              (hdr : gmap string (list string))  (* r.Context() and w.Header() *)
| EvExit (code : Z).                             (* os.Exit *)

(** The variables a rate-limiting handler closes over. *)
Record RateLimiter := mkRateLimiter {
  requestCounts : gmap string Z;
  lastReset : Time
}.

Record World := mkWorld {
  loggers : gmap loc Logger;
  maps : gmap loc Fields;
  sinks : gmap Writer (list string);
  limiters : gmap loc RateLimiter;
  defaultLogger : option loc;
  ticks : nat;                    (* readings of the clock taken so far *)
  uuids : nat;                    (* identifiers generated so far *)
  journal : list Event
}.

(** ** Package [uuid] (github.com/google/uuid) *)

Module uuid.
Import Stdlib.Strings.Ascii.

(** [type UUID [16]byte]. *)
Record UUID := mkUUID {
  uuid_bytes : list Byte.byte;
  uuid_size : length uuid_bytes = 16%nat
}.

Definition hextable : list ascii := String.list_ascii_of_string "0123456789abcdef".

Definition hex_digit (n : N) : ascii := nth (N.to_nat n) hextable "0"%char.

(** [hex.Encode]: two digits for each byte, [hextable[v>>4]] and
    [hextable[v&0x0f]]. *)
Fixpoint hex_Encode (src : list Byte.byte) : string :=
  match src with
  | [] => EmptyString
  | v :: rest =>
      String (hex_digit (N.shiftr (Byte.to_N v) 4))
        (String (hex_digit (N.land (Byte.to_N v) 15)) (hex_Encode rest))
  end.

(** [uuid.String()]: [encodeHex] into a buffer of 36 bytes, the form
    xxxxxxxx-xxxx-xxxx-xxxx-xxxxxxxxxxxx. *)
Definition UUID_String (u : UUID) : string :=
  let b := uuid_bytes u in
  hex_Encode (take 4 b) +:+ "-" +:+ hex_Encode (take 2 (drop 4 b)) +:+ "-"
  +:+ hex_Encode (take 2 (drop 6 b)) +:+ "-" +:+ hex_Encode (take 2 (drop 8 b)) +:+ "-"
  +:+ hex_Encode (drop 10 b).

End uuid.

Definition PC := nat.

Record Runtime := mkRuntime {
  rt_sprintf : string → list Value → string;
  rt_marshal_entry : LogEntry → string + string;   (* bytes, or err.Error() *)
  rt_marshal_fields : Fields → string + string;
  rt_time_format : string → Time → string;
  rt_clock : nat → Time;                           (* the n-th reading *)
  rt_caller : option (PC * string * Z);            (* runtime.Caller(3) *)
  rt_funcForPC : PC → option string;               (* FuncForPC(pc).Name() *)
  rt_base : string → string;                       (* filepath.Base *)
  rt_getenv : string → string;                     (* os.Getenv *)
  rt_openFile : string → option Writer;            (* os.OpenFile, append mode *)
  rt_uuid : nat → uuid.UUID                        (* the n-th uuid.New() *)
}.

(** ** The monad *)

Inductive Outcome (A : Type) :=
| Ret (a : A)
| Exit (code : Z)
| Panic (reason : string).
Arguments Ret {A} a.
Arguments Exit {A} code.
Arguments Panic {A} reason.

Definition M (A : Type) : Type := World → Outcome A * World.

Definition ret {A} (a : A) : M A := λ w, (Ret a, w).

Definition bind {A B} (m : M A) (k : A → M B) : M B :=
  λ w, match m w with
       | (Ret a, w') => k a w'
       | (Exit c, w') => (Exit c, w')
       | (Panic r, w') => (Panic r, w')
       end.

Notation "'let*' x ':=' m 'in' k" := (bind m (λ x, k))
  (at level 10, x name, m at level 100, k at level 200, only parsing).
Notation "'let*' ' p ':=' m 'in' k" := (bind m (λ x, match x with p => k end))
  (at level 10, p pattern, m at level 100, k at level 200, only parsing).
Notation "m1 ';;' m2" := (bind m1 (λ _, m2))
  (at level 100, m2 at level 200, right associativity, only parsing).

Definition panic {A} (reason : string) : M A := λ w, (Panic reason, w).

(** Field updates of [World]. *)
Definition set_loggers (x : gmap loc Logger) (w : World) : World :=
  mkWorld x (maps w) (sinks w) (limiters w)
          (defaultLogger w) (ticks w) (uuids w) (journal w).
Definition set_maps (x : gmap loc Fields) (w : World) : World :=
  mkWorld (loggers w) x (sinks w) (limiters w)
          (defaultLogger w) (ticks w) (uuids w) (journal w).
Definition set_sinks (x : gmap Writer (list string)) (w : World) : World :=
  mkWorld (loggers w) (maps w) x (limiters w)
          (defaultLogger w) (ticks w) (uuids w) (journal w).
Definition set_limiters (x : gmap loc RateLimiter) (w : World) : World :=
  mkWorld (loggers w) (maps w) (sinks w) x
          (defaultLogger w) (ticks w) (uuids w) (journal w).
Definition set_defaultLogger (x : option loc) (w : World) : World :=
  mkWorld (loggers w) (maps w) (sinks w) (limiters w)
          x (ticks w) (uuids w) (journal w).
Definition set_ticks (x : nat) (w : World) : World :=
  mkWorld (loggers w) (maps w) (sinks w) (limiters w)
          (defaultLogger w) x (uuids w) (journal w).
Definition set_uuids (x : nat) (w : World) : World :=
  mkWorld (loggers w) (maps w) (sinks w) (limiters w)
          (defaultLogger w) (ticks w) x (journal w).
Definition set_journal (x : list Event) (w : World) : World :=
  mkWorld (loggers w) (maps w) (sinks w) (limiters w)
          (defaultLogger w) (ticks w) (uuids w) x.

Definition note (e : Event) : M unit := λ w,
  (Ret tt, set_journal (journal w ++ [e]) w).

(** Primitives of the store and of the run time. *)

(** [*p] for a [*Logger]; the nil pointer faults. *)
Definition deref (p : option loc) : M Logger := λ w,
  match p with
  | None => (Panic "invalid memory address or nil pointer dereference", w)
  | Some a =>
      match loggers w !! a with
      | Some L => (Ret L, w)
      | None => (Panic "dangling *Logger", w)
      end
  end.

(** [&Logger{...}]: a new struct at an address not in use. *)
Definition new_Logger (L : Logger) : M loc := λ w,
  let a := fresh (dom (loggers w)) in
  (Ret a, set_loggers (<[a := L]> (loggers w)) w).

(** [*p = L]. *)
Definition store_Logger (a : loc) (L : Logger) : M unit := λ w,
  (Ret tt, set_loggers (<[a := L]> (loggers w)) w).

(** [make(map[string]interface{})]. *)
Definition make_map : M loc := λ w,
  let r := fresh (dom (maps w)) in
  (Ret r, set_maps (<[r := ∅]> (maps w)) w).

(** The entries a [range] over the map visits; a nil map has none. *)
Definition map_range (r : loc) : M (list (string * Value)) := λ w,
  (Ret (map_to_list (default ∅ (maps w !! r))), w).

(** [m[k] = v]; assignment to an entry of a nil map faults. *)
Definition map_assign (r : loc) (k : string) (v : Value) : M unit := λ w,
  match maps w !! r with
  | Some m => (Ret tt, set_maps (<[r := <[k := v]> m]> (maps w)) w)
  | None => (Panic "assignment to entry in nil map", w)
  end.

Fixpoint for_each {A} (xs : list A) (body : A → M unit) : M unit :=
  match xs with
  | [] => ret tt
  | x :: xs' => body x ;; for_each xs' body
  end.

Definition time_Now (rt : Runtime) : M Time := λ w,
  let t := rt_clock rt (ticks w) in
  (Ret t, set_journal (journal w ++ [EvNow t]) (set_ticks (S (ticks w)) w)).

Definition time_Since (rt : Runtime) (t : Time) : M Duration :=
  let* now := time_Now rt in ret (time_Sub now t).

Definition Sprintf (rt : Runtime) (fmt : string) (args : list Value) : M string :=
  note (EvSprintf fmt args) ;; ret (rt_sprintf rt fmt args).

(** [fmt.Fprintln(w, s)]: one [Write] of [s] and a newline.  A writer
    takes all it is given (a [bytes.Buffer], a file in append mode). *)
Definition Fprintln (wr : Writer) (s : string) : M unit := λ w,
  let line := s +:+ newline in
  (Ret tt, set_journal (journal w ++ [EvWrite wr line])
             (set_sinks (<[wr := default [] (sinks w !! wr) ++ [line]]> (sinks w)) w)).

Definition os_Exit {A} (code : Z) : M A := λ w,
  (Exit code, set_journal (journal w ++ [EvExit code]) w).

Definition uuid_New (rt : Runtime) : M string := λ w,
  let s := uuid.UUID_String (rt_uuid rt (uuids w)) in
  (Ret s, set_journal (journal w ++ [EvUUID s]) (set_uuids (S (uuids w)) w)).

(** ** Package [logger] *)

Module logger.

Definition DEBUG : LogLevel := 0.
Definition INFO : LogLevel := 1.
Definition WARN : LogLevel := 2.
Definition ERROR : LogLevel := 3.
Definition FATAL : LogLevel := 4.

Definition LogLevel_String (l : LogLevel) : string :=
  if l =? DEBUG then "DEBUG"
  else if l =? INFO then "INFO"
  else if l =? WARN then "WARN"
  else if l =? ERROR then "ERROR"
  else if l =? FATAL then "FATAL"
  else "UNKNOWN".

Definition JSON : LogFormat := 0.
Definition TEXT : LogFormat := 1.

Record Config := mkConfig {
  cfg_Level : string;
  cfg_Format : string;
  cfg_Service : string;
  cfg_Component : string;
  cfg_Output : string;
  cfg_Fields : option Fields
}.

(** [context.Context], as far as values under this package's keys go:
    the bindings made by [context.WithValue], innermost first. *)
Abbreviation contextKey := string (only parsing).
Definition Context := list (contextKey * Value).

Definition traceIDKey : contextKey := "trace_id".
Definition userIDKey : contextKey := "user_id".
Definition requestIDKey : contextKey := "request_id".

Definition context_WithValue (ctx : Context) (key : contextKey) (v : Value) : Context :=
  (key, v) :: ctx.

Fixpoint context_Value (ctx : Context) (key : contextKey) : Value :=
  match ctx with
  | [] => VNil
  | (k, v) :: parent => if String.eqb k key then v else context_Value parent key
  end.

Definition parseLogLevel (level : string) : LogLevel :=
  if String.eqb level "DEBUG" then DEBUG
  else if String.eqb level "INFO" then INFO
  else if String.eqb level "WARN" || String.eqb level "WARNING" then WARN
  else if String.eqb level "ERROR" then ERROR
  else if String.eqb level "FATAL" then FATAL
  else INFO.

Definition parseLogFormat (format : string) : LogFormat :=
  if String.eqb format "JSON" then JSON
  else if String.eqb format "TEXT" then TEXT
  else JSON.

Definition getEnv (rt : Runtime) (key defaultValue : string) : string :=
  let value := rt_getenv rt key in
  if negb (String.eqb value "") then value else defaultValue.

Definition getFromContext (ctx : Context) (key : contextKey) : string :=
  match context_Value ctx key with
  | VString str => str
  | _ => ""
  end.

Definition WithTraceID (ctx : Context) (traceID : string) : Context :=
  context_WithValue ctx traceIDKey (VString traceID).
Definition WithUserID (ctx : Context) (userID : string) : Context :=
  context_WithValue ctx userIDKey (VString userID).
Definition WithRequestID (ctx : Context) (requestID : string) : Context :=
  context_WithValue ctx requestIDKey (VString requestID).

Definition GetTraceID (ctx : Context) : string := getFromContext ctx traceIDKey.
Definition GetUserID (ctx : Context) : string := getFromContext ctx userIDKey.
Definition GetRequestID (ctx : Context) : string := getFromContext ctx requestIDKey.

(** [for k, v := range src { dst[k] = v }] on a stored map [dst]. *)
Definition copy_entries (src : list (string * Value)) (dst : loc) : M unit :=
  for_each src (λ kv, map_assign dst kv.1 kv.2).

(** The same loop on a local map. *)
Definition copy_into (src : list (string * Value)) (dst : Fields) : Fields :=
  foldl (λ acc kv, <[kv.1 := kv.2]> acc) dst src.

Definition New (rt : Runtime) (config : Config) : M (option loc) :=
  let* r := make_map in
  let* logger := new_Logger
    {| level := parseLogLevel (cfg_Level config);
       service := cfg_Service config;
       component := cfg_Component config;
       format := parseLogFormat (cfg_Format config);
       fields := r;
       output := Stdout |} in
  (if negb (String.eqb (cfg_Output config) "")
      && negb (String.eqb (cfg_Output config) "stdout")
   then match rt_openFile rt (cfg_Output config) with
        | Some file =>
            let* L := deref (Some logger) in
            store_Logger logger
              (mkLogger (level L) (service L) (component L) file (format L) (fields L))
        | None => ret tt
        end
   else ret tt) ;;
  (match cfg_Fields config with
   | Some fs =>
       let* L := deref (Some logger) in copy_entries (map_to_list fs) (fields L)
   | None => ret tt
   end) ;;
  ret (Some logger).

Definition NewFromEnv (rt : Runtime) (service component : string) : M (option loc) :=
  New rt {| cfg_Level := getEnv rt "LOG_LEVEL" "INFO";
            cfg_Format := getEnv rt "LOG_FORMAT" "JSON";
            cfg_Service := service;
            cfg_Component := component;
            cfg_Output := getEnv rt "LOG_OUTPUT" "stdout";
            cfg_Fields := None |}.

Definition Logger_WithFields (l : option loc) (fields_arg : Fields) : M (option loc) :=
  let* L := deref l in
  let* r := make_map in
  let* newLogger := new_Logger
    {| level := level L;
       service := service L;
       component := component L;
       output := output L;
       format := format L;
       fields := r |} in
  (* Copy existing fields *)
  (let* L := deref l in
   let* src := map_range (fields L) in
   let* N := deref (Some newLogger) in
   copy_entries src (fields N)) ;;
  (* Add new fields *)
  (let* N := deref (Some newLogger) in
   copy_entries (map_to_list fields_arg) (fields N)) ;;
  ret (Some newLogger).

Definition Logger_WithField (l : option loc) (key : string) (value : Value) : M (option loc) :=
  Logger_WithFields l {[ key := value ]}.

(** An [error] is its message; [None] is the nil error. *)
Definition Logger_WithError (l : option loc) (err : option string) : M (option loc) :=
  match err with
  | Some msg => Logger_WithField l "error" (VString msg)
  | None => ret l
  end.

Definition Logger_WithComponent (l : option loc) (component_arg : string) : M (option loc) :=
  let* L := deref l in
  let* newLogger := new_Logger
    (mkLogger (level L) (service L) component_arg (output L) (format L) (fields L)) in
  ret (Some newLogger).

Definition Logger_SetOutput (l : option loc) (w : Writer) : M unit :=
  let* L := deref l in
  match l with
  | Some a => store_Logger a
                (mkLogger (level L) (service L) (component L) w (format L) (fields L))
  | None => ret tt
  end.

Definition getCaller (rt : Runtime) : M (string * Z * string) :=
  note EvCaller ;;
  match rt_caller rt with
  | None => ret ("unknown", 0, "unknown")
  | Some (pc, fullFile, line) =>
      let file := rt_base rt fullFile in
      let function :=
        match rt_funcForPC rt pc with
        | Some name => rt_base rt name
        | None => "unknown"
        end in
      ret (file, line, function)
  end.

Definition formatTextEntry (rt : Runtime) (entry : LogEntry) : M string :=
  let timestamp := rt_time_format rt "2006-01-02 15:04:05" (Timestamp entry) in
  let* baseMsg := Sprintf rt "[%s] %s [%s/%s] %s:%d %s - %s"
    [VString timestamp; VString (Level entry); VString (Service entry);
     VString (Component entry); VString (File entry); VInt (Line entry);
     VString (Function entry); VString (Message entry)] in
  let* baseMsg :=
    if negb (String.eqb (TraceID entry) "")
    then let* s := Sprintf rt " [trace=%s]" [VString (TraceID entry)] in ret (baseMsg +:+ s)
    else ret baseMsg in
  let* baseMsg :=
    if negb (String.eqb (RequestID entry) "")
    then let* s := Sprintf rt " [request=%s]" [VString (RequestID entry)] in ret (baseMsg +:+ s)
    else ret baseMsg in
  let* baseMsg :=
    if negb (String.eqb (UserID entry) "")
    then let* s := Sprintf rt " [user=%s]" [VString (UserID entry)] in ret (baseMsg +:+ s)
    else ret baseMsg in
  match Fields_ entry with
  | Some fs =>
      if (0 <? Z.of_nat (size fs))
      then note EvMarshal ;;
           match rt_marshal_fields rt fs with
           | inl fieldsJSON =>
               let* s := Sprintf rt " fields=%s" [VString fieldsJSON] in ret (baseMsg +:+ s)
           | inr _ => ret baseMsg
           end
      else ret baseMsg
  | None => ret baseMsg
  end.

Definition marshal_failure_format : string :=
  "{" +:+ dq +:+ "level" +:+ dq +:+ ":" +:+ dq +:+ "ERROR" +:+ dq +:+ ","
  +:+ dq +:+ "message" +:+ dq +:+ ":" +:+ dq +:+ "Failed to marshal log entry: %s" +:+ dq +:+ ","
  +:+ dq +:+ "timestamp" +:+ dq +:+ ":" +:+ dq +:+ "%s" +:+ dq +:+ "}".

Definition RFC3339 : string := "2006-01-02T15:04:05Z07:00".

Definition Logger_writeEntry (rt : Runtime) (l : option loc) (entry : LogEntry) : M unit :=
  let* L := deref l in
  note (EvEntry entry) ;;
  let* out :=
    if format L =? JSON then
      note EvMarshal ;;
      match rt_marshal_entry rt entry with
      | inl jsonBytes => ret jsonBytes
      | inr err =>
          let* now := time_Now rt in
          Sprintf rt marshal_failure_format
            [VString err; VString (rt_time_format rt RFC3339 now)]
      end
    else if format L =? TEXT then formatTextEntry rt entry
    else ret EmptyString in
  Fprintln (output L) out.

(** The fields of a record: the logger's, then the extra ones, and the
    nil map when there are none. *)
Definition entry_fields (own : list (string * Value)) (extraFields : option Fields)
  : option Fields :=
  let fs := copy_into own ∅ in
  let fs := match extraFields with
            | Some extra => copy_into (map_to_list extra) fs
            | None => fs
            end in
  if Z.of_nat (size fs) =? 0 then None else Some fs.

Definition Logger_log (rt : Runtime) (l : option loc) (lvl : LogLevel)
    (message : string) (extraFields : option Fields) : M unit :=
  let* L := deref l in
  if lvl <? level L then ret tt
  else
    (* Get caller information *)
    let* '(file, line, function) := getCaller rt in
    let* now := time_Now rt in
    let* own := map_range (fields L) in
    Logger_writeEntry rt l
      {| Timestamp := now;
         Level := LogLevel_String lvl;
         Message := message;
         Service := service L;
         Component := component L;
         TraceID := EmptyString;
         UserID := EmptyString;
         RequestID := EmptyString;
         File := file;
         Line := line;
         Function := function;
         Duration_ := None;
         Error_ := EmptyString;
         Fields_ := entry_fields own extraFields;
         Tags := [] |}.

Definition Logger_logWithContext (rt : Runtime) (l : option loc) (ctx : Context)
    (lvl : LogLevel) (message : string) (extraFields : option Fields) : M unit :=
  let* L := deref l in
  if lvl <? level L then ret tt
  else
    (* Get caller information *)
    let* '(file, line, function) := getCaller rt in
    let* now := time_Now rt in
    (* Extract context values *)
    let traceID := getFromContext ctx traceIDKey in
    let userID := getFromContext ctx userIDKey in
    let requestID := getFromContext ctx requestIDKey in
    let* own := map_range (fields L) in
    Logger_writeEntry rt l
      {| Timestamp := now;
         Level := LogLevel_String lvl;
         Message := message;
         Service := service L;
         Component := component L;
         TraceID := if negb (String.eqb traceID "") then traceID else EmptyString;
         UserID := if negb (String.eqb userID "") then userID else EmptyString;
         RequestID := if negb (String.eqb requestID "") then requestID else EmptyString;
         File := file;
         Line := line;
         Function := function;
         Duration_ := None;
         Error_ := EmptyString;
         Fields_ := entry_fields own extraFields;
         Tags := [] |}.

(** The leveled methods of [*Logger]. *)

Definition Logger_Debug (rt : Runtime) (l : option loc) (message : string) : M unit :=
  Logger_log rt l DEBUG message None.

Definition Logger_Debugf (rt : Runtime) (l : option loc) (fmt : string) (args : list Value)
  : M unit :=
  let* message := Sprintf rt fmt args in Logger_log rt l DEBUG message None.

Definition Logger_DebugContext (rt : Runtime) (l : option loc) (ctx : Context)
    (message : string) : M unit :=
  Logger_logWithContext rt l ctx DEBUG message None.

Definition Logger_Info (rt : Runtime) (l : option loc) (message : string) : M unit :=
  Logger_log rt l INFO message None.

Definition Logger_Infof (rt : Runtime) (l : option loc) (fmt : string) (args : list Value)
  : M unit :=
  let* message := Sprintf rt fmt args in Logger_log rt l INFO message None.

Definition Logger_InfoContext (rt : Runtime) (l : option loc) (ctx : Context)
    (message : string) : M unit :=
  Logger_logWithContext rt l ctx INFO message None.

Definition Logger_Warn (rt : Runtime) (l : option loc) (message : string) : M unit :=
  Logger_log rt l WARN message None.

Definition Logger_Warnf (rt : Runtime) (l : option loc) (fmt : string) (args : list Value)
  : M unit :=
  let* message := Sprintf rt fmt args in Logger_log rt l WARN message None.

Definition Logger_WarnContext (rt : Runtime) (l : option loc) (ctx : Context)
    (message : string) : M unit :=
  Logger_logWithContext rt l ctx WARN message None.

Definition Logger_Error (rt : Runtime) (l : option loc) (message : string) : M unit :=
  Logger_log rt l ERROR message None.

Definition Logger_Errorf (rt : Runtime) (l : option loc) (fmt : string) (args : list Value)
  : M unit :=
  let* message := Sprintf rt fmt args in Logger_log rt l ERROR message None.

Definition Logger_ErrorContext (rt : Runtime) (l : option loc) (ctx : Context)
    (message : string) : M unit :=
  Logger_logWithContext rt l ctx ERROR message None.

Definition Logger_Fatal (rt : Runtime) (l : option loc) (message : string) : M unit :=
  Logger_log rt l FATAL message None ;; os_Exit 1.

Definition Logger_Fatalf (rt : Runtime) (l : option loc) (fmt : string) (args : list Value)
  : M unit :=
  (let* message := Sprintf rt fmt args in Logger_log rt l FATAL message None) ;;
  os_Exit 1.

(** The default logger and the package-level functions. *)

Definition get_defaultLogger : M (option loc) := λ w, (Ret (defaultLogger w), w).

Definition InitDefault (rt : Runtime) (service component : string) : M unit :=
  let* l := NewFromEnv rt service component in
  λ w, (Ret tt, set_defaultLogger l w).

Definition Debug (rt : Runtime) (message : string) : M unit :=
  let* d := get_defaultLogger in
  match d with Some _ => Logger_Debug rt d message | None => ret tt end.

Definition Debugf (rt : Runtime) (fmt : string) (args : list Value) : M unit :=
  let* d := get_defaultLogger in
  match d with Some _ => Logger_Debugf rt d fmt args | None => ret tt end.

Definition Info (rt : Runtime) (message : string) : M unit :=
  let* d := get_defaultLogger in
  match d with Some _ => Logger_Info rt d message | None => ret tt end.

Definition Infof (rt : Runtime) (fmt : string) (args : list Value) : M unit :=
  let* d := get_defaultLogger in
  match d with Some _ => Logger_Infof rt d fmt args | None => ret tt end.

Definition Warn (rt : Runtime) (message : string) : M unit :=
  let* d := get_defaultLogger in
  match d with Some _ => Logger_Warn rt d message | None => ret tt end.

Definition Warnf (rt : Runtime) (fmt : string) (args : list Value) : M unit :=
  let* d := get_defaultLogger in
  match d with Some _ => Logger_Warnf rt d fmt args | None => ret tt end.

Definition Error (rt : Runtime) (message : string) : M unit :=
  let* d := get_defaultLogger in
  match d with Some _ => Logger_Error rt d message | None => ret tt end.

Definition Errorf (rt : Runtime) (fmt : string) (args : list Value) : M unit :=
  let* d := get_defaultLogger in
  match d with Some _ => Logger_Errorf rt d fmt args | None => ret tt end.

Definition Fatal (rt : Runtime) (message : string) : M unit :=
  let* d := get_defaultLogger in
  match d with Some _ => Logger_Fatal rt d message | None => ret tt end.

Definition Fatalf (rt : Runtime) (fmt : string) (args : list Value) : M unit :=
  let* d := get_defaultLogger in
  match d with Some _ => Logger_Fatalf rt d fmt args | None => ret tt end.

(** A call of one of the leveled methods, as data. *)
Inductive EmitCall :=
| CallDebug (message : string)
| CallDebugf (fmt : string) (args : list Value)
| CallDebugContext (ctx : Context) (message : string)
| CallInfo (message : string)
| CallInfof (fmt : string) (args : list Value)
| CallInfoContext (ctx : Context) (message : string)
| CallWarn (message : string)
| CallWarnf (fmt : string) (args : list Value)
| CallWarnContext (ctx : Context) (message : string)
| CallError (message : string)
| CallErrorf (fmt : string) (args : list Value)
| CallErrorContext (ctx : Context) (message : string)
| CallFatal (message : string)
| CallFatalf (fmt : string) (args : list Value).

Definition emit (rt : Runtime) (l : option loc) (c : EmitCall) : M unit :=
  match c with
  | CallDebug m => Logger_Debug rt l m
  | CallDebugf f a => Logger_Debugf rt l f a
  | CallDebugContext ctx m => Logger_DebugContext rt l ctx m
  | CallInfo m => Logger_Info rt l m
  | CallInfof f a => Logger_Infof rt l f a
  | CallInfoContext ctx m => Logger_InfoContext rt l ctx m
  | CallWarn m => Logger_Warn rt l m
  | CallWarnf f a => Logger_Warnf rt l f a
  | CallWarnContext ctx m => Logger_WarnContext rt l ctx m
  | CallError m => Logger_Error rt l m
  | CallErrorf f a => Logger_Errorf rt l f a
  | CallErrorContext ctx m => Logger_ErrorContext rt l ctx m
  | CallFatal m => Logger_Fatal rt l m
  | CallFatalf f a => Logger_Fatalf rt l f a
  end.

(** The same for the package-level functions. *)
Inductive PackageCall :=
| PkgDebug (message : string)
| PkgDebugf (fmt : string) (args : list Value)
| PkgInfo (message : string)
| PkgInfof (fmt : string) (args : list Value)
| PkgWarn (message : string)
| PkgWarnf (fmt : string) (args : list Value)
| PkgError (message : string)
| PkgErrorf (fmt : string) (args : list Value)
| PkgFatal (message : string)
| PkgFatalf (fmt : string) (args : list Value).

Definition package_call (rt : Runtime) (c : PackageCall) : M unit :=
  match c with
  | PkgDebug m => Debug rt m
  | PkgDebugf f a => Debugf rt f a
  | PkgInfo m => Info rt m
  | PkgInfof f a => Infof rt f a
  | PkgWarn m => Warn rt m
  | PkgWarnf f a => Warnf rt f a
  | PkgError m => Error rt m
  | PkgErrorf f a => Errorf rt f a
  | PkgFatal m => Fatal rt m
  | PkgFatalf f a => Fatalf rt f a
  end.

(** The convenience methods.  Those that log a duration format it with
    [time.Duration.String], which is the standard library's: they take
    it as [Duration_String]. *)
Section duration.
Variable Duration_String : Duration → string.

Definition Logger_WithDuration (l : option loc) (duration : Duration) : M (option loc) :=
  Logger_WithField l "duration" (VString (Duration_String duration)).

Definition Logger_LogHTTPRequest (rt : Runtime) (l : option loc)
    (method path userAgent remoteAddr : string) (status : Z) (duration : Duration)
  : M unit :=
  let* lg := Logger_WithFields l (list_to_map
    [("http_method", VString method);
     ("http_path", VString path);
     ("http_user_agent", VString userAgent);
     ("http_remote_addr", VString remoteAddr);
     ("http_status_code", VInt status);
     ("duration", VString (Duration_String duration))]) in
  Logger_Info rt lg "HTTP request processed".

Definition Logger_LogDatabaseOperation (rt : Runtime) (l : option loc)
    (operation table : string) (duration : Duration) (rowsAffected : Z) : M unit :=
  let* lg := Logger_WithFields l (list_to_map
    [("db_operation", VString operation);
     ("db_table", VString table);
     ("db_rows_affected", VInt rowsAffected);
     ("duration", VString (Duration_String duration))]) in
  Logger_Debug rt lg "Database operation completed".

End duration.

(** [fields_arg] is ranged over only, so the nil map is the empty one. *)
Definition Logger_LogBusinessEvent (rt : Runtime) (l : option loc)
    (event entityID : string) (fields_arg : Fields) : M unit :=
  let logFields : Fields := list_to_map
    [("business_event", VString event);
     ("entity_id", VString entityID)] in
  let logFields := copy_into (map_to_list fields_arg) logFields in
  let* lg := Logger_WithFields l logFields in
  Logger_Info rt lg "Business event occurred".

End logger.

(** ** Package [textproto] (net/textproto): header keys *)

Module textproto.
Import Stdlib.Strings.Ascii.

Definition in_range (lo hi c : ascii) : bool :=
  (N_of_ascii lo <=? N_of_ascii c)%N && (N_of_ascii c <=? N_of_ascii hi)%N.

(** The bytes of a header field name: letters, digits and the token
    punctuation of RFC 7230. *)
Definition validHeaderFieldByte (c : ascii) : bool :=
  in_range "0" "9" c || in_range "a" "z" c || in_range "A" "Z" c
  || existsb (Ascii.eqb c) (String.list_ascii_of_string "!#$%&'*+-.^_`|~").

(** ['a' - 'A']. *)
Definition toLower : N := 32.

(** The second loop of [canonicalMIMEHeaderKey]: upper case for the
    first letter and for a letter after a dash, lower case for the
    other letters. *)
Fixpoint canonical_bytes (upper : bool) (a : string) : string :=
  match a with
  | EmptyString => EmptyString
  | String c rest =>
      let c := if upper && in_range "a" "z" c then ascii_of_N (N_of_ascii c - toLower)
               else if negb upper && in_range "A" "Z" c
                    then ascii_of_N (N_of_ascii c + toLower)
                    else c in
      String c (canonical_bytes (Ascii.eqb c "-") rest)
  end.

(** Its first loop: [None] when a byte is neither valid nor a space,
    else the flag [noCanon]. *)
Fixpoint looks_like_key (a : string) (noCanon : bool) : option bool :=
  match a with
  | EmptyString => Some noCanon
  | String c rest =>
      if validHeaderFieldByte c then looks_like_key rest noCanon
      else if Ascii.eqb c " " then looks_like_key rest true
      else None
  end.

(** [canonicalMIMEHeaderKey]; the table of common headers holds the
    keys themselves, so that looking the result up in it gives the same
    string. *)
Definition canonicalMIMEHeaderKey (a : string) : string :=
  match looks_like_key a false with
  | None => a
  | Some true => a
  | Some false => canonical_bytes true a
  end.

(** The loop of [CanonicalMIMEHeaderKey] from one byte on. *)
Fixpoint CanonicalMIMEHeaderKey_from (upper : bool) (rest s : string) : string :=
  match rest with
  | EmptyString => s
  | String c rest =>
      if negb (validHeaderFieldByte c) then s
      else if upper && in_range "a" "z" c then canonicalMIMEHeaderKey s
      else if negb upper && in_range "A" "Z" c then canonicalMIMEHeaderKey s
      else CanonicalMIMEHeaderKey_from (Ascii.eqb c "-") rest s
  end.

Definition CanonicalMIMEHeaderKey (s : string) : string :=
  CanonicalMIMEHeaderKey_from true s s.
Arguments CanonicalMIMEHeaderKey : simpl never.

End textproto.

(** ** Package [middleware] *)

Module middleware.
Import logger.

Definition StatusOK : Z := 200.
Definition StatusTooManyRequests : Z := 429.

(** [http.Header]; [Get], [Set] and [Del] canonicalise the key they are
    given, and the map is indexed by the result. *)
Abbreviation Header := (gmap string (list string)) (only parsing).

Definition Header_Get (h : Header) (key : string) : string :=
  match h !! textproto.CanonicalMIMEHeaderKey key with
  | Some (v :: _) => v
  | _ => EmptyString
  end.

Definition Header_Set (key value : string) (h : Header) : Header :=
  <[textproto.CanonicalMIMEHeaderKey key := [value]]> h.
Definition Header_Del (key : string) (h : Header) : Header :=
  delete (textproto.CanonicalMIMEHeaderKey key) h.

Record Request := mkRequest {
  Method : string;
  URL_Path : string;
  URL_RawQuery : string;
  ReqHeader : Header;
  RemoteAddr : string;
  Host : string;
  ContentLength : Z;
  req_ctx : Context
}.

Definition Request_UserAgent (r : Request) : string := Header_Get (ReqHeader r) "User-Agent".

Definition Request_WithContext (r : Request) (ctx : Context) : Request :=
  mkRequest (Method r) (URL_Path r) (URL_RawQuery r) (ReqHeader r) (RemoteAddr r)
            (Host r) (ContentLength r) ctx.

(** The interface [http.ResponseWriter].  [rw_Header_update] is a change
    made to the map that [Header()] returns. *)
Class ResponseWriter (T : Type) := {
  rw_Header : T → Header;
  rw_Header_update : (Header → Header) → T → T;
  rw_WriteHeader : Z → T → T;
  rw_Write : string → T → (Z * option string) * T
}.

(** The writer at the bottom: it keeps the calls it received, and answers
    a [Write] with the next of its [resp_replies], or, when none is left,
    with the length of the data and no error. *)
Inductive SinkCall :=
| SinkWriteHeader (code : Z)
| SinkWrite (data : string).

Record Response := mkResponse {
  resp_header : Header;
  resp_calls : list SinkCall;
  resp_replies : list (Z * option string)
}.

#[global] Instance Response_writer : ResponseWriter Response := {
  rw_Header w := resp_header w;
  rw_Header_update f w := mkResponse (f (resp_header w)) (resp_calls w) (resp_replies w);
  rw_WriteHeader code w :=
    mkResponse (resp_header w) (resp_calls w ++ [SinkWriteHeader code]) (resp_replies w);
  rw_Write data w :=
    match resp_replies w with
    | reply :: rest =>
        (reply, mkResponse (resp_header w) (resp_calls w ++ [SinkWrite data]) rest)
    | [] =>
        ((Z.of_nat (String.length data), None),
         mkResponse (resp_header w) (resp_calls w ++ [SinkWrite data]) [])
    end
}.

(** [responseWriter] wraps http.ResponseWriter to capture status code. *)
Record responseWriter (T : Type) := mkResponseWriter {
  inner : T;                       (* the embedded http.ResponseWriter *)
  statusCode : Z;
  written : Z
}.
Arguments mkResponseWriter {T}.
Arguments inner {T}.
Arguments statusCode {T}.
Arguments written {T}.

Definition newResponseWriter {T} (w : T) : responseWriter T :=
  {| inner := w; statusCode := StatusOK; written := 0 |}.

Definition responseWriter_WriteHeader {T} `{ResponseWriter T} (code : Z)
    (rw : responseWriter T) : responseWriter T :=
  {| inner := rw_WriteHeader code (inner rw); statusCode := code; written := written rw |}.

Definition responseWriter_Write {T} `{ResponseWriter T} (data : string)
    (rw : responseWriter T) : (Z * option string) * responseWriter T :=
  let '((n, err), w') := rw_Write data (inner rw) in
  ((n, err),
   {| inner := w'; statusCode := statusCode rw; written := wrap64 (written rw + n) |}).

#[global] Instance responseWriter_writer {T} `{ResponseWriter T}
  : ResponseWriter (responseWriter T) := {
  rw_Header rw := rw_Header (inner rw);
  rw_Header_update f rw :=
    {| inner := rw_Header_update f (inner rw);
       statusCode := statusCode rw; written := written rw |};
  rw_WriteHeader := responseWriter_WriteHeader;
  rw_Write := responseWriter_Write
}.

(** What a handler does to the response writer it is given: a change to
    the header map, [WriteHeader], or [Write]. *)
Inductive WriterOp :=
| OpHeader (change : gmap string (list string) → gmap string (list string))
| OpWriteHeader (code : Z)
| OpWrite (data : string).

(** The operations in turn; the second component is what each [Write]
    returned, in order. *)
Fixpoint apply_ops {T} `{ResponseWriter T} (ops : list WriterOp) (w : T)
  : T * list (Z * option string) :=
  match ops with
  | [] => (w, [])
  | OpHeader change :: rest => apply_ops rest (rw_Header_update change w)
  | OpWriteHeader code :: rest => apply_ops rest (rw_WriteHeader code w)
  | OpWrite data :: rest =>
      let '(reply, w') := rw_Write data w in
      let '(w'', replies) := apply_ops rest w' in
      (w'', reply :: replies)
  end.

(** An [http.Handler]: the calls it makes on the response writer, and the
    value it panics with at the end, if it does. *)
Record Handler := mkHandler {
  h_ops : list WriterOp;
  h_panic : option string
}.

Definition ServeHTTP {T} `{ResponseWriter T} (h : Handler) (w : T) (r : Request) : M T :=
  note (EvServeHTTP (req_ctx r) (rw_Header w)) ;;
  let w' := (apply_ops (h_ops h) w).1 in
  match h_panic h with
  | Some v => panic v
  | None => ret w'
  end.

(** [http.Error(w, error, code)]. *)
Definition http_Error {T} `{ResponseWriter T} (w : T) (error : string) (code : Z) : T :=
  let w := rw_Header_update (Header_Del "Content-Length") w in
  let w := rw_Header_update (Header_Set "Content-Type" "text/plain; charset=utf-8") w in
  let w := rw_Header_update (Header_Set "X-Content-Type-Options" "nosniff") w in
  let w := rw_WriteHeader code w in
  (rw_Write (error +:+ newline) w).2.

Record LoggingMiddleware := mkLoggingMiddleware {
  lm_logger : option loc
}.

Definition NewLoggingMiddleware (log : option loc) : LoggingMiddleware :=
  {| lm_logger := log |}.

(** A map literal. *)
Definition map_lit (entries : list (string * Value)) : Fields := list_to_map entries.

(** The handler that [lm.Handler(next)] returns. *)
Definition LoggingMiddleware_Handler {T} `{ResponseWriter T} (rt : Runtime)
    (lm : LoggingMiddleware) (next : Handler) (w : T) (r : Request) : M T :=
  let* start := time_Now rt in
  (* Generate request ID if not present *)
  let requestID := Header_Get (ReqHeader r) "X-Request-ID" in
  let* requestID :=
    if String.eqb requestID "" then uuid_New rt else ret requestID in
  (* Add request ID to context *)
  let ctx := WithRequestID (req_ctx r) requestID in
  let r := Request_WithContext r ctx in
  (* Add request ID to response headers *)
  let w := rw_Header_update (Header_Set "X-Request-ID" requestID) w in
  (* Wrap response writer *)
  let wrapped := newResponseWriter w in
  (* Log incoming request *)
  (let* lg := Logger_WithFields (lm_logger lm) (map_lit
      [("http_method", VString (Method r));
       ("http_path", VString (URL_Path r));
       ("http_query", VString (URL_RawQuery r));
       ("http_user_agent", VString (Request_UserAgent r));
       ("http_remote_addr", VString (RemoteAddr r));
       ("http_host", VString (Host r));
       ("request_id", VString requestID);
       ("content_length", VInt (ContentLength r))]) in
   Logger_InfoContext rt lg ctx "HTTP request started") ;;
  (* Process request *)
  let* wrapped := ServeHTTP next wrapped r in
  (* Calculate duration *)
  let* duration := time_Since rt start in
  (* Log response *)
  (let* lg := Logger_WithFields (lm_logger lm) (map_lit
      [("http_method", VString (Method r));
       ("http_path", VString (URL_Path r));
       ("http_status_code", VInt (statusCode wrapped));
       ("http_remote_addr", VString (RemoteAddr r));
       ("request_id", VString requestID);
       ("duration_ms", VInt (Duration_Milliseconds duration));
       ("response_size", VInt (written wrapped))]) in
   Logger_InfoContext rt lg ctx "HTTP request completed") ;;
  (* Log slow requests as warnings *)
  (if duration >? 5 * Second then
     let* lg := Logger_WithFields (lm_logger lm) (map_lit
       [("http_method", VString (Method r));
        ("http_path", VString (URL_Path r));
        ("duration_ms", VInt (Duration_Milliseconds duration));
        ("request_id", VString requestID)]) in
     Logger_WarnContext rt lg ctx "Slow HTTP request detected"
   else ret tt) ;;
  (* Log errors *)
  (if statusCode wrapped >=? 400 then
     let level := if statusCode wrapped >=? 500 then "error" else "warn" in
     let* logEntry := Logger_WithFields (lm_logger lm) (map_lit
       [("http_method", VString (Method r));
        ("http_path", VString (URL_Path r));
        ("http_status_code", VInt (statusCode wrapped));
        ("request_id", VString requestID)]) in
     if String.eqb level "error"
     then Logger_ErrorContext rt logEntry ctx "HTTP request failed with server error"
     else Logger_WarnContext rt logEntry ctx "HTTP request failed with client error"
   else ret tt) ;;
  ret (inner wrapped).

(** [lm.RateLimitMiddleware(next)]: the variables of the closure are
    allocated, and the handler is known by their address. *)
Definition RateLimitMiddleware (rt : Runtime) : M loc :=
  let* now := time_Now rt in
  λ w, let cl := fresh (dom (limiters w)) in
       (Ret cl, set_limiters (<[cl := mkRateLimiter ∅ now]> (limiters w)) w).

Definition get_limiter (cl : loc) : M RateLimiter := λ w,
  match limiters w !! cl with
  | Some st => (Ret st, w)
  | None => (Panic "dangling closure", w)
  end.

Definition set_limiter (cl : loc) (st : RateLimiter) : M unit := λ w,
  (Ret tt, set_limiters (<[cl := st]> (limiters w)) w).

(** The handler that [lm.RateLimitMiddleware(next)] returns. *)
Definition RateLimit_ServeHTTP {T} `{ResponseWriter T} (rt : Runtime)
    (lm : LoggingMiddleware) (next : Handler) (cl : loc) (w : T) (r : Request) : M T :=
  (* Reset counts every minute *)
  let* st := get_limiter cl in
  let* since := time_Since rt (lastReset st) in
  (if since >? Minute then
     set_limiter cl (mkRateLimiter ∅ (lastReset st)) ;;
     let* now := time_Now rt in
     set_limiter cl (mkRateLimiter ∅ now)
   else ret tt) ;;
  let clientIP := RemoteAddr r in
  let* st := get_limiter cl in
  set_limiter cl
    (mkRateLimiter
       (<[clientIP := wrap64 (default 0 (requestCounts st !! clientIP) + 1)]>
          (requestCounts st))
       (lastReset st)) ;;
  (* Simple rate limit: 100 requests per minute *)
  let* st := get_limiter cl in
  let count := default 0 (requestCounts st !! clientIP) in
  if count >? 100 then
    (let* lg := Logger_WithFields (lm_logger lm) (map_lit
       [("http_method", VString (Method r));
        ("http_path", VString (URL_Path r));
        ("http_remote_addr", VString (RemoteAddr r));
        ("request_count", VInt count);
        ("request_id", VString (GetRequestID (req_ctx r)))]) in
     Logger_WarnContext rt lg (req_ctx r) "Rate limit exceeded") ;;
    ret (http_Error w "Rate limit exceeded" StatusTooManyRequests)
  else
    (* Log high request rates *)
    (if count >? 50 then
       let* lg := Logger_WithFields (lm_logger lm) (map_lit
         [("http_remote_addr", VString (RemoteAddr r));
          ("request_count", VInt count);
          ("request_id", VString (GetRequestID (req_ctx r)))]) in
       Logger_InfoContext rt lg (req_ctx r) "High request rate detected"
     else ret tt) ;;
    ServeHTTP next w r.

Definition StatusInternalServerError : Z := 500.

(** The handler that [lm.HealthCheckMiddleware(next)] returns. *)
Definition HealthCheckMiddleware {T} `{ResponseWriter T} (rt : Runtime)
    (lm : LoggingMiddleware) (next : Handler) (w : T) (r : Request) : M T :=
  (* Skip detailed logging for health checks to reduce noise *)
  if String.eqb (URL_Path r) "/health" || String.eqb (URL_Path r) "/healthz"
  then ServeHTTP next w r
  else LoggingMiddleware_Handler rt lm next w r.

(** The handler that [lm.RecoveryMiddleware(next)] returns.  The
    deferred function runs when [next.ServeHTTP] has ended; [recover()]
    is not nil when it ended in a panic, and [w] has then received the
    calls that the inner handler made before it panicked.  An exit of
    the process is not a panic. *)
Definition RecoveryMiddleware {T} `{ResponseWriter T} (rt : Runtime)
    (lm : LoggingMiddleware) (next : Handler) (w : T) (r : Request) : M T := λ world,
  match ServeHTTP next w r world with
  | (Panic err, world') =>
      let w := (apply_ops (h_ops next) w).1 in
      (let requestID := GetRequestID (req_ctx r) in
       let* panicText := Sprintf rt "%v" [VString err] in
       (let* lg := Logger_WithFields (lm_logger lm) (map_lit
          [("http_method", VString (Method r));
           ("http_path", VString (URL_Path r));
           ("http_remote_addr", VString (RemoteAddr r));
           ("request_id", VString requestID);
           ("panic", VString panicText)]) in
        Logger_ErrorContext rt lg (req_ctx r) "HTTP handler panic recovered") ;;
       ret (http_Error w "Internal Server Error" StatusInternalServerError)) world'
  | other => other
  end.

(** The handler that [lm.CORSMiddleware(next)] returns. *)
Definition CORSMiddleware {T} `{ResponseWriter T} (rt : Runtime)
    (lm : LoggingMiddleware) (next : Handler) (w : T) (r : Request) : M T :=
  let origin := Header_Get (ReqHeader r) "Origin" in
  (if negb (String.eqb origin "") then
     let* lg := Logger_WithFields (lm_logger lm) (map_lit
       [("http_method", VString (Method r));
        ("http_path", VString (URL_Path r));
        ("origin", VString origin);
        ("request_id", VString (GetRequestID (req_ctx r)))]) in
     Logger_DebugContext rt lg (req_ctx r) "CORS request received"
   else ret tt) ;;
  (* Set CORS headers *)
  let w := rw_Header_update (Header_Set "Access-Control-Allow-Origin" "*") w in
  let w := rw_Header_update
             (Header_Set "Access-Control-Allow-Methods" "GET, POST, PUT, DELETE, OPTIONS") w in
  let w := rw_Header_update
             (Header_Set "Access-Control-Allow-Headers"
                         "Content-Type, Authorization, X-Request-ID") w in
  (* Handle preflight requests *)
  if String.eqb (Method r) "OPTIONS" then
    (let* lg := Logger_WithFields (lm_logger lm) (map_lit
       [("http_path", VString (URL_Path r));
        ("origin", VString origin);
        ("request_id", VString (GetRequestID (req_ctx r)))]) in
     Logger_DebugContext rt lg (req_ctx r) "CORS preflight request handled") ;;
    ret (rw_WriteHeader StatusOK w)
  else ServeHTTP next w r.

(** [r.URL.EscapedPath()] is the standard library's: the handler takes
    it as [URL_EscapedPath]. *)
Section escaped_path.
Variable URL_EscapedPath : Request → string.

(** The handler that [lm.SecurityHeadersMiddleware(next)] returns. *)
Definition SecurityHeadersMiddleware {T} `{ResponseWriter T} (rt : Runtime)
    (lm : LoggingMiddleware) (next : Handler) (w : T) (r : Request) : M T :=
  (* Security headers *)
  let w := rw_Header_update (Header_Set "X-Content-Type-Options" "nosniff") w in
  let w := rw_Header_update (Header_Set "X-Frame-Options" "DENY") w in
  let w := rw_Header_update (Header_Set "X-XSS-Protection" "1; mode=block") w in
  let w := rw_Header_update
             (Header_Set "Strict-Transport-Security" "max-age=31536000; includeSubDomains") w in
  (* Log suspicious requests *)
  let userAgent := Request_UserAgent r in
  (if String.eqb userAgent "" then
     let* lg := Logger_WithFields (lm_logger lm) (map_lit
       [("http_method", VString (Method r));
        ("http_path", VString (URL_Path r));
        ("http_remote_addr", VString (RemoteAddr r));
        ("request_id", VString (GetRequestID (req_ctx r)))]) in
     Logger_WarnContext rt lg (req_ctx r) "Request with empty User-Agent detected"
   else ret tt) ;;
  (* Log requests with suspicious patterns *)
  (if negb (String.eqb (URL_Path r) (URL_EscapedPath r)) then
     let* lg := Logger_WithFields (lm_logger lm) (map_lit
       [("http_method", VString (Method r));
        ("http_path", VString (URL_Path r));
        ("escaped_path", VString (URL_EscapedPath r));
        ("http_remote_addr", VString (RemoteAddr r));
        ("request_id", VString (GetRequestID (req_ctx r)))]) in
     Logger_WarnContext rt lg (req_ctx r) "Request with URL encoding detected"
   else ret tt) ;;
  ServeHTTP next w r.

End escaped_path.

End middleware.

(** ** Package [models] *)

Module models.
Import Stdlib.Strings.Ascii.

(** [t.IsZero()]: times are counted from the zero time. *)
Definition Time_IsZero (t : Time) : bool := t =? 0.

Record Log := mkLog {
  ID : Z;
  Message : string;
  Level : string;
  Timestamp : Time;
  Source : string
}.

Definition validLevels : list string :=
  ["DEBUG"; "INFO"; "WARN"; "ERROR"; "FATAL"; "debug"; "info"; "warn"; "error"; "fatal"].

(** [for _, v := range vs { if level == v { return true } }; return false]. *)
Fixpoint level_among (level : string) (vs : list string) : bool :=
  match vs with
  | [] => false
  | v :: rest => if String.eqb level v then true else level_among level rest
  end.

Definition isValidLogLevel (level : string) : bool := level_among level validLevels.

(** [l.Validate()] on a [*Log]: the error ([None] is nil) and the struct
    as the call leaves it. *)
Definition Log_Validate (rt : Runtime) (l : Log) : M (option string * Log) :=
  if String.eqb (Message l) "" then ret (Some "message cannot be empty", l)
  else if negb (isValidLogLevel (Level l)) then ret (Some "invalid log level", l)
  else
    let* l :=
      if Time_IsZero (Timestamp l)
      then (* Set current time if not provided *)
           let* now := time_Now rt in
           ret (mkLog (ID l) (Message l) (Level l) now (Source l))
      else ret l in
    let l :=
      if String.eqb (Source l) ""
      then mkLog (ID l) (Message l) (Level l) (Timestamp l) "unknown"
      else l in
    ret (None, l).

(** The regular expression of [isValidTimeFormat] is a sequence of
    single-character items between [^] and [$]: a decimal digit ([\d])
    or a literal character. *)
Inductive Item :=
| Digit
| Lit (c : ascii).

Definition item_matches (i : Item) (c : ascii) : bool :=
  match i with
  | Digit => (48 <=? nat_of_ascii c)%nat && (nat_of_ascii c <=? 57)%nat
  | Lit c' => Ascii.eqb c c'
  end.

(** A match of the whole string, from [^] to [$]. *)
Fixpoint matches_items (p : list Item) (s : string) : bool :=
  match p, s with
  | [], EmptyString => true
  | i :: p', String c s' => item_matches i c && matches_items p' s'
  | _, _ => false
  end.

(** [^\d{4}-\d{2}-\d{2}T\d{2}:\d{2}:\d{2}Z$]. *)
Definition timeFormat : list Item :=
  replicate 4 Digit ++ [Lit "-"%char] ++ replicate 2 Digit ++ [Lit "-"%char]
  ++ replicate 2 Digit ++ [Lit "T"%char] ++ replicate 2 Digit ++ [Lit ":"%char]
  ++ replicate 2 Digit ++ [Lit ":"%char] ++ replicate 2 Digit ++ [Lit "Z"%char].

Definition isValidTimeFormat (timeStr : string) : bool := matches_items timeFormat timeStr.

End models.

(** ** Observations and specification-side definitions *)

Import logger middleware.

(** The records handed to [writeEntry], the writes on writers, the
    message formattings and the invocations of inner handlers that a
    journal holds, each in order. *)
Definition records (j : list Event) : list LogEntry :=
  omap (λ ev, match ev with EvEntry e => Some e | _ => None end) j.

Definition writes (j : list Event) : list (Writer * string) :=
  omap (λ ev, match ev with EvWrite wr s => Some (wr, s) | _ => None end) j.

Definition served (j : list Event) : list (Context * gmap string (list string)) :=
  omap (λ ev, match ev with EvServeHTTP ctx hdr => Some (ctx, hdr) | _ => None end) j.

(** The level at which a leveled method logs. *)
Definition emit_level (c : EmitCall) : LogLevel :=
  match c with
  | CallDebug _ | CallDebugf _ _ | CallDebugContext _ _ => DEBUG
  | CallInfo _ | CallInfof _ _ | CallInfoContext _ _ => INFO
  | CallWarn _ | CallWarnf _ _ | CallWarnContext _ _ => WARN
  | CallError _ | CallErrorf _ _ | CallErrorContext _ _ => ERROR
  | CallFatal _ | CallFatalf _ _ => FATAL
  end.

(** What a formatted-message variant does before it reaches [log]. *)
Definition emit_formatting (c : EmitCall) : list Event :=
  match c with
  | CallDebugf f a | CallInfof f a | CallWarnf f a | CallErrorf f a | CallFatalf f a =>
      [EvSprintf f a]
  | _ => []
  end.

(** The message a leveled method logs. *)
Definition emit_message (rt : Runtime) (c : EmitCall) : string :=
  match c with
  | CallDebug m | CallInfo m | CallWarn m | CallError m | CallFatal m => m
  | CallDebugContext _ m | CallInfoContext _ m | CallWarnContext _ m
  | CallErrorContext _ m => m
  | CallDebugf f a | CallInfof f a | CallWarnf f a | CallErrorf f a | CallFatalf f a =>
      rt_sprintf rt f a
  end.

Definition emit_is_fatal (c : EmitCall) : bool :=
  match c with
  | CallFatal _ | CallFatalf _ _ => true
  | _ => false
  end.

(** How a leveled method ends when [log] returns. *)
Definition emit_outcome (c : EmitCall) : Outcome unit :=
  if emit_is_fatal c then Exit 1 else Ret tt.

Definition emit_exit (c : EmitCall) : list Event :=
  if emit_is_fatal c then [EvExit 1] else [].

(** The status code a handler set last, 200 if it set none. *)
Definition last_status (ops : list WriterOp) : Z :=
  foldl (λ acc op, match op with OpWriteHeader code => code | _ => acc end)
        StatusOK ops.

(** The sum of the byte counts of a list of replies to [Write]. *)
Definition reported_bytes (replies : list (Z * option string)) : Z :=
  foldr (λ reply acc, reply.1 + acc) 0 replies.

Definition is_WriteHeader (op : WriterOp) : bool :=
  match op with OpWriteHeader _ => true | _ => false end.

(** The changes a handler makes to the header map leave the header
    [key] alone, under whatever spelling of the key they are made. *)
Definition keeps_header (key : string) (ops : list WriterOp) : Prop :=
  Forall (λ op, match op with
                | OpHeader change =>
                    ∀ h, change h !! textproto.CanonicalMIMEHeaderKey key
                         = h !! textproto.CanonicalMIMEHeaderKey key
                | _ => True
                end) ops.

(** One request as the rate limiter meets it: the key, the reading of
    the clock it compares with the start of the window, and the reading
    it would take next, which becomes the start of a new window. *)
Record Arrival := mkArrival {
  arr_key : string;
  arr_now : Time;
  arr_next : Time
}.

Definition arrival (rt : Runtime) (w : World) (r : Request) : Arrival :=
  {| arr_key := RemoteAddr r;
     arr_now := rt_clock rt (ticks w);
     arr_next := rt_clock rt (S (ticks w)) |}.

(** A server that hands requests, one after the other, to the handler of
    one rate limiter, each with a response writer of its own; a request
    whose handler panics does not stop the server. *)
Fixpoint serve_all (rt : Runtime) (lm : LoggingMiddleware) (cl : loc)
    (reqs : list (Handler * Request * Response)) (w : World) : World * list Arrival :=
  match reqs with
  | [] => (w, [])
  | (next, r, resp) :: rest =>
      let w' := (RateLimit_ServeHTTP rt lm next cl resp r w).2 in
      let '(w'', tr) := serve_all rt lm cl rest w' in
      (w'', arrival rt w r :: tr)
  end.

(** The length of a window, in nanoseconds. *)
Definition sixty_seconds : Z := 60 * 1000000000.

(** The window as the specification words it (section 4.4), to compare
    the handler with: the first arrival more than sixty seconds after the
    start of the window opens a new one, which starts with that arrival
    alone; the result is the start of the window in force and the keys
    observed in it. *)
Fixpoint spec_window (windowStart : Time) (observed : list string)
    (arrivals : list Arrival) : Time * list string :=
  match arrivals with
  | [] => (windowStart, observed)
  | a :: rest =>
      if arr_now a - windowStart >? sixty_seconds
      then spec_window (arr_next a) [arr_key a] rest
      else spec_window windowStart (observed ++ [arr_key a]) rest
  end.

Definition count_key (k : string) (keys : list string) : nat :=
  length (filter (λ k', k' = k) keys).

(** A request was turned away by the rate limiter: status 429 was
    written to its response writer. *)
Definition denied (resp : Response) : Prop :=
  SinkWriteHeader StatusTooManyRequests ∈ resp_calls resp.

(** Events of encoding a record: formatting, marshalling, a reading of
    the clock for the fallback record. *)
Definition is_encoding (ev : Event) : bool :=
  match ev with
  | EvSprintf _ _ | EvMarshal | EvNow _ => true
  | _ => false
  end.

(** A run that only encodes: it returns, and changes nothing but the
    clock readings taken and the journal, to which it adds encoding
    events. *)
Definition encodes {A} (m : M A) : Prop :=
  ∀ w, ∃ a evs n,
    m w = (Ret a, set_journal (journal w ++ evs) (set_ticks (ticks w + n) w))
    ∧ Forall (λ ev, is_encoding ev = true) evs.

(** The record that [log] and [logWithContext] build for a logger [L]
    with fields [fs], for a call at [lvl] with [message] under [ctx],
    when the call site resolves to [site]. *)
Definition record_of (L : Logger) (fs : Fields) (lvl : LogLevel) (message : string)
    (ctx : Context) (site : string * Z * string) (e : LogEntry) : Prop :=
  Level e = LogLevel_String lvl
  ∧ Message e = message
  ∧ Service e = service L
  ∧ Component e = component L
  ∧ TraceID e = GetTraceID ctx
  ∧ UserID e = GetUserID ctx
  ∧ RequestID e = GetRequestID ctx
  ∧ (File e, Line e, Function e) = site
  ∧ Fields_ e = (if decide (fs = ∅) then None else Some fs).

(** What [getCaller] returns under a run time. *)
Definition call_site (rt : Runtime) : string * Z * string :=
  match rt_caller rt with
  | None => ("unknown", 0, "unknown")
  | Some (pc, fullFile, line) =>
      (rt_base rt fullFile, line,
       match rt_funcForPC rt pc with
       | Some name => rt_base rt name
       | None => "unknown"
       end)
  end.

(** The world after a record was written: [evs] joined the journal,
    [line] the writer [wr], and [n] readings of the clock were taken. *)
Definition after_write (w : World) (wr : Writer) (line : string) (n : nat)
    (evs : list Event) : World :=
  set_journal (journal w ++ evs)
    (set_sinks (<[wr := default [] (sinks w !! wr) ++ [line]]> (sinks w))
       (set_ticks (ticks w + n) w)).

(** [w'] comes from [w] by a run that logged the records [recs] and
    invoked inner handlers under the contexts [srv]: the loggers of [w]
    are as they were, and so are the rate limiters. *)
Record evolves (w w' : World) (recs : list LogEntry)
    (srv : list (Context * gmap string (list string))) : Prop :=
  mkEvolves {
    ev_loggers : ∀ b L, loggers w !! b = Some L → loggers w' !! b = Some L;
    ev_limiters : limiters w' = limiters w;
    ev_records : records (journal w') = records (journal w) ++ recs;
    ev_served : served (journal w') = served (journal w) ++ srv
  }.

(** The records that [lm.logger.WithFields(fs).XContext(ctx, message)]
    gives rise to, where [fs] has [id] under [request_id]: none when the
    level of the method is below the threshold of the logger, and
    otherwise the one record with that level, message, context and
    fields. *)
Definition logs (rt : Runtime) (L : Logger) (id : string) (ctx : Context)
    (lvl : LogLevel) (message : string) (recs : list LogEntry) : Prop :=
  if lvl <? level L then recs = []
  else ∃ e fs,
         recs = [e]
         ∧ fs !! "request_id" = Some (VString id)
         ∧ record_of L fs lvl message ctx (call_site rt) e.

(** The context a leveled method logs under: its argument for the
    context variants, the empty one for the others. *)
Definition emit_ctx (c : EmitCall) : Context :=
  match c with
  | CallDebugContext ctx _ | CallInfoContext ctx _ | CallWarnContext ctx _
  | CallErrorContext ctx _ => ctx
  | _ => []
  end.

(** The method of the default logger behind a package-level function. *)
Definition package_emit (c : PackageCall) : EmitCall :=
  match c with
  | PkgDebug m => CallDebug m
  | PkgDebugf f a => CallDebugf f a
  | PkgInfo m => CallInfo m
  | PkgInfof f a => CallInfof f a
  | PkgWarn m => CallWarn m
  | PkgWarnf f a => CallWarnf f a
  | PkgError m => CallError m
  | PkgErrorf f a => CallErrorf f a
  | PkgFatal m => CallFatal m
  | PkgFatalf f a => CallFatalf f a
  end.

(** The writer that [New] gives a logger: the file named by the
    configuration when one is named and can be opened, and the standard
    output otherwise. *)
Definition New_output (rt : Runtime) (config : Config) : Writer :=
  if negb (String.eqb (cfg_Output config) "")
     && negb (String.eqb (cfg_Output config) "stdout")
  then default Stdout (rt_openFile rt (cfg_Output config))
  else Stdout.

(** A string with its upper-case letters turned into lower case. *)
Definition lower_ascii (c : Ascii.ascii) : Ascii.ascii :=
  let n := Ascii.nat_of_ascii c in
  if (65 <=? n)%nat && (n <=? 90)%nat then Ascii.ascii_of_nat (n + 32) else c.

Fixpoint lower (s : string) : string :=
  match s with
  | EmptyString => EmptyString
  | String c s' => String (lower_ascii c) (lower s')
  end.

(** The record, if any, that a call at [lvl] through a logger derived
    from [L] by [WithFields] gives rise to, when the derived logger has
    the fields [fs]. *)
Definition logs_with (rt : Runtime) (L : Logger) (fs : Fields) (ctx : Context)
    (lvl : LogLevel) (message : string) (recs : list LogEntry) : Prop :=
  if lvl <? level L then recs = []
  else ∃ e, recs = [e] ∧ record_of L fs lvl message ctx (call_site rt) e.

(** The headers that the CORS stage and the security stage set. *)
Definition cors_headers (h : Header) : Header :=
  Header_Set "Access-Control-Allow-Headers" "Content-Type, Authorization, X-Request-ID"
    (Header_Set "Access-Control-Allow-Methods" "GET, POST, PUT, DELETE, OPTIONS"
       (Header_Set "Access-Control-Allow-Origin" "*" h)).

Definition security_headers (h : Header) : Header :=
  Header_Set "Strict-Transport-Security" "max-age=31536000; includeSubDomains"
    (Header_Set "X-XSS-Protection" "1; mode=block"
       (Header_Set "X-Frame-Options" "DENY"
          (Header_Set "X-Content-Type-Options" "nosniff" h))).

(** The record that [log] and [logWithContext] hand to [writeEntry]:
    for a logger [L] whose fields, joined with the extra ones, are [fs],
    a call at [lvl] with [message] under [ctx], and the reading [now] of
    the clock. *)
Definition entry_of (rt : Runtime) (L : Logger) (fs : Fields) (lvl : LogLevel)
    (message : string) (ctx : Context) (now : Time) : LogEntry :=
  {| Timestamp := now;
     Level := LogLevel_String lvl;
     Message := message;
     Service := service L;
     Component := component L;
     TraceID := GetTraceID ctx;
     UserID := GetUserID ctx;
     RequestID := GetRequestID ctx;
     File := (call_site rt).1.1;
     Line := (call_site rt).1.2;
     Function := (call_site rt).2;
     Duration_ := None;
     Error_ := EmptyString;
     Fields_ := if decide (fs = ∅) then None else Some fs;
     Tags := [] |}.

(** [run] is the result of deriving a logger from the logger [L] at [a]
    in [w]: it returns a logger at a new address, with the
    configuration of [L] and a map of its own that holds [fs], and
    leaves [L] and its map as they were. *)
Definition derived_from (w : World) (a : loc) (L : Logger) (fs : Fields)
    (run : Outcome (option loc) * World) : Prop :=
  ∃ a' D,
    run.1 = Ret (Some a')
    ∧ (a' ∉ dom (loggers w))
    ∧ loggers run.2 !! a' = Some D
    ∧ level D = level L ∧ service D = service L ∧ component D = component L
    ∧ output D = output L ∧ format D = format L
    ∧ (fields D ∉ dom (maps w))
    ∧ maps run.2 !! fields D = Some fs
    ∧ loggers run.2 !! a = Some L
    ∧ (∀ m, maps w !! fields L = Some m → maps run.2 !! fields L = Some m)
    ∧ journal run.2 = journal w
    ∧ sinks run.2 = sinks w.


(** A record without its fields. *)
Definition without_fields (e : LogEntry) : LogEntry :=
  mkLogEntry (Timestamp e) (Level e) (Message e) (Service e) (Component e) (TraceID e)
             (UserID e) (RequestID e) (File e) (Line e) (Function e) (Duration_ e)
             (Error_ e) None (Tags e).

(** A string of [n] decimal digits. *)
Definition is_digit (c : Ascii.ascii) : bool :=
  (48 <=? Ascii.nat_of_ascii c)%nat && (Ascii.nat_of_ascii c <=? 57)%nat.

Fixpoint all_digits (s : string) : bool :=
  match s with
  | EmptyString => true
  | String c s' => is_digit c && all_digits s'
  end.

Definition digits (n : nat) (s : string) : Prop :=
  String.length s = n ∧ all_digits s = true.

(** ** A run time and worlds for the examples *)

(** The identifier 6ba7b810-9dad-11d1-80b4-00c04fd430c8. *)
Definition example_uuid : uuid.UUID :=
  uuid.mkUUID
    [Byte.x6b; Byte.xa7; Byte.xb8; Byte.x10; Byte.x9d; Byte.xad; Byte.x11; Byte.xd1;
     Byte.x80; Byte.xb4; Byte.x00; Byte.xc0; Byte.x4f; Byte.xd4; Byte.x30; Byte.xc8]
    eq_refl.

Definition example_runtime : Runtime :=
  {| rt_sprintf := λ fmt _, fmt;
     rt_marshal_entry := λ e, inl (Message e);
     rt_marshal_fields := λ _, inl "{}";
     rt_time_format := λ _ _, "2024-05-01T10:00:00Z";
     rt_clock := λ n, Z.of_nat n * Second;
     rt_caller := Some (7%nat, "main.go", 42);
     rt_funcForPC := λ _, Some "main.main";
     rt_base := λ s, s;
     rt_getenv := λ _, EmptyString;
     rt_openFile := λ _, None;
     rt_uuid := λ _, example_uuid |}.

(** The same with a call stack that cannot be resolved. *)
Definition example_runtime_no_caller : Runtime :=
  {| rt_sprintf := rt_sprintf example_runtime;
     rt_marshal_entry := rt_marshal_entry example_runtime;
     rt_marshal_fields := rt_marshal_fields example_runtime;
     rt_time_format := rt_time_format example_runtime;
     rt_clock := rt_clock example_runtime;
     rt_caller := None;
     rt_funcForPC := λ _, None;
     rt_base := rt_base example_runtime;
     rt_getenv := rt_getenv example_runtime;
     rt_openFile := rt_openFile example_runtime;
     rt_uuid := rt_uuid example_runtime |}.

Definition example_logger (lvl : LogLevel) : Logger :=
  mkLogger lvl "log-ingestion" "http" Stdout JSON 0%nat.

(** A world with one logger, at address 0, whose map holds [fs]. *)
Definition example_world (lvl : LogLevel) (fs : Fields) : World :=
  mkWorld {[ 0%nat := example_logger lvl ]} {[ 0%nat := fs ]} ∅ ∅ None 0 0 [].

Definition example_middleware : LoggingMiddleware := NewLoggingMiddleware (Some 0%nat).

Definition example_request (hdr : gmap string (list string)) : Request :=
  mkRequest "GET" "/logs" EmptyString hdr "10.0.0.7:51034" "ingest.example.org" 0 [].

Definition example_response : Response := mkResponse ∅ [] [].

(** A world with the logger of [example_world], and a rate limiter, at
    address 0, whose window started at time 0 and has counted [n]
    requests of the client of [example_request]; [t] readings of the
    clock were taken. *)
Definition example_limited_world (lvl : LogLevel) (n : Z) (t : nat) : World :=
  mkWorld {[ 0%nat := example_logger lvl ]} {[ 0%nat := ∅ ]} ∅
          {[ 0%nat := mkRateLimiter {[ "10.0.0.7:51034" := n ]} 0 ]} None t 0 [].

(** A stand-in for [time.Duration.String]. *)
Definition example_Duration_String (d : Duration) : string :=
  if d =? 1500 * Millisecond then "1.5s" else "0s".

(** * Properties *)

(** ** Machine integers and time *)

Lemma wrap64_small z : minInt64 ≤ z ≤ maxInt64 → wrap64 z = z.
Proof.
  unfold wrap64, minInt64, maxInt64. intros Hz.
  rewrite Z.mod_small by lia. lia.
Qed.

Lemma wrap64_range z : minInt64 ≤ wrap64 z ≤ maxInt64.
Proof.
  unfold wrap64, minInt64, maxInt64.
  pose proof (Z.mod_pos_bound (z + 2 ^ 63) (2 ^ 64)). lia.
Qed.

Lemma wrap64_add_l a b : wrap64 (wrap64 a + b) = wrap64 (a + b).
Proof.
  unfold wrap64.
  replace ((a + 2 ^ 63) mod 2 ^ 64 - 2 ^ 63 + b + 2 ^ 63)
    with ((a + 2 ^ 63) mod 2 ^ 64 + b) by lia.
  rewrite Z.add_mod_idemp_l by lia.
  do 2 f_equal. lia.
Qed.

(** [time.Since(t) > time.Minute] is the comparison of the specification:
    saturation does not reach as low as a minute. *)
Lemma time_Sub_gt_Minute now t :
  (time_Sub now t >? Minute) = (now - t >? sixty_seconds).
Proof.
  unfold time_Sub, Minute, Second, Millisecond, sixty_seconds, maxInt64, minInt64.
  destruct (Z.gtb_spec (now - t) (60 * 1000000000)) as [Hgt | Hle].
  - apply Z.gtb_lt. lia.
  - destruct (Z.gtb_spec (Z.max (- 2 ^ 63) (Z.min (2 ^ 63 - 1) (now - t)))
                         (60 * (1000 * 1000000))); [lia | reflexivity].
Qed.

(** ** Level parsing *)

(** C9: [parseLogLevel] maps the five names of the levels to the levels,
    the alias WARNING to WARN, and every other string, the lowercase
    spellings among them, to INFO; being a total function it has a level
    for every string. *)
Theorem parseLogLevel_names_alias_default :
  parseLogLevel "DEBUG" = DEBUG
  ∧ parseLogLevel "INFO" = INFO
  ∧ parseLogLevel "WARN" = WARN
  ∧ parseLogLevel "ERROR" = ERROR
  ∧ parseLogLevel "FATAL" = FATAL
  ∧ parseLogLevel "WARNING" = WARN
  ∧ parseLogLevel "debug" = INFO
  ∧ (∀ s : string,
       s ∉ ["DEBUG"; "INFO"; "WARN"; "WARNING"; "ERROR"; "FATAL"] →
       parseLogLevel s = INFO)
  ∧ (∀ s : string, parseLogLevel s ∈ [DEBUG; INFO; WARN; ERROR; FATAL]).
Proof.
  repeat split; try reflexivity.
  - intros s Hs. unfold parseLogLevel.
    repeat match goal with
           | |- context [String.eqb s ?lit] =>
               destruct (String.eqb_spec s lit) as [-> | _];
               [exfalso; apply Hs; set_solver |]
           end.
    reflexivity.
  - intros s. unfold parseLogLevel.
    repeat match goal with
           | |- context [String.eqb s ?lit] => destruct (String.eqb s lit)
           end; simpl; set_solver.
Qed.

Lemma parseLogLevel_names_alias_default_witness :
  parseLogLevel "verbose" = INFO.
Proof.
  apply (proj1 (proj2 (proj2 (proj2 (proj2 (proj2 (proj2 (proj2
           parseLogLevel_names_alias_default)))))))).
  vm_compute. intros Hin.
  repeat (apply elem_of_cons in Hin as [Heq | Hin]; [discriminate Heq |]).
  inversion Hin.
Defined.

(** ** The response wrapper *)

Section wrapper.
Context {T : Type} `{ResponseWriter T}.

(** The wrapper passes every call on, returns what the wrapped writer
    returned, keeps the last status code and adds up the byte counts. *)
Lemma apply_ops_wrapper (ops : list WriterOp) (rw0 : responseWriter T) :
  let '(rw, replies) := apply_ops ops rw0 in
  let '(w, replies') := apply_ops ops (inner rw0) in
  replies = replies'
  ∧ inner rw = w
  ∧ statusCode rw =
      foldl (λ acc op, match op with OpWriteHeader code => code | _ => acc end)
            (statusCode rw0) ops
  ∧ wrap64 (written rw) = wrap64 (written rw0 + reported_bytes replies)
  ∧ (replies = [] → written rw = written rw0)
  ∧ (replies ≠ [] → written rw = wrap64 (written rw0 + reported_bytes replies)).
Proof.
  revert rw0. induction ops as [| [change | code | data] ops IH]; intros rw0; simpl.
  - repeat split; try congruence. f_equal. lia.
  - specialize (IH {| inner := rw_Header_update change (inner rw0);
                      statusCode := statusCode rw0; written := written rw0 |}).
    simpl in IH.
    destruct (apply_ops ops _) as [rw replies].
    destruct (apply_ops ops (rw_Header_update change (inner rw0))) as [w replies'].
    exact IH.
  - specialize (IH (responseWriter_WriteHeader code rw0)). simpl in IH.
    destruct (apply_ops ops (responseWriter_WriteHeader code rw0)) as [rw replies].
    destruct (apply_ops ops (rw_WriteHeader code (inner rw0))) as [w replies'].
    exact IH.
  - unfold responseWriter_Write.
    destruct (rw_Write data (inner rw0)) as [[n err] w1] eqn:Hw. simpl.
    specialize (IH {| inner := w1; statusCode := statusCode rw0;
                      written := wrap64 (written rw0 + n) |}).
    simpl in IH.
    destruct (apply_ops ops _) as [rw replies].
    destruct (apply_ops ops w1) as [w replies'].
    destruct IH as (-> & -> & Hst & Hwr & Hnil & Hcons).
    repeat split; try done.
    + rewrite Hwr. simpl. rewrite wrap64_add_l. f_equal. lia.
    + intros _. simpl. destruct replies' as [| reply replies'].
      * rewrite Hnil by done. simpl. f_equal. lia.
      * rewrite Hcons by done. rewrite wrap64_add_l. f_equal. simpl. lia.
Qed.

(** C5: on a fresh wrapper, the recorded status code is 200 when
    [WriteHeader] was never called and the argument of the last call of
    [WriteHeader] otherwise, in particular after calls of [WriteHeader]
    that come before the body writes; the byte counter is the sum, in
    [int64], of the counts that the wrapped writer reported for the calls
    of [Write], and that sum itself as long as it fits in an [int64]. *)
Theorem responseWriter_status_and_bytes (ops : list WriterOp) (w : T) :
  let rw := (apply_ops ops (newResponseWriter w)).1 in
  let replies := (apply_ops ops (newResponseWriter w)).2 in
  (Forall (λ op, is_WriteHeader op = false) ops → statusCode rw = 200)
  ∧ (∀ (before : list Z) (code : Z) (body : list WriterOp),
       ops = (OpWriteHeader <$> before) ++ OpWriteHeader code :: body →
       Forall (λ op, is_WriteHeader op = false) body →
       statusCode rw = code)
  ∧ statusCode rw = last_status ops
  ∧ replies = (apply_ops ops w).2
  ∧ inner rw = (apply_ops ops w).1
  ∧ written rw = wrap64 (reported_bytes replies)
  ∧ (minInt64 ≤ reported_bytes replies ≤ maxInt64 →
     written rw = reported_bytes replies).
Proof.
  intros rw replies. subst rw replies.
  pose proof (apply_ops_wrapper ops (newResponseWriter w)) as Hw.
  destruct (apply_ops ops (newResponseWriter w)) as [rw replies]. simpl in *.
  destruct (apply_ops ops w) as [w' replies'].
  destruct Hw as (-> & -> & Hst & Hwr & Hnil & Hcons). simpl.
  assert (Hsum : written rw = wrap64 (reported_bytes replies')).
  { destruct replies' as [| reply replies'].
    - rewrite Hnil by done. reflexivity.
    - rewrite Hcons by done. reflexivity. }
  assert (Hquiet : ∀ (body : list WriterOp) (c : Z),
             Forall (λ op, is_WriteHeader op = false) body →
             foldl (λ acc op, match op with
                              | OpWriteHeader code => code
                              | _ => acc
                              end) c body = c).
  { induction body as [| [change | code | data] body IH]; intros c Hb; simpl.
    - reflexivity.
    - apply IH. by inversion Hb.
    - inversion Hb; discriminate.
    - apply IH. by inversion Hb. }
  repeat split; try done.
  - intros Hall. rewrite Hst. by apply Hquiet.
  - intros before code body -> Hbody. rewrite Hst.
    rewrite foldl_app. simpl. by apply Hquiet.
  - intros Hrange. rewrite Hsum. by apply wrap64_small.
Qed.

End wrapper.

Lemma responseWriter_status_and_bytes_witness :
  let ops := [OpWriteHeader 201; OpWriteHeader 404; OpWrite "not found"; OpWrite "!"] in
  let w := mkResponse ∅ [] [(4, None)] in
  let rw := (apply_ops ops (newResponseWriter w)).1 in
  statusCode rw = 404 ∧ written rw = 5.
Proof.
  intros ops w rw.
  pose proof (responseWriter_status_and_bytes ops w) as (_ & Hlast & _ & _ & _ & _ & Hsum).
  split.
  - apply (Hlast [201] 404 [OpWrite "not found"; OpWrite "!"]).
    + reflexivity.
    + repeat constructor.
  - apply Hsum. vm_compute. split; discriminate.
Defined.

(** ** The monad and the store *)

Lemma bind_Ret {A B} (m : M A) (k : A → M B) w a w' :
  m w = (Ret a, w') → bind m k w = k a w'.
Proof. unfold bind. by intros ->. Qed.

Lemma bind_ret {A B} (a : A) (k : A → M B) w : bind (ret a) k w = k a w.
Proof. reflexivity. Qed.

Lemma bind_assoc {A B C} (m : M A) (f : A → M B) (g : B → M C) w :
  bind (bind m f) g w = bind m (λ x, bind (f x) g) w.
Proof. unfold bind. by destruct (m w) as [[a | code | reason] w']. Qed.

Lemma deref_Some w a L : loggers w !! a = Some L → deref (Some a) w = (Ret L, w).
Proof. unfold deref. by intros ->. Qed.

Lemma world_eta w :
  mkWorld (loggers w) (maps w) (sinks w) (limiters w) (defaultLogger w)
          (ticks w) (uuids w) (journal w) = w.
Proof. by destruct w. Qed.

Lemma records_app j1 j2 : records (j1 ++ j2) = records j1 ++ records j2.
Proof. apply omap_app. Qed.

Lemma writes_app j1 j2 : writes (j1 ++ j2) = writes j1 ++ writes j2.
Proof. apply omap_app. Qed.

Lemma served_app j1 j2 : served (j1 ++ j2) = served j1 ++ served j2.
Proof. apply omap_app. Qed.

Lemma encoding_no_records evs :
  Forall (λ ev, is_encoding ev = true) evs →
  records evs = [] ∧ writes evs = [] ∧ served evs = [].
Proof.
  induction 1 as [| ev evs Hev _ (IHr & IHw & IHs)]; [done |].
  destruct ev; try discriminate Hev; simpl; done.
Qed.

(** *** Runs that only encode *)

Lemma encodes_ret {A} (a : A) : encodes (ret a).
Proof.
  intros w. exists a, [], 0%nat. split; [| constructor].
  unfold ret, set_journal, set_ticks. simpl.
  rewrite app_nil_r, Nat.add_0_r. by rewrite world_eta.
Qed.

Lemma encodes_bind {A B} (m : M A) (k : A → M B) :
  encodes m → (∀ a, encodes (k a)) → encodes (bind m k).
Proof.
  intros Hm Hk w.
  destruct (Hm w) as (a & evs1 & n1 & Hrun & Hevs1).
  destruct (Hk a (set_journal (journal w ++ evs1) (set_ticks (ticks w + n1) w)))
    as (b & evs2 & n2 & Hrun2 & Hevs2).
  exists b, (evs1 ++ evs2), (n1 + n2)%nat. split.
  - rewrite (bind_Ret _ _ _ _ _ Hrun), Hrun2.
    unfold set_journal, set_ticks. simpl.
    by rewrite app_assoc, Nat.add_assoc.
  - by apply Forall_app.
Qed.

Lemma encodes_note ev : is_encoding ev = true → encodes (note ev).
Proof.
  intros Hev w. exists tt, [ev], 0%nat. split; [| by repeat constructor].
  unfold note, set_journal, set_ticks. simpl. by rewrite Nat.add_0_r.
Qed.

Lemma encodes_Sprintf rt fmt args : encodes (Sprintf rt fmt args).
Proof.
  unfold Sprintf. apply encodes_bind; [by apply encodes_note |].
  intros _. apply encodes_ret.
Qed.

Lemma encodes_time_Now rt : encodes (time_Now rt).
Proof.
  intros w. exists (rt_clock rt (ticks w)), [EvNow (rt_clock rt (ticks w))], 1%nat.
  split; [| by repeat constructor].
  unfold time_Now, set_journal, set_ticks. simpl. by rewrite Nat.add_1_r.
Qed.

Ltac encoding :=
  repeat first
    [ apply encodes_ret
    | apply encodes_Sprintf
    | apply encodes_time_Now
    | apply encodes_note; reflexivity
    | apply encodes_bind; [| intros ? ]
    | match goal with
      | |- encodes (if ?b then _ else _) => destruct b
      | |- encodes (match ?x with _ => _ end) => destruct x
      end ].

Lemma encodes_formatTextEntry rt entry : encodes (formatTextEntry rt entry).
Proof. unfold formatTextEntry. encoding. Qed.

(** ** Writing a record *)

(** [writeEntry] returns, and does one [Write] of one line that ends in
    a newline on the logger's writer; before it come only events of
    encoding. *)
Lemma Logger_writeEntry_spec rt w a L entry :
  loggers w !! a = Some L →
  ∃ line evs n,
    Logger_writeEntry rt (Some a) entry w =
      (Ret tt, after_write w (output L) (line +:+ newline) n
                 ([EvEntry entry] ++ evs ++ [EvWrite (output L) (line +:+ newline)]))
    ∧ Forall (λ ev, is_encoding ev = true) evs.
Proof.
  intros HL. unfold Logger_writeEntry.
  rewrite (bind_Ret _ _ _ _ _ (deref_Some _ _ _ HL)).
  unfold bind at 1. simpl.
  match goal with
  | |- context [bind ?m _ ?w1] =>
      assert (Henc : encodes m) by encoding;
      destruct (Henc w1) as (out & evs & n & Hrun & Hevs)
  end.
  exists out, evs, n. split; [| exact Hevs].
  rewrite (bind_Ret _ _ _ _ _ Hrun).
  unfold Fprintln, after_write, set_journal, set_sinks, set_ticks. simpl.
  by rewrite <- !app_assoc.
Qed.

(** ** Field maps *)

(** The copying loop gives the union in which the copied entries win. *)
Lemma copy_into_lookup (src : list (string * Value)) (dst : Fields) (k : string) :
  NoDup src.*1 →
  copy_into src dst !! k =
    match (list_to_map src : Fields) !! k with
    | Some v => Some v
    | None => dst !! k
    end.
Proof.
  revert dst. induction src as [| [k0 v0] src IH]; intros dst Hnd; simpl.
  - by rewrite lookup_empty.
  - apply NoDup_cons in Hnd as [Hk0 Hnd].
    unfold copy_into in *. simpl. rewrite IH by done.
    destruct (decide (k = k0)) as [-> | Hne].
    + rewrite lookup_insert_eq.
      by rewrite (not_elem_of_list_to_map_1 _ _ Hk0), lookup_insert_eq.
    + rewrite !(lookup_insert_ne _ k0 k) by done. done.
Qed.

Lemma copy_into_union (src dst : Fields) :
  copy_into (map_to_list src) dst = src ∪ dst.
Proof.
  apply map_eq. intros k.
  rewrite copy_into_lookup by apply NoDup_fst_map_to_list.
  rewrite list_to_map_to_list, lookup_union.
  by destruct (src !! k), (dst !! k).
Qed.

Lemma entry_fields_spec (base : Fields) (extra : option Fields) :
  entry_fields (map_to_list base) extra =
    if decide (default ∅ extra ∪ base = ∅) then None else Some (default ∅ extra ∪ base).
Proof.
  unfold entry_fields. rewrite copy_into_union, (right_id_L ∅ (∪)).
  assert (Hfs : (match extra with
                 | Some ex => copy_into (map_to_list ex) base
                 | None => base
                 end) = default ∅ extra ∪ base).
  { destruct extra as [ex |]; simpl.
    - apply copy_into_union.
    - by rewrite (left_id_L ∅ (∪)). }
  rewrite Hfs.
  destruct (decide (default ∅ extra ∪ base = ∅)) as [-> | Hne].
  - by rewrite map_size_empty.
  - destruct (Z.eqb_spec (Z.of_nat (size (default ∅ extra ∪ base))) 0) as [Hz | _]; [| done].
    exfalso. apply Hne, map_size_empty_iff. lia.
Qed.

(** ** The leveled methods *)

Lemma getCaller_spec rt w :
  getCaller rt w = (Ret (call_site rt), set_journal (journal w ++ [EvCaller]) w).
Proof.
  unfold getCaller, call_site, bind, note. simpl.
  by destruct (rt_caller rt) as [[[pc fullFile] line] |].
Qed.

Lemma nonempty_or_empty (s : string) :
  (if negb (String.eqb s "") then s else EmptyString) = s.
Proof. by destruct (String.eqb_spec s "") as [-> | _]. Qed.

(** A call that passes the threshold: [logWithContext] resolves the call
    site, reads the clock, builds the record and writes it. *)
Lemma Logger_logWithContext_emits rt w a L ctx lvl message extraFields :
  loggers w !! a = Some L →
  level L ≤ lvl →
  ∃ e line evs n,
    Logger_logWithContext rt (Some a) ctx lvl message extraFields w =
      (Ret tt, after_write w (output L) (line +:+ newline) n
                 ([EvCaller; EvNow (rt_clock rt (ticks w)); EvEntry e] ++ evs
                  ++ [EvWrite (output L) (line +:+ newline)]))
    ∧ Forall (λ ev, is_encoding ev = true) evs
    ∧ record_of L (default ∅ extraFields ∪ default ∅ (maps w !! fields L))
                lvl message ctx (call_site rt) e.
Proof.
  intros HL Hlvl. unfold Logger_logWithContext.
  rewrite (bind_Ret _ _ _ _ _ (deref_Some _ _ _ HL)).
  destruct (Z.ltb_spec lvl (level L)) as [Hlt | _]; [lia |].
  rewrite (bind_Ret _ _ _ _ _ (getCaller_spec rt w)).
  destruct (call_site rt) as [[file line] function] eqn:Hsite.
  unfold bind at 1, time_Now at 1. simpl.
  unfold bind at 1, map_range at 1. simpl.
  rewrite entry_fields_spec.
  match goal with
  | |- context [Logger_writeEntry rt (Some a) ?e ?w1] =>
      destruct (Logger_writeEntry_spec rt w1 a L e HL) as (out & evs & n & Hrun & Hevs);
      exists e, out, evs, (S n)
  end.
  split; [| split; [exact Hevs |]].
  - rewrite Hrun. unfold after_write, set_journal, set_sinks, set_ticks. simpl.
    rewrite <- !app_assoc. simpl. by rewrite Nat.add_succ_r.
  - unfold record_of, GetTraceID, GetUserID, GetRequestID. simpl.
    by rewrite !nonempty_or_empty.
Qed.

Lemma Logger_log_emits rt w a L lvl message extraFields :
  loggers w !! a = Some L →
  level L ≤ lvl →
  ∃ e line evs n,
    Logger_log rt (Some a) lvl message extraFields w =
      (Ret tt, after_write w (output L) (line +:+ newline) n
                 ([EvCaller; EvNow (rt_clock rt (ticks w)); EvEntry e] ++ evs
                  ++ [EvWrite (output L) (line +:+ newline)]))
    ∧ Forall (λ ev, is_encoding ev = true) evs
    ∧ record_of L (default ∅ extraFields ∪ default ∅ (maps w !! fields L))
                lvl message [] (call_site rt) e.
Proof.
  intros HL Hlvl. unfold Logger_log.
  rewrite (bind_Ret _ _ _ _ _ (deref_Some _ _ _ HL)).
  destruct (Z.ltb_spec lvl (level L)) as [Hlt | _]; [lia |].
  rewrite (bind_Ret _ _ _ _ _ (getCaller_spec rt w)).
  destruct (call_site rt) as [[file line] function] eqn:Hsite.
  unfold bind at 1, time_Now at 1. simpl.
  unfold bind at 1, map_range at 1. simpl.
  rewrite entry_fields_spec.
  match goal with
  | |- context [Logger_writeEntry rt (Some a) ?e ?w1] =>
      destruct (Logger_writeEntry_spec rt w1 a L e HL) as (out & evs & n & Hrun & Hevs);
      exists e, out, evs, (S n)
  end.
  split; [| split; [exact Hevs |]].
  - rewrite Hrun. unfold after_write, set_journal, set_sinks, set_ticks. simpl.
    rewrite <- !app_assoc. simpl. by rewrite Nat.add_succ_r.
  - by unfold record_of.
Qed.

(** A call below the threshold returns at the comparison. *)
Lemma Logger_logWithContext_filtered rt w a L ctx lvl message extraFields :
  loggers w !! a = Some L →
  lvl < level L →
  Logger_logWithContext rt (Some a) ctx lvl message extraFields w = (Ret tt, w).
Proof.
  intros HL Hlvl. unfold Logger_logWithContext.
  rewrite (bind_Ret _ _ _ _ _ (deref_Some _ _ _ HL)).
  by destruct (Z.ltb_spec lvl (level L)) as [_ | Hge]; [| lia].
Qed.

Lemma Logger_log_filtered rt w a L lvl message extraFields :
  loggers w !! a = Some L →
  lvl < level L →
  Logger_log rt (Some a) lvl message extraFields w = (Ret tt, w).
Proof.
  intros HL Hlvl. unfold Logger_log.
  rewrite (bind_Ret _ _ _ _ _ (deref_Some _ _ _ HL)).
  by destruct (Z.ltb_spec lvl (level L)) as [_ | Hge]; [| lia].
Qed.

Lemma after_write_prefix w pre wr line n evs :
  after_write (set_journal (journal w ++ pre) w) wr line n evs =
  after_write w wr line n (pre ++ evs).
Proof.
  unfold after_write, set_journal, set_sinks, set_ticks. simpl.
  by rewrite <- app_assoc.
Qed.

(** What a leveled method does, in full: below the threshold nothing but
    the formatting of the message (and the exit of [Fatal]); otherwise
    the formatting, the call site, the clock, the record, its encoding,
    one write of one line (and the exit of [Fatal]). *)
Lemma emit_run rt w a L c :
  loggers w !! a = Some L →
  (emit_level c < level L →
   emit rt (Some a) c w =
     (emit_outcome c, set_journal (journal w ++ emit_formatting c ++ emit_exit c) w))
  ∧ (level L ≤ emit_level c →
     ∃ e line evs n,
       emit rt (Some a) c w =
         (emit_outcome c,
          after_write w (output L) (line +:+ newline) n
            (emit_formatting c
             ++ [EvCaller; EvNow (rt_clock rt (ticks w)); EvEntry e] ++ evs
             ++ [EvWrite (output L) (line +:+ newline)] ++ emit_exit c))
       ∧ Forall (λ ev, is_encoding ev = true) evs
       ∧ Level e = LogLevel_String (emit_level c)
       ∧ Message e = emit_message rt c
       ∧ (File e, Line e, Function e) = call_site rt).
Proof.
  intros HL. split.
  - intros Hlt.
    assert (Hplain : ∀ w1 message, loggers w1 = loggers w →
              Logger_log rt (Some a) (emit_level c) message None w1 = (Ret tt, w1)).
    { intros w1 message Hw1. apply (Logger_log_filtered rt w1 a L); [by rewrite Hw1 | done]. }
    assert (Hctx : ∀ ctx message,
              Logger_logWithContext rt (Some a) ctx (emit_level c) message None w
              = (Ret tt, w)).
    { intros ctx message. by apply (Logger_logWithContext_filtered rt w a L). }
    destruct c; simpl in *; unfold emit_outcome, emit_exit; simpl;
      unfold Logger_Debug, Logger_Debugf, Logger_DebugContext, Logger_Info, Logger_Infof,
        Logger_InfoContext, Logger_Warn, Logger_Warnf, Logger_WarnContext,
        Logger_Error, Logger_Errorf, Logger_ErrorContext, Logger_Fatal, Logger_Fatalf;
      unfold bind, Sprintf, note, ret, os_Exit; simpl;
      rewrite ?Hctx, ?Hplain by done; simpl;
      unfold set_journal; simpl; rewrite ?app_nil_r, ?world_eta, <- ?app_assoc; done.
  - intros Hge.
    assert (Hplain : ∀ pre message,
              ∃ e line evs n,
                Logger_log rt (Some a) (emit_level c) message None
                  (set_journal (journal w ++ pre) w) =
                  (Ret tt, after_write w (output L) (line +:+ newline) n
                     (pre ++ [EvCaller; EvNow (rt_clock rt (ticks w)); EvEntry e] ++ evs
                      ++ [EvWrite (output L) (line +:+ newline)]))
                ∧ Forall (λ ev, is_encoding ev = true) evs
                ∧ Level e = LogLevel_String (emit_level c)
                ∧ Message e = message
                ∧ (File e, Line e, Function e) = call_site rt).
    { intros pre message.
      destruct (Logger_log_emits rt (set_journal (journal w ++ pre) w) a L
                  (emit_level c) message None HL Hge)
        as (e & line & evs & n & Hrun & Hevs & Hrec).
      exists e, line, evs, n. rewrite Hrun, after_write_prefix.
      destruct Hrec as (? & ? & _ & _ & _ & _ & _ & ? & _). done. }
    assert (Hctx : ∀ ctx message,
              ∃ e line evs n,
                Logger_logWithContext rt (Some a) ctx (emit_level c) message None w =
                  (Ret tt, after_write w (output L) (line +:+ newline) n
                     ([EvCaller; EvNow (rt_clock rt (ticks w)); EvEntry e] ++ evs
                      ++ [EvWrite (output L) (line +:+ newline)]))
                ∧ Forall (λ ev, is_encoding ev = true) evs
                ∧ Level e = LogLevel_String (emit_level c)
                ∧ Message e = message
                ∧ (File e, Line e, Function e) = call_site rt).
    { intros ctx message.
      destruct (Logger_logWithContext_emits rt w a L ctx (emit_level c) message None HL Hge)
        as (e & line & evs & n & Hrun & Hevs & Hrec).
      exists e, line, evs, n. rewrite Hrun.
      destruct Hrec as (? & ? & _ & _ & _ & _ & _ & ? & _). done. }
    assert (Hnil : set_journal (journal w ++ []) w = w).
    { unfold set_journal. by rewrite app_nil_r, world_eta. }
    destruct c; simpl in *; unfold emit_outcome, emit_exit; simpl;
      unfold Logger_Debug, Logger_Debugf, Logger_DebugContext, Logger_Info, Logger_Infof,
        Logger_InfoContext, Logger_Warn, Logger_Warnf, Logger_WarnContext,
        Logger_Error, Logger_Errorf, Logger_ErrorContext, Logger_Fatal, Logger_Fatalf;
      match goal with
      | |- context [Logger_logWithContext rt (Some a) ?ctx _ ?m None] =>
          destruct (Hctx ctx m) as (e & line & evs & n & Hrun & Hevs & Hl & Hm & Hs)
      | |- context [Sprintf rt ?f ?args] =>
          destruct (Hplain [EvSprintf f args] (rt_sprintf rt f args))
            as (e & line & evs & n & Hrun & Hevs & Hl & Hm & Hs)
      | |- context [Logger_log rt (Some a) _ ?m None] =>
          destruct (Hplain [] m) as (e & line & evs & n & Hrun & Hevs & Hl & Hm & Hs);
          rewrite Hnil in Hrun
      end;
      exists e, line, evs, n;
      (split; [| done]);
      unfold bind, Sprintf, note, ret, os_Exit; simpl;
      rewrite Hrun; simpl;
      unfold after_write, set_journal, set_sinks, set_ticks; simpl;
      rewrite ?app_nil_r; repeat (rewrite <- app_assoc; simpl); done.
Qed.

(** Projections of a journal, pushed through the events it is made of. *)
Lemma records_cons ev j :
  records (ev :: j) = match ev with EvEntry e => e :: records j | _ => records j end.
Proof. by destruct ev. Qed.

Lemma writes_cons ev j :
  writes (ev :: j) = match ev with EvWrite wr s => (wr, s) :: writes j | _ => writes j end.
Proof. by destruct ev. Qed.

Lemma served_cons ev j :
  served (ev :: j) =
    match ev with EvServeHTTP ctx hdr => (ctx, hdr) :: served j | _ => served j end.
Proof. by destruct ev. Qed.

Lemma records_nil : records [] = [].
Proof. reflexivity. Qed.

Lemma writes_nil : writes [] = [].
Proof. reflexivity. Qed.

Lemma served_nil : served [] = [].
Proof. reflexivity. Qed.

Create Rewrite HintDb journal.
#[local] Hint Rewrite records_app writes_app served_app records_cons writes_cons
  served_cons records_nil writes_nil served_nil : journal.

Ltac journal_simpl :=
  unfold after_write, set_journal, set_sinks, set_ticks, set_loggers, set_maps,
    set_limiters, set_uuids, set_defaultLogger;
  cbn [fst snd journal sinks ticks loggers maps limiters defaultLogger uuids];
  repeat (autorewrite with journal; cbv beta iota).

Lemma emit_formatting_quiet c :
  records (emit_formatting c) = [] ∧ writes (emit_formatting c) = [].
Proof. by destruct c. Qed.

Lemma emit_exit_quiet c : records (emit_exit c) = [] ∧ writes (emit_exit c) = [].
Proof. unfold emit_exit. by destruct (emit_is_fatal c). Qed.

(** C1, as the code has it: for a logger with threshold [level L], a
    leveled method whose level is below the threshold writes nothing to
    the sink, builds no record, resolves no call site and reads no
    clock; one whose level is at or above the threshold does exactly
    one write, of one line that ends in a newline, on the logger's
    sink.  The comparison comes before the resolution of the call site,
    the construction of the record, its encoding and the write; only
    the formatted-message variants format their message with
    [fmt.Sprintf] before the comparison is reached.  [Fatal] and
    [Fatalf] exit with status 1 when [log] has returned, in both cases. *)
Theorem emit_threshold rt w a L c :
  loggers w !! a = Some L →
  let r := emit rt (Some a) c w in
  r.1 = emit_outcome c
  ∧ (emit_level c < level L →
     sinks r.2 = sinks w
     ∧ writes (journal r.2) = writes (journal w)
     ∧ records (journal r.2) = records (journal w)
     ∧ ticks r.2 = ticks w
     ∧ journal r.2 = journal w ++ emit_formatting c ++ emit_exit c)
  ∧ (level L ≤ emit_level c →
     ∃ e line evs,
       sinks r.2 =
         <[output L := default [] (sinks w !! output L) ++ [line +:+ newline]]> (sinks w)
       ∧ writes (journal r.2) = writes (journal w) ++ [(output L, line +:+ newline)]
       ∧ records (journal r.2) = records (journal w) ++ [e]
       ∧ Level e = LogLevel_String (emit_level c)
       ∧ Message e = emit_message rt c
       ∧ journal r.2 =
           journal w ++ emit_formatting c
           ++ [EvCaller; EvNow (rt_clock rt (ticks w)); EvEntry e] ++ evs
           ++ [EvWrite (output L) (line +:+ newline)] ++ emit_exit c
       ∧ Forall (λ ev, is_encoding ev = true) evs).
Proof.
  intros HL r. subst r.
  destruct (emit_run rt w a L c HL) as [Hbelow Habove].
  destruct (emit_formatting_quiet c) as [Hfr Hfw].
  destruct (emit_exit_quiet c) as [Her Hew].
  split; [| split].
  - destruct (Z.lt_ge_cases (emit_level c) (level L)) as [Hlt | Hge].
    + by rewrite (Hbelow Hlt).
    + destruct (Habove Hge) as (e & line & evs & n & -> & _). done.
  - intros Hlt. rewrite (Hbelow Hlt). journal_simpl.
    rewrite Hfr, Hfw, Her, Hew, !app_nil_r. done.
  - intros Hge. destruct (Habove Hge) as (e & line & evs & n & -> & Hevs & Hl & Hm & _).
    exists e, line, evs.
    destruct (encoding_no_records evs Hevs) as (Hr & Hw & _). journal_simpl.
    rewrite Hfr, Hfw, Her, Hew, Hr, Hw. simpl.
    rewrite ?app_nil_r. done.
Qed.

Lemma emit_threshold_witness :
  let w := example_world WARN ∅ in
  loggers w !! 0%nat = Some (example_logger WARN)
  ∧ emit_level (CallInfo "ready") < WARN
  ∧ WARN ≤ emit_level (CallErrorf "disk %s" [VString "full"])
  ∧ sinks (emit example_runtime (Some 0%nat) (CallInfo "ready") w).2 = sinks w
  ∧ ∃ line,
      writes (journal (emit example_runtime (Some 0%nat)
                         (CallErrorf "disk %s" [VString "full"]) w).2)
      = [(Stdout, line +:+ newline)].
Proof.
  intros w.
  assert (HL : loggers w !! 0%nat = Some (example_logger WARN)) by reflexivity.
  split; [exact HL |]. split; [reflexivity |]. split; [discriminate |].
  split.
  - destruct (emit_threshold example_runtime w 0%nat _ (CallInfo "ready") HL)
      as (_ & Hbelow & _).
    apply Hbelow. reflexivity.
  - destruct (emit_threshold example_runtime w 0%nat _
                (CallErrorf "disk %s" [VString "full"]) HL) as (_ & _ & Habove).
    destruct Habove as (e & line & evs & _ & Hw & _); [discriminate |].
    exists line. exact Hw.
Defined.

(** C1 as stated fails for the formatted-message variants: a [Debugf]
    on a logger with threshold INFO is filtered, yet [fmt.Sprintf] has
    formatted its message before [log] compares the levels. *)
Lemma Debugf_formats_before_the_comparison :
  let w := example_world INFO ∅ in
  let c := CallDebugf "user %s logged in" [VString "ann"] in
  emit_level c < level (example_logger INFO)
  ∧ emit example_runtime (Some 0%nat) c w =
      (Ret tt, set_journal [EvSprintf "user %s logged in" [VString "ann"]] w).
Proof. split; [reflexivity | vm_compute; reflexivity]. Qed.

(** ** Caller resolution *)

(** C8: when [runtime.Caller] cannot resolve the call site, a leveled
    method still ends as it does otherwise (it returns, and [Fatal]
    exits after the write), without a panic, and the record it emits
    carries file [unknown], line 0 and function [unknown]. *)
Theorem caller_failure_gives_sentinels rt w a L c :
  loggers w !! a = Some L →
  rt_caller rt = None →
  let r := emit rt (Some a) c w in
  r.1 = emit_outcome c
  ∧ (∀ reason, r.1 ≠ Panic reason)
  ∧ (emit_level c < level L → records (journal r.2) = records (journal w))
  ∧ (level L ≤ emit_level c →
     ∃ e line,
       records (journal r.2) = records (journal w) ++ [e]
       ∧ writes (journal r.2) = writes (journal w) ++ [(output L, line +:+ newline)]
       ∧ File e = "unknown" ∧ Line e = 0 ∧ Function e = "unknown").
Proof.
  intros HL Hcaller r. subst r.
  destruct (emit_run rt w a L c HL) as [Hbelow Habove].
  destruct (emit_formatting_quiet c) as [Hfr Hfw].
  destruct (emit_exit_quiet c) as [Her Hew].
  assert (Hout : (emit rt (Some a) c w).1 = emit_outcome c).
  { destruct (Z.lt_ge_cases (emit_level c) (level L)) as [Hlt | Hge].
    - by rewrite (Hbelow Hlt).
    - destruct (Habove Hge) as (e & line & evs & n & -> & _). done. }
  split; [exact Hout |]. split; [| split].
  - intros reason. rewrite Hout. unfold emit_outcome.
    by destruct (emit_is_fatal c).
  - intros Hlt. rewrite (Hbelow Hlt). journal_simpl.
    by rewrite Hfr, Her, !app_nil_r.
  - intros Hge. destruct (Habove Hge) as (e & line & evs & n & -> & Hevs & _ & _ & Hsite).
    exists e, line.
    destruct (encoding_no_records evs Hevs) as (Hr & Hw & _). journal_simpl.
    rewrite Hfr, Hfw, Her, Hew, Hr, Hw. simpl.
    rewrite ?app_nil_r.
    unfold call_site in Hsite. rewrite Hcaller in Hsite.
    by inversion Hsite.
Qed.

Lemma caller_failure_gives_sentinels_witness :
  let w := example_world DEBUG ∅ in
  loggers w !! 0%nat = Some (example_logger DEBUG)
  ∧ rt_caller example_runtime_no_caller = None
  ∧ ∃ e,
      records (journal (emit example_runtime_no_caller (Some 0%nat)
                          (CallWarn "cache miss") w).2) = [e]
      ∧ File e = "unknown" ∧ Line e = 0 ∧ Function e = "unknown".
Proof.
  intros w.
  assert (HL : loggers w !! 0%nat = Some (example_logger DEBUG)) by reflexivity.
  split; [exact HL |]. split; [reflexivity |].
  destruct (caller_failure_gives_sentinels example_runtime_no_caller w 0%nat _
              (CallWarn "cache miss") HL eq_refl) as (_ & _ & _ & Habove).
  destruct Habove as (e & line & Hr & _ & Hsent); [discriminate |].
  exists e. split; [exact Hr | exact Hsent].
Defined.

(** When the call site resolves and only the function of the program
    counter is unknown, the file and the line are the resolved ones. *)
Lemma call_site_without_function rt pc fullFile line :
  rt_caller rt = Some (pc, fullFile, line) →
  rt_funcForPC rt pc = None →
  call_site rt = (rt_base rt fullFile, line, "unknown").
Proof. unfold call_site. by intros -> ->. Qed.

(** ** The default logger *)

(** C10: while the default logger is nil, each of the ten package-level
    functions returns at once: the world, its sinks and journal among
    it, is as before, there is no panic, and [Fatal] and [Fatalf] do not
    exit. *)
Theorem package_functions_without_default rt w c :
  defaultLogger w = None →
  package_call rt c w = (Ret tt, w).
Proof.
  intros Hnil.
  destruct c; simpl;
    unfold Debug, Debugf, Info, Infof, Warn, Warnf, Error, Errorf, Fatal, Fatalf;
    unfold bind, get_defaultLogger; by rewrite Hnil.
Qed.

Lemma package_functions_without_default_witness :
  defaultLogger (example_world INFO ∅) = None
  ∧ package_call example_runtime (PkgFatalf "cannot bind %s" [VString ":8080"])
      (example_world INFO ∅) = (Ret tt, example_world INFO ∅).
Proof.
  split; [reflexivity |].
  apply package_functions_without_default. reflexivity.
Defined.

(** What the guard is for: a leveled method on the nil logger panics. *)
Lemma emit_on_nil_panics rt w c :
  ∃ reason w', emit rt None c w = (Panic reason, w').
Proof. destruct c; by eexists _, _. Qed.

(** ** Derived loggers *)

Lemma copy_entries_spec src dst w m :
  maps w !! dst = Some m →
  copy_entries src dst w = (Ret tt, set_maps (<[dst := copy_into src m]> (maps w)) w).
Proof.
  revert w m. induction src as [| [k v] src IH]; intros w m Hm.
  - unfold copy_entries, copy_into, set_maps. simpl.
    by rewrite (insert_id _ _ _ Hm), world_eta.
  - unfold copy_entries in *. simpl.
    unfold bind at 1, map_assign at 1. rewrite Hm. simpl.
    rewrite (IH _ (<[k := v]> m)).
    + unfold set_maps. simpl. by rewrite insert_insert_eq.
    + unfold set_maps. simpl. apply lookup_insert_eq.
Qed.

(** The logger that [WithFields] builds, at a new address [a'], with a
    new map at [r']: the configuration of the receiver, and the union of
    its fields and the given ones, the given ones winning. *)
Lemma Logger_WithFields_spec w a L fs :
  loggers w !! a = Some L →
  let a' := fresh (dom (loggers w)) in
  let r' := fresh (dom (maps w)) in
  Logger_WithFields (Some a) fs w =
    (Ret (Some a'),
     set_maps (<[r' := fs ∪ default ∅ (maps w !! fields L)]> (maps w))
       (set_loggers
          (<[a' := mkLogger (level L) (service L) (component L) (output L) (format L) r']>
             (loggers w)) w)).
Proof.
  intros HL a' r'.
  assert (Ha' : a ≠ a').
  { intros ->. apply (is_fresh (dom (loggers w))). apply elem_of_dom. by exists L. }
  assert (Hr' : maps w !! r' = None).
  { apply not_elem_of_dom. apply is_fresh. }
  unfold Logger_WithFields.
  rewrite (bind_Ret _ _ _ _ _ (deref_Some _ _ _ HL)).
  unfold bind at 1, make_map at 1. simpl.
  unfold bind at 1, new_Logger at 1. simpl. fold a' r'.
  set (N := mkLogger (level L) (service L) (component L) (output L) (format L) r').
  set (w2 := set_loggers _ _).
  assert (HL2 : loggers w2 !! a = Some L).
  { subst w2. unfold set_loggers. simpl. by rewrite lookup_insert_ne. }
  assert (HN2 : loggers w2 !! a' = Some N).
  { subst w2. unfold set_loggers. simpl. by rewrite lookup_insert_eq. }
  assert (Hbase : default ∅ (maps w2 !! fields L) = default ∅ (maps w !! fields L)).
  { subst w2. unfold set_loggers, set_maps. simpl.
    destruct (decide (r' = fields L)) as [<- | Hne].
    - by rewrite lookup_insert_eq, Hr'.
    - by rewrite lookup_insert_ne. }
  unfold bind at 1. unfold bind at 1.
  rewrite (deref_Some _ _ _ HL2).
  unfold bind at 1, map_range at 1. simpl.
  unfold bind at 1. rewrite (deref_Some _ _ _ HN2).
  rewrite (copy_entries_spec _ r' w2 ∅)
    by (subst w2; unfold set_loggers, set_maps; simpl; apply lookup_insert_eq).
  set (w3 := set_maps _ w2).
  assert (HN3 : loggers w3 !! a' = Some N) by (subst w3; exact HN2).
  unfold bind at 1. unfold bind at 1. rewrite (deref_Some _ _ _ HN3).
  rewrite (copy_entries_spec _ r' w3 (copy_into (map_to_list (default ∅ (maps w2 !! fields L))) ∅))
    by (subst w3; unfold set_maps; simpl; apply lookup_insert_eq).
  unfold ret. f_equal.
  rewrite !copy_into_union, Hbase, (right_id_L ∅ (∪)).
  subst w3 w2. unfold set_maps, set_loggers. simpl.
  by rewrite !insert_insert_eq.
Qed.

(** C2: [derived = base.WithFields(m)] leaves the receiver as it was,
    its field map and the rest of its configuration, and every other
    logger and map of the store with it; the derived logger has the
    configuration of the receiver and a map of its own, which holds the
    union of the receiver's fields and [m], the entries of [m] winning.
    Nothing is written. *)
Theorem WithFields_leaves_receiver w a L base_fields m :
  loggers w !! a = Some L →
  maps w !! fields L = Some base_fields →
  ∃ a' D,
    (Logger_WithFields (Some a) m w).1 = Ret (Some a')
    ∧ let w' := (Logger_WithFields (Some a) m w).2 in
      (* the receiver *)
      loggers w' !! a = Some L
      ∧ maps w' !! fields L = Some base_fields
      (* the rest of the store *)
      ∧ (∀ b, b ∈ dom (loggers w) → loggers w' !! b = loggers w !! b)
      ∧ (∀ r, r ∈ dom (maps w) → maps w' !! r = maps w !! r)
      ∧ sinks w' = sinks w
      ∧ journal w' = journal w
      ∧ defaultLogger w' = defaultLogger w
      (* the derived logger *)
      ∧ (a' ∉ dom (loggers w))
      ∧ loggers w' !! a' = Some D
      ∧ (fields D ∉ dom (maps w))
      ∧ level D = level L
      ∧ service D = service L
      ∧ component D = component L
      ∧ output D = output L
      ∧ format D = format L
      ∧ maps w' !! fields D = Some (m ∪ base_fields)
      ∧ (∀ k, (m ∪ base_fields) !! k =
              match m !! k with Some v => Some v | None => base_fields !! k end).
Proof.
  intros HL Hm.
  exists (fresh (dom (loggers w))),
         (mkLogger (level L) (service L) (component L) (output L) (format L)
                   (fresh (dom (maps w)))).
  rewrite (Logger_WithFields_spec w a L m HL). rewrite Hm. simpl.
  pose proof (is_fresh (dom (loggers w))) as Hfa.
  pose proof (is_fresh (dom (maps w))) as Hfr.
  assert (Hane : ∀ b, b ∈ dom (loggers w) → fresh (dom (loggers w)) ≠ b)
    by (intros b Hb Heq; subst b; exact (Hfa Hb)).
  assert (Hrne : ∀ r, r ∈ dom (maps w) → fresh (dom (maps w)) ≠ r)
    by (intros r Hr Heq; subst r; exact (Hfr Hr)).
  split; [done |]. repeat split; try done.
  - rewrite lookup_insert_ne; [done |]. apply Hane, elem_of_dom. by exists L.
  - rewrite lookup_insert_ne; [done |]. apply Hrne, elem_of_dom. by exists base_fields.
  - intros b Hb. rewrite lookup_insert_ne; [done |]. by apply Hane.
  - intros r Hr. rewrite lookup_insert_ne; [done |]. by apply Hrne.
  - apply lookup_insert_eq.
  - apply lookup_insert_eq.
  - intros k. rewrite lookup_union. by destruct (m !! k), (base_fields !! k).
Qed.

Lemma WithFields_leaves_receiver_witness :
  let base := {[ "service_version" := VString "1.2"; "region" := VString "eu" ]} : Fields in
  let m := {[ "region" := VString "us"; "request_id" := VString "r-17" ]} : Fields in
  let w := example_world INFO base in
  loggers w !! 0%nat = Some (example_logger INFO)
  ∧ maps w !! fields (example_logger INFO) = Some base
  ∧ ∃ a' D,
      (Logger_WithFields (Some 0%nat) m w).1 = Ret (Some a')
      ∧ maps (Logger_WithFields (Some 0%nat) m w).2 !! 0%nat = Some base
      ∧ loggers (Logger_WithFields (Some 0%nat) m w).2 !! a' = Some D
      ∧ maps (Logger_WithFields (Some 0%nat) m w).2 !! fields D = Some (m ∪ base)
      ∧ (m ∪ base) !! "region" = Some (VString "us").
Proof.
  intros base m w.
  assert (HL : loggers w !! 0%nat = Some (example_logger INFO)) by reflexivity.
  assert (Hm : maps w !! fields (example_logger INFO) = Some base) by reflexivity.
  split; [exact HL |]. split; [exact Hm |].
  destruct (WithFields_leaves_receiver w 0%nat _ base m HL Hm)
    as (a' & D & Hret & _ & Hbase & _ & _ & _ & _ & _ & _ & HD & _ & _ & _ & _ & _ & _
        & Hunion & Hover).
  exists a', D. repeat split; try done.
Defined.

(** ** Construction *)

(** [New] returns a logger at a new address, configured as asked, with a
    map of its own that holds the fields of the configuration. *)
Lemma New_spec rt config w :
  ∃ w' L,
    New rt config w = (Ret (Some (fresh (dom (loggers w)))), w')
    ∧ loggers w' !! fresh (dom (loggers w)) = Some L
    ∧ level L = parseLogLevel (cfg_Level config)
    ∧ format L = parseLogFormat (cfg_Format config)
    ∧ service L = cfg_Service config
    ∧ component L = cfg_Component config
    ∧ maps w' !! fields L = Some (default ∅ (cfg_Fields config))
    ∧ defaultLogger w' = defaultLogger w
    ∧ sinks w' = sinks w.
Proof.
  unfold New.
  unfold bind at 1, make_map at 1. unfold bind at 1, new_Logger at 1.
  cbn [loggers set_maps].
  set (a := fresh (dom (loggers w))).
  set (r := fresh (dom (maps w))).
  set (L0 := mkLogger _ _ _ _ _ r).
  set (w2 := set_loggers _ _).
  assert (Ha : loggers w2 !! a = Some L0) by apply lookup_insert_eq.
  assert (Hr : maps w2 !! r = Some ∅) by apply lookup_insert_eq.
  assert (Hout : ∃ w3 L3,
             (if negb (String.eqb (cfg_Output config) "")
                 && negb (String.eqb (cfg_Output config) "stdout")
              then match rt_openFile rt (cfg_Output config) with
                   | Some file =>
                       let* L := deref (Some a) in
                       store_Logger a
                         (mkLogger (level L) (service L) (component L) file (format L)
                                   (fields L))
                   | None => ret tt
                   end
              else ret tt) w2 = (Ret tt, w3)
             ∧ loggers w3 !! a = Some L3
             ∧ level L3 = level L0 ∧ format L3 = format L0
             ∧ service L3 = service L0 ∧ component L3 = component L0
             ∧ fields L3 = r
             ∧ maps w3 = maps w2 ∧ defaultLogger w3 = defaultLogger w
             ∧ sinks w3 = sinks w).
  { destruct (negb _ && negb _); [destruct (rt_openFile rt _) as [file |] |].
    - rewrite (bind_Ret _ _ _ _ _ (deref_Some _ _ _ Ha)).
      eexists _, _. split; [reflexivity |].
      split; [apply lookup_insert_eq |]. done.
    - by exists w2, L0.
    - by exists w2, L0. }
  destruct Hout as (w3 & L3 & Hrun3 & Ha3 & Hlevel & Hformat & Hservice & Hcomponent
                    & Hfields & Hmaps3 & Hdef3 & Hsinks3).
  rewrite (bind_Ret _ _ _ _ _ Hrun3).
  destruct (cfg_Fields config) as [fs |]; simpl.
  - rewrite bind_assoc, (bind_Ret _ _ _ _ _ (deref_Some _ _ _ Ha3)).
    rewrite Hfields.
    rewrite (bind_Ret _ _ _ _ _ (copy_entries_spec _ r w3 ∅ ltac:(by rewrite Hmaps3))).
    eexists _, L3. split; [reflexivity |].
    split; [exact Ha3 |]. repeat split; try done.
    rewrite Hfields. unfold set_maps. simpl.
    by rewrite lookup_insert_eq, copy_into_union, (right_id_L ∅ (∪)).
  - exists w3, L3. split; [reflexivity |].
    split; [exact Ha3 |]. repeat split; try done.
    by rewrite Hfields, Hmaps3.
Qed.

(** [InitDefault] is what makes the default logger non-nil. *)
Lemma InitDefault_sets_default rt service_name component_name w :
  (InitDefault rt service_name component_name w).1 = Ret tt
  ∧ defaultLogger (InitDefault rt service_name component_name w).2
    = Some (fresh (dom (loggers w))).
Proof.
  unfold InitDefault, NewFromEnv.
  match goal with
  | |- context [New rt ?config] =>
      destruct (New_spec rt config w) as (w' & L & Hrun & _)
  end.
  by rewrite (bind_Ret _ _ _ _ _ Hrun).
Qed.

(** ** Runs of the middleware *)

Lemma evolves_refl w : evolves w w [] [].
Proof. split; [done | done | |]; by rewrite app_nil_r. Qed.

Lemma evolves_trans w1 w2 w3 recs1 recs2 srv1 srv2 :
  evolves w1 w2 recs1 srv1 → evolves w2 w3 recs2 srv2 →
  evolves w1 w3 (recs1 ++ recs2) (srv1 ++ srv2).
Proof.
  intros [Hl1 Hm1 Hr1 Hs1] [Hl2 Hm2 Hr2 Hs2]. split.
  - intros b L Hb. by apply Hl2, Hl1.
  - by rewrite Hm2.
  - by rewrite Hr2, Hr1, app_assoc.
  - by rewrite Hs2, Hs1, app_assoc.
Qed.

Lemma time_Now_evolves rt w : evolves w (time_Now rt w).2 [] [].
Proof. split; try done; simpl; journal_simpl; by rewrite app_nil_r. Qed.

Lemma uuid_New_evolves rt w : evolves w (uuid_New rt w).2 [] [].
Proof. split; try done; simpl; journal_simpl; by rewrite app_nil_r. Qed.

Lemma after_write_evolves w wr line n e pre evs :
  records pre = [] → served pre = [] →
  Forall (λ ev, is_encoding ev = true) evs →
  evolves w (after_write w wr line n (pre ++ [EvEntry e] ++ evs ++ [EvWrite wr line])) [e] [].
Proof.
  intros Hpr Hps Hevs. destruct (encoding_no_records evs Hevs) as (Hr & _ & Hs).
  split; try done; journal_simpl; rewrite ?Hpr, ?Hps, ?Hr, ?Hs; simpl;
    by rewrite ?app_nil_r.
Qed.

(** [l.WithFields(fs).XContext(ctx, message)] for a method at [lvl]. *)
Lemma log_block rt w a L fs id ctx lvl message :
  loggers w !! a = Some L →
  fs !! "request_id" = Some (VString id) →
  ∃ w' recs,
    bind (Logger_WithFields (Some a) fs)
         (λ lg, Logger_logWithContext rt lg ctx lvl message None) w = (Ret tt, w')
    ∧ evolves w w' recs []
    ∧ logs rt L id ctx lvl message recs.
Proof.
  intros HL Hid.
  pose proof (Logger_WithFields_spec w a L fs HL) as Hwith. simpl in Hwith.
  rewrite (bind_Ret _ _ _ _ _ Hwith).
  set (a' := fresh (dom (loggers w))) in *.
  set (r' := fresh (dom (maps w))) in *.
  set (D := mkLogger (level L) (service L) (component L) (output L) (format L) r').
  set (w1 := set_maps _ _).
  assert (Ha' : ∀ b Lb, loggers w !! b = Some Lb → loggers w1 !! b = Some Lb).
  { intros b Lb Hb. subst w1. unfold set_maps, set_loggers. simpl.
    rewrite lookup_insert_ne; [done |]. intros <-.
    apply (is_fresh (dom (loggers w))). apply elem_of_dom. by exists Lb. }
  assert (HD : loggers w1 !! a' = Some D).
  { subst w1. unfold set_maps, set_loggers. simpl. apply lookup_insert_eq. }
  assert (Hev1 : evolves w w1 [] []).
  { split; [exact Ha' | done | |]; subst w1; journal_simpl; by rewrite app_nil_r. }
  unfold logs. destruct (Z.ltb_spec lvl (level L)) as [Hlt | Hge].
  - exists w1, []. split; [| done].
    by apply (Logger_logWithContext_filtered rt w1 a' D).
  - destruct (Logger_logWithContext_emits rt w1 a' D ctx lvl message None HD Hge)
      as (e & line & evs & n & Hrun & Hevs & Hrec).
    eexists _, [e]. split; [exact Hrun |]. split.
    + apply (evolves_trans w w1 _ [] [e] [] []); [exact Hev1 |].
      apply (after_write_evolves w1 (output D) (line +:+ newline) n e
               [EvCaller; EvNow (rt_clock rt (ticks w1))] evs); done.
    + exists e, (default ∅ None ∪ default ∅ (maps w1 !! fields D)).
      split; [done |]. split; [| exact Hrec].
      simpl. rewrite (left_id_L ∅ (∪)).
      subst w1. unfold set_maps, set_loggers. simpl.
      rewrite lookup_insert_eq. simpl. rewrite lookup_union, Hid.
      by destruct (default ∅ (maps w !! fields L) !! "request_id").
Qed.

Lemma bind_time_Now {B} rt (k : Time → M B) w :
  bind (time_Now rt) k w = k (rt_clock rt (ticks w)) (time_Now rt w).2.
Proof. reflexivity. Qed.

Lemma bind_time_Since {B} rt t (k : Duration → M B) w :
  bind (time_Since rt t) k w = k (time_Sub (rt_clock rt (ticks w)) t) (time_Now rt w).2.
Proof. reflexivity. Qed.

Lemma ServeHTTP_run {T} `{ResponseWriter T} (h : Handler) (w0 : T) r w :
  ServeHTTP h w0 r w =
    (match h_panic h with
     | Some v => Panic v
     | None => Ret (apply_ops (h_ops h) w0).1
     end,
     set_journal (journal w ++ [EvServeHTTP (req_ctx r) (rw_Header w0)]) w).
Proof. unfold ServeHTTP, bind, note. simpl. by destruct (h_panic h). Qed.

Lemma bind_ServeHTTP {T B} `{ResponseWriter T} (h : Handler) (w0 : T) r (k : T → M B) w :
  bind (ServeHTTP h w0 r) k w =
    match h_panic h with
    | Some v =>
        (Panic v, set_journal (journal w ++ [EvServeHTTP (req_ctx r) (rw_Header w0)]) w)
    | None => k (apply_ops (h_ops h) w0).1
                (set_journal (journal w ++ [EvServeHTTP (req_ctx r) (rw_Header w0)]) w)
    end.
Proof. unfold bind. rewrite ServeHTTP_run. by destruct (h_panic h). Qed.

Lemma evolves_eq w w' recs recs' srv srv' :
  evolves w w' recs srv → recs = recs' → srv = srv' → evolves w w' recs' srv'.
Proof. by intros ? <- <-. Qed.

Lemma ServeHTTP_evolves w ctx hdr :
  evolves w (set_journal (journal w ++ [EvServeHTTP ctx hdr]) w) [] [(ctx, hdr)].
Proof. split; try done; journal_simpl; by rewrite ?app_nil_r. Qed.

(** One [lm.logger.WithFields(...).XContext(...)] of a handler. *)
Ltac log_step HLw id :=
  match goal with
  | |- context [bind (bind (Logger_WithFields (Some ?a) ?fs)
                           (λ lg, Logger_logWithContext ?rt lg ?c ?lvl ?msg None)) _ ?w] =>
      let w' := fresh "w" in
      let recs := fresh "recs" in
      let Hrun := fresh "Hrun" in
      let E := fresh "E" in
      let Hlog := fresh "Hlog" in
      let Hfs := fresh "Hfs" in
      assert (Hfs : fs !! "request_id" = Some (VString id)) by (vm_compute; reflexivity);
      destruct (log_block rt w a _ fs id c lvl msg HLw Hfs)
        as (w' & recs & Hrun & E & Hlog);
      rewrite (bind_Ret _ _ _ _ _ Hrun); clear Hrun Hfs
  end.

Lemma optional_log_block {B} rt w a L (c : bool) fs id ctx lvl message (K : unit → M B) :
  loggers w !! a = Some L →
  fs !! "request_id" = Some (VString id) →
  ∃ w' recs,
    bind (if c
          then bind (Logger_WithFields (Some a) fs)
                    (λ lg, Logger_logWithContext rt lg ctx lvl message None)
          else ret tt) K w = K tt w'
    ∧ evolves w w' recs []
    ∧ (if c then logs rt L id ctx lvl message recs else recs = []).
Proof.
  intros HL Hfs. destruct c.
  - destruct (log_block rt w a L fs id ctx lvl message HL Hfs) as (w' & recs & Hrun & E & Hlog).
    exists w', recs. by rewrite (bind_Ret _ _ _ _ _ Hrun).
  - exists w, []. split; [reflexivity |]. split; [apply evolves_refl | done].
Qed.

Ltac opt_log_step HLw id :=
  match goal with
  | |- context [bind (if ?c
                      then bind (Logger_WithFields (Some ?a) ?fs)
                                (λ lg, Logger_logWithContext ?rt lg ?cx ?lvl ?msg None)
                      else ret tt) ?K ?w] =>
      let w' := fresh "w" in
      let recs := fresh "recs" in
      let Hrun := fresh "Hrun" in
      let E := fresh "E" in
      let Hlog := fresh "Hlog" in
      let Hfs := fresh "Hfs" in
      assert (Hfs : fs !! "request_id" = Some (VString id)) by (vm_compute; reflexivity);
      destruct (optional_log_block rt w a _ c fs id cx lvl msg K HLw Hfs)
        as (w' & recs & Hrun & E & Hlog);
      rewrite Hrun; clear Hrun Hfs
  end.

(** The run of the logging handler: the identifier it settles on, the
    context it hands to the inner handler, and the records it logs. *)
Lemma LoggingMiddleware_Handler_run {T} `{ResponseWriter T} rt lm next (w0 : T) r w a L :
  lm_logger lm = Some a →
  loggers w !! a = Some L →
  let inbound := Header_Get (ReqHeader r) "X-Request-ID" in
  let id := if String.eqb inbound "" then uuid.UUID_String (rt_uuid rt (uuids w))
            else inbound in
  let ctx := WithRequestID (req_ctx r) id in
  let hdr := rw_Header (rw_Header_update (Header_Set "X-Request-ID" id) w0) in
  let wrapped :=
    (apply_ops (h_ops next)
       (newResponseWriter (rw_Header_update (Header_Set "X-Request-ID" id) w0))).1 in
  ∃ w' started,
    logs rt L id ctx INFO "HTTP request started" started
    ∧ match h_panic next with
      | Some v =>
          LoggingMiddleware_Handler rt lm next w0 r w = (Panic v, w')
          ∧ evolves w w' started [(ctx, hdr)]
      | None =>
          ∃ completed slow failed,
            LoggingMiddleware_Handler rt lm next w0 r w = (Ret (inner wrapped), w')
            ∧ evolves w w' (started ++ completed ++ slow ++ failed) [(ctx, hdr)]
            ∧ logs rt L id ctx INFO "HTTP request completed" completed
            ∧ (slow = [] ∨ logs rt L id ctx WARN "Slow HTTP request detected" slow)
            ∧ (if statusCode wrapped >=? 500
               then logs rt L id ctx ERROR "HTTP request failed with server error" failed
               else if statusCode wrapped >=? 400
               then logs rt L id ctx WARN "HTTP request failed with client error" failed
               else failed = [])
      end.
Proof.
  intros Hlm HL inbound id ctx hdr wrapped.
  unfold LoggingMiddleware_Handler. rewrite Hlm.
  unfold Logger_InfoContext, Logger_WarnContext, Logger_ErrorContext.
  rewrite bind_time_Now.
  pose proof (time_Now_evolves rt w) as E1.
  set (w1 := (time_Now rt w).2) in *.
  fold inbound.
  match goal with
  | |- context [bind (if _ then _ else _) ?K w1] => set (K0 := K)
  end.
  assert (Hstep : ∃ w2,
             bind (if String.eqb inbound "" then uuid_New rt else ret inbound) K0 w1
             = K0 id w2 ∧ evolves w w2 [] []).
  { subst id. destruct (String.eqb inbound "").
    - exists (uuid_New rt w1).2. split; [reflexivity |].
      apply (evolves_trans _ _ _ [] [] [] [] E1), uuid_New_evolves.
    - exists w1. split; [reflexivity | exact E1]. }
  destruct Hstep as (w2 & Hrun2 & E2).
  rewrite Hrun2. subst K0. cbv beta. clear Hrun2.
  assert (HL2 : loggers w2 !! a = Some L) by (by apply (ev_loggers _ _ _ _ E2)).
  log_step HL2 id.
  rename w3 into w3, recs into started, E into E3, Hlog into Hstarted.
  pose proof (evolves_trans _ _ _ _ _ _ _ E2 E3) as E03. simpl in E03.
  pose proof (ServeHTTP_evolves w3 ctx hdr) as E4.
  pose proof (evolves_trans _ _ _ _ _ _ _ E03 E4) as E04. simpl in E04.
  rewrite bind_ServeHTTP.
  change (req_ctx (Request_WithContext r (WithRequestID (req_ctx r) id))) with ctx.
  change (rw_Header (newResponseWriter
                       (rw_Header_update (Header_Set "X-Request-ID" id) w0))) with hdr.
  set (w4 := set_journal (journal w3 ++ [EvServeHTTP ctx hdr]) w3) in *.
  subst wrapped.
  set (wrapped := (apply_ops (h_ops next) _).1).
  destruct (h_panic next) as [v |].
  { exists w4, started. split; [exact Hstarted |]. split; [reflexivity |].
    apply (evolves_eq _ _ _ _ _ _ E04); [apply app_nil_r | done]. }
  rewrite bind_time_Since.
  set (duration := time_Sub _ _).
  pose proof (evolves_trans _ _ _ _ _ _ _ E04 (time_Now_evolves rt w4)) as E05.
  set (w5 := (time_Now rt w4).2) in *.
  assert (HL5 : loggers w5 !! a = Some L) by (by apply (ev_loggers _ _ _ _ E05)).
  log_step HL5 id.
  rename w6 into w6, recs into completed, E into E6, Hlog into Hcompleted.
  pose proof (evolves_trans _ _ _ _ _ _ _ E05 E6) as E06.
  assert (HL6 : loggers w6 !! a = Some L) by (by apply (ev_loggers _ _ _ _ E06)).
  opt_log_step HL6 id.
  rename w7 into w7, recs into slow, E into E7, Hlog into Hslow.
  pose proof (evolves_trans _ _ _ _ _ _ _ E06 E7) as E07.
  assert (HL7 : loggers w7 !! a = Some L) by (by apply (ev_loggers _ _ _ _ E07)).
  cbv beta.
  assert (Hslow' : slow = [] ∨ logs rt L id ctx WARN "Slow HTTP request detected" slow).
  { destruct (duration >? 5 * Second); [by right | by left]. }
  destruct (statusCode wrapped >=? 500) eqn:H500.
  - change (String.eqb "error" "error") with true. cbv iota.
    opt_log_step HL7 id.
    assert (H400 : (statusCode wrapped >=? 400) = true).
    { rewrite Z.geb_leb in *. apply Z.leb_le. apply Z.leb_le in H500. lia. }
    rewrite H400 in Hlog.
    pose proof (evolves_trans _ _ _ _ _ _ _ E07 E) as E08.
    exists w8, started. split; [exact Hstarted |].
    exists completed, slow, recs.
    split; [reflexivity |].
    split; [apply (evolves_eq _ _ _ _ _ _ E08);
            [by rewrite ?app_nil_r, <- ?app_assoc | done] |].
    split; [exact Hcompleted |]. split; [exact Hslow' | exact Hlog].
  - change (String.eqb "warn" "error") with false. cbv iota.
    opt_log_step HL7 id.
    pose proof (evolves_trans _ _ _ _ _ _ _ E07 E) as E08.
    exists w8, started. split; [exact Hstarted |].
    exists completed, slow, recs.
    split; [reflexivity |].
    split; [apply (evolves_eq _ _ _ _ _ _ E08);
            [by rewrite ?app_nil_r, <- ?app_assoc | done] |].
    split; [exact Hcompleted |]. split; [exact Hslow' | exact Hlog].
Qed.

(** *** Reading [logs] *)

Lemma logs_absent rt L id ctx lvl message recs :
  logs rt L id ctx lvl message recs → lvl < level L → recs = [].
Proof.
  unfold logs. intros Hlogs Hlt.
  by destruct (Z.ltb_spec lvl (level L)); [| lia].
Qed.

Lemma logs_present rt L id ctx lvl message recs :
  logs rt L id ctx lvl message recs → level L ≤ lvl →
  ∃ e, recs = [e] ∧ Level e = LogLevel_String lvl ∧ Message e = message.
Proof.
  unfold logs. intros Hlogs Hge.
  destruct (Z.ltb_spec lvl (level L)); [lia |].
  destruct Hlogs as (e & fs & -> & _ & Hl & Hm & _). by exists e.
Qed.

Lemma logs_message rt L id ctx lvl message recs :
  logs rt L id ctx lvl message recs →
  Forall (λ e, Level e = LogLevel_String lvl ∧ Message e = message) recs.
Proof.
  unfold logs. intros Hlogs.
  destruct (lvl <? level L); [by subst |].
  destruct Hlogs as (e & fs & -> & _ & Hl & Hm & _). by repeat constructor.
Qed.


Lemma wrapper_final {T} `{ResponseWriter T} (ops : list WriterOp) (w : T) :
  statusCode (apply_ops ops (newResponseWriter w)).1 = last_status ops
  ∧ inner (apply_ops ops (newResponseWriter w)).1 = (apply_ops ops w).1.
Proof.
  pose proof (apply_ops_wrapper ops (newResponseWriter w)) as Hw.
  destruct (apply_ops ops (newResponseWriter w)) as [rw replies]. simpl in *.
  destruct (apply_ops ops w) as [w' replies'].
  by destruct Hw as (_ & -> & -> & _).
Qed.

(** ** The logging stage: completion and error records *)

(** C7, as the code has it: when the inner handler returns with final
    status [S], the stage logs, after the record of the start and in
    this order, the completion record at INFO, the slow-request record
    if the request was slow, and, by [S], one record at ERROR for a
    server error, one at WARN for a client error, or none; each of them
    reaches the sink only if the threshold of the logger is at most its
    level, and the error records come in addition to the completion
    record. *)
Theorem Handler_completion_and_error_records {T} `{ResponseWriter T}
    rt lm next (w0 : T) r w a L :
  lm_logger lm = Some a →
  loggers w !! a = Some L →
  h_panic next = None →
  let S := last_status (h_ops next) in
  let run := LoggingMiddleware_Handler rt lm next w0 r w in
  (∃ w1, run.1 = Ret w1)
  ∧ ∃ started completed slow failed,
      records (journal run.2) =
        records (journal w) ++ started ++ completed ++ slow ++ failed
      ∧ Forall (λ e, Message e = "HTTP request started") started
      ∧ Forall (λ e, Message e = "Slow HTTP request detected") slow
      ∧ (level L ≤ INFO →
         ∃ e, completed = [e] ∧ Level e = "INFO" ∧ Message e = "HTTP request completed")
      ∧ (INFO < level L → completed = [])
      ∧ (S < 400 → failed = [])
      ∧ (400 ≤ S < 500 →
         (level L ≤ WARN →
          ∃ e, failed = [e] ∧ Level e = "WARN"
               ∧ Message e = "HTTP request failed with client error")
         ∧ (WARN < level L → failed = []))
      ∧ (500 ≤ S →
         (level L ≤ ERROR →
          ∃ e, failed = [e] ∧ Level e = "ERROR"
               ∧ Message e = "HTTP request failed with server error")
         ∧ (ERROR < level L → failed = [])).
Proof.
  intros Hlm HL Hp S run. subst run.
  destruct (LoggingMiddleware_Handler_run rt lm next w0 r w a L Hlm HL)
    as (w' & started & Hstarted & Hrun).
  rewrite Hp in Hrun.
  destruct Hrun as (completed & slow & failed & -> & E & Hcompleted & Hslow & Hfailed).
  split; [by eexists |].
  exists started, completed, slow, failed. simpl.
  rewrite (proj1 (wrapper_final _ _)) in Hfailed. fold S in Hfailed.
  split; [apply (ev_records _ _ _ _ E) |].
  split; [by eapply Forall_impl; [apply (logs_message _ _ _ _ _ _ _ Hstarted) | intros ? []] |].
  split.
  { destruct Hslow as [-> | Hslow]; [constructor |].
    by eapply Forall_impl; [apply (logs_message _ _ _ _ _ _ _ Hslow) | intros ? []]. }
  split; [intros Hle; by apply (logs_present _ _ _ _ _ _ _ Hcompleted) |].
  split; [intros Hgt; by apply (logs_absent _ _ _ _ _ _ _ Hcompleted) |].
  destruct (S >=? 500) eqn:H500; [| destruct (S >=? 400) eqn:H400];
    rewrite Z.geb_leb in *; rewrite ?Z.leb_le, ?Z.leb_gt in *.
  - split; [lia |]. split; [lia |]. intros _. split.
    + intros Hle. by apply (logs_present _ _ _ _ _ _ _ Hfailed).
    + intros Hgt. by apply (logs_absent _ _ _ _ _ _ _ Hfailed).
  - split; [lia |]. split; [| lia]. intros _. split.
    + intros Hle. by apply (logs_present _ _ _ _ _ _ _ Hfailed).
    + intros Hgt. by apply (logs_absent _ _ _ _ _ _ _ Hfailed).
  - split; [done |]. split; lia.
Qed.

Lemma Handler_completion_and_error_records_witness :
  let w := example_world DEBUG ∅ in
  let next := mkHandler [OpWriteHeader 404; OpWrite "no such log"] None in
  let run := LoggingMiddleware_Handler example_runtime example_middleware next
               example_response (example_request ∅) w in
  lm_logger example_middleware = Some 0%nat
  ∧ loggers w !! 0%nat = Some (example_logger DEBUG)
  ∧ h_panic next = None
  ∧ ∃ started completed slow failed,
      records (journal run.2) = records (journal w) ++ started ++ completed ++ slow ++ failed
      ∧ (∃ e, completed = [e] ∧ Level e = "INFO" ∧ Message e = "HTTP request completed")
      ∧ (∃ e, failed = [e] ∧ Level e = "WARN"
              ∧ Message e = "HTTP request failed with client error").
Proof.
  intros w next run.
  assert (HL : loggers w !! 0%nat = Some (example_logger DEBUG)) by reflexivity.
  assert (Hlm : lm_logger example_middleware = Some 0%nat) by reflexivity.
  assert (Hp : h_panic next = None) by reflexivity.
  split; [exact Hlm |]. split; [exact HL |]. split; [exact Hp |].
  pose proof (@Handler_completion_and_error_records Response _ example_runtime
                example_middleware next example_response (example_request ∅) w 0%nat
                (example_logger DEBUG) Hlm HL Hp) as Hrun.
  cbv zeta in Hrun.
  destruct Hrun
    as (_ & started & completed & slow & failed & Hrecs & _ & _ & Hc & _ & _ & H4 & _).
  exists started, completed, slow, failed.
  split; [exact Hrecs |]. split.
  - apply Hc. vm_compute. intros Hcmp. discriminate Hcmp.
  - apply H4; [split; [vm_compute; intros Hcmp; discriminate Hcmp | reflexivity] |].
    vm_compute. intros Hcmp. discriminate Hcmp.
Defined.

(** C7 as stated fails when the threshold of the logger is above INFO:
    with threshold ERROR, a request that ends with status 404 completes
    the stage and neither the completion record nor the client-error
    record is emitted. *)
Lemma Handler_completion_record_filtered :
  let w := example_world ERROR ∅ in
  let next := mkHandler [OpWriteHeader 404] None in
  let run := LoggingMiddleware_Handler example_runtime example_middleware next
               example_response (example_request ∅) w in
  (∃ resp, run.1 = Ret resp ∧ resp_calls resp = [SinkWriteHeader 404])
  ∧ records (journal run.2) = []
  ∧ sinks run.2 = ∅.
Proof.
  split; [| split]; [eexists; split |..]; vm_compute; reflexivity.
Qed.

(** ** The logging stage: the request identifier *)


Lemma canonical_key_examples :
  textproto.CanonicalMIMEHeaderKey "x-request-id" = "X-Request-Id"
  ∧ textproto.CanonicalMIMEHeaderKey "X-Request-Id" = "X-Request-Id"
  ∧ textproto.CanonicalMIMEHeaderKey "X-XSS-Protection" = "X-Xss-Protection"
  ∧ textproto.CanonicalMIMEHeaderKey "content-type" = "Content-Type"
  ∧ textproto.CanonicalMIMEHeaderKey "user agent" = "user agent".
Proof. repeat split. Qed.







(** An inner handler that sets the header itself, under another
    spelling of its name, replaces the identifier in the response: the
    two spellings are one header. *)
Lemma inner_handler_can_replace_the_header :
  let w := example_world INFO ∅ in
  let next := mkHandler [OpHeader (Header_Set "x-request-id" "other")] None in
  let r := example_request {[ "X-Request-Id" := ["existing-id"] ]} in
  let run := LoggingMiddleware_Handler example_runtime example_middleware next
               example_response r w in
  ¬ keeps_header "X-Request-ID" (h_ops next)
  ∧ ∃ resp, run.1 = Ret resp
            ∧ Header_Get (resp_header resp) "X-Request-ID" = "other"
            ∧ resp_header resp = {[ "X-Request-Id" := ["other"] ]}.
Proof.
  intros w next r run. split.
  - intros Hkeep. apply Forall_cons in Hkeep as [Hchange _].
    specialize (Hchange ∅). discriminate Hchange.
  - eexists. split; [vm_compute; reflexivity |]. split; [reflexivity |].
    vm_compute. reflexivity.
Qed.

(** ** The rate limiter *)

Lemma bind_set_limiter {B} cl st (k : unit → M B) w :
  bind (set_limiter cl st) k w = k tt (set_limiters (<[cl := st]> (limiters w)) w).
Proof. reflexivity. Qed.

Lemma bind_get_limiter {B} cl st (k : RateLimiter → M B) w :
  limiters w !! cl = Some st → bind (get_limiter cl) k w = k st w.
Proof. unfold bind, get_limiter. by intros ->. Qed.

(** The counting part of the handler: the window is renewed if it has
    expired, the counter of the client is incremented, and the rest of
    the handler runs in a world where only the limiter, the clock and
    the journal (by readings of the clock) have changed. *)
Lemma RateLimit_counting {T} `{ResponseWriter T} rt lm next cl (w0 : T) r w st :
  limiters w !! cl = Some st →
  let expired := time_Sub (rt_clock rt (ticks w)) (lastReset st) >? Minute in
  let st1 := if expired then mkRateLimiter ∅ (rt_clock rt (S (ticks w))) else st in
  let count := wrap64 (default 0 (requestCounts st1 !! RemoteAddr r) + 1) in
  let st2 := mkRateLimiter (<[RemoteAddr r := count]> (requestCounts st1)) (lastReset st1) in
  ∃ w3,
    limiters w3 = <[cl := st2]> (limiters w)
    ∧ loggers w3 = loggers w
    ∧ records (journal w3) = records (journal w)
    ∧ served (journal w3) = served (journal w)
    ∧ RateLimit_ServeHTTP rt lm next cl w0 r w =
        (if count >? 100 then
           (let* lg := Logger_WithFields (lm_logger lm) (map_lit
              [("http_method", VString (Method r));
               ("http_path", VString (URL_Path r));
               ("http_remote_addr", VString (RemoteAddr r));
               ("request_count", VInt count);
               ("request_id", VString (GetRequestID (req_ctx r)))]) in
            Logger_WarnContext rt lg (req_ctx r) "Rate limit exceeded") ;;
           ret (http_Error w0 "Rate limit exceeded" StatusTooManyRequests)
         else
           (if count >? 50 then
              let* lg := Logger_WithFields (lm_logger lm) (map_lit
                [("http_remote_addr", VString (RemoteAddr r));
                 ("request_count", VInt count);
                 ("request_id", VString (GetRequestID (req_ctx r)))]) in
              Logger_InfoContext rt lg (req_ctx r) "High request rate detected"
            else ret tt) ;;
           ServeHTTP next w0 r) w3.
Proof.
  intros Hst expired st1 count st2.
  unfold RateLimit_ServeHTTP.
  unfold bind at 1, get_limiter at 1. rewrite Hst.
  rewrite bind_time_Since. fold expired.
  set (w1 := (time_Now rt w).2).
  assert (Hw1 : limiters w1 = limiters w) by reflexivity.
  destruct expired eqn:Hexp.
  - rewrite bind_assoc, bind_set_limiter, bind_assoc, bind_time_Now, bind_set_limiter.
    rewrite (bind_get_limiter cl st1) by (unfold set_limiters; simpl; apply lookup_insert_eq).
    rewrite bind_set_limiter.
    rewrite (bind_get_limiter cl st2) by (unfold set_limiters; simpl; apply lookup_insert_eq).
    cbn [requestCounts st2]. rewrite lookup_insert_eq. cbn [default from_option id].
    eexists. split; [| split; [| split; [| split; [| reflexivity]]]].
    + unfold time_Now, set_limiters, set_journal, set_ticks. simpl.
      by rewrite !insert_insert_eq.
    + reflexivity.
    + subst w1. unfold time_Now. journal_simpl. by rewrite ?app_nil_r.
    + subst w1. unfold time_Now. journal_simpl. by rewrite ?app_nil_r.
  - rewrite bind_ret.
    rewrite (bind_get_limiter cl st1) by exact Hst.
    rewrite bind_set_limiter.
    rewrite (bind_get_limiter cl st2) by (unfold set_limiters; simpl; apply lookup_insert_eq).
    cbn [requestCounts st2]. rewrite lookup_insert_eq. cbn [default from_option id].
    eexists. split; [| split; [| split; [| split; [| reflexivity]]]].
    + reflexivity.
    + reflexivity.
    + subst w1. unfold time_Now. journal_simpl. by rewrite ?app_nil_r.
    + subst w1. unfold time_Now. journal_simpl. by rewrite ?app_nil_r.
Qed.

(** Logging leaves the rate limiters alone, whatever the logger. *)
Lemma bind_limiters {A B} (m : M A) (k : A → M B) :
  (∀ w, limiters (m w).2 = limiters w) →
  (∀ a w, limiters (k a w).2 = limiters w) →
  ∀ w, limiters (bind m k w).2 = limiters w.
Proof.
  intros Hm Hk w. unfold bind. specialize (Hm w).
  destruct (m w) as [[a | code | reason] w']; simpl in *; [| done | done].
  by rewrite Hk.
Qed.

Lemma log_block_limiters rt l fs ctx lvl message w :
  limiters (bind (Logger_WithFields l fs)
                 (λ lg, Logger_logWithContext rt lg ctx lvl message None) w).2
  = limiters w.
Proof.
  destruct l as [a |]; [destruct (loggers w !! a) as [L |] eqn:HL |].
  - pose proof (Logger_WithFields_spec w a L fs HL) as Hwith. simpl in Hwith.
    rewrite (bind_Ret _ _ _ _ _ Hwith).
    match goal with
    | |- context [Logger_logWithContext rt (Some ?a') ctx lvl message None ?w1] =>
        assert (HD : ∃ D, loggers w1 !! a' = Some D)
          by (eexists; unfold set_maps, set_loggers; simpl; apply lookup_insert_eq);
        destruct HD as [D HD];
        destruct (Z.lt_ge_cases lvl (level D)) as [Hlt | Hge];
        [ by rewrite (Logger_logWithContext_filtered rt w1 a' D ctx lvl message None HD Hlt)
        | destruct (Logger_logWithContext_emits rt w1 a' D ctx lvl message None HD Hge)
            as (e & line & evs & n & -> & _) ]
    end.
    reflexivity.
  - unfold Logger_WithFields, bind, deref. by rewrite HL.
  - reflexivity.
Qed.

Lemma optional_log_block_limiters rt (c : bool) l fs ctx lvl message w :
  limiters ((if c
             then bind (Logger_WithFields l fs)
                       (λ lg, Logger_logWithContext rt lg ctx lvl message None)
             else ret tt) w).2
  = limiters w.
Proof. destruct c; [apply log_block_limiters | reflexivity]. Qed.

Lemma ServeHTTP_limiters {T} `{ResponseWriter T} (h : Handler) (w0 : T) r w :
  limiters (ServeHTTP h w0 r w).2 = limiters w.
Proof. by rewrite ServeHTTP_run. Qed.

(** The handler changes the limiter by the counting alone. *)
Lemma RateLimit_limiter_after {T} `{ResponseWriter T} rt lm next cl (w0 : T) r w st :
  limiters w !! cl = Some st →
  let expired := time_Sub (rt_clock rt (ticks w)) (lastReset st) >? Minute in
  let st1 := if expired then mkRateLimiter ∅ (rt_clock rt (S (ticks w))) else st in
  let count := wrap64 (default 0 (requestCounts st1 !! RemoteAddr r) + 1) in
  limiters (RateLimit_ServeHTTP rt lm next cl w0 r w).2
  = <[cl := mkRateLimiter (<[RemoteAddr r := count]> (requestCounts st1)) (lastReset st1)]>
      (limiters w).
Proof.
  intros Hst. cbv zeta.
  destruct (RateLimit_counting rt lm next cl w0 r w st Hst)
    as (w3 & Hlim & _ & _ & _ & ->).
  rewrite <- Hlim.
  unfold Logger_WarnContext, Logger_InfoContext.
  match goal with |- context [if ?c >? 100 then _ else _] => destruct (c >? 100) end.
  - apply bind_limiters; [apply log_block_limiters | done].
  - apply bind_limiters; [apply optional_log_block_limiters |].
    intros _. apply ServeHTTP_limiters.
Qed.

Lemma count_key_snoc k keys k' :
  count_key k (keys ++ [k']) = (count_key k keys + (if decide (k' = k) then 1 else 0))%nat.
Proof.
  unfold count_key. rewrite filter_app, length_app. f_equal.
  rewrite filter_cons, filter_nil. by destruct (decide (k' = k)).
Qed.

Lemma count_key_length k keys : (count_key k keys ≤ length keys)%nat.
Proof. unfold count_key. apply length_filter. Qed.

Lemma serve_all_length rt lm cl reqs w :
  length (serve_all rt lm cl reqs w).2 = length reqs.
Proof.
  revert w. induction reqs as [| [[next r] resp] reqs IH]; intros w; simpl; [done |].
  specialize (IH (RateLimit_ServeHTTP rt lm next cl resp r w).2).
  destruct (serve_all rt lm cl reqs _) as [w'' tr]. simpl in *. by rewrite IH.
Qed.

Lemma spec_window_length ws obs tr :
  (length (spec_window ws obs tr).2 ≤ length obs + length tr)%nat.
Proof.
  revert ws obs. induction tr as [| a tr IH]; intros ws obs; simpl; [lia |].
  destruct (arr_now a - ws >? sixty_seconds).
  - specialize (IH (arr_next a) [arr_key a]). simpl in IH. lia.
  - specialize (IH ws (obs ++ [arr_key a])). rewrite length_app in IH. simpl in IH. lia.
Qed.

(** The counters are what the window of the specification has seen. *)
Lemma serve_all_counts rt lm cl reqs w st obs :
  limiters w !! cl = Some st →
  (∀ k, default 0 (requestCounts st !! k) = wrap64 (Z.of_nat (count_key k obs))) →
  let after := serve_all rt lm cl reqs w in
  let window := spec_window (lastReset st) obs after.2 in
  ∃ st',
    limiters after.1 !! cl = Some st'
    ∧ lastReset st' = window.1
    ∧ ∀ k, default 0 (requestCounts st' !! k) = wrap64 (Z.of_nat (count_key k window.2)).
Proof.
  revert w st obs. induction reqs as [| [[next r] resp] reqs IH]; intros w st obs Hst Hinv.
  - simpl. by exists st.
  - simpl.
    pose proof (RateLimit_limiter_after rt lm next cl resp r w st Hst) as Hlim.
    cbv zeta in Hlim.
    rewrite time_Sub_gt_Minute in Hlim.
    set (w1 := (RateLimit_ServeHTTP rt lm next cl resp r w).2) in *.
    destruct (rt_clock rt (ticks w) - lastReset st >? sixty_seconds) eqn:Hexp.
    + match type of Hlim with
      | _ = <[cl := ?st2]> _ =>
          assert (Hst2 : limiters w1 !! cl = Some st2) by (rewrite Hlim; apply lookup_insert_eq);
          specialize (IH w1 st2 [RemoteAddr r] Hst2)
      end.
      simpl in IH.
      destruct (serve_all rt lm cl reqs w1) as [w'' tr]. simpl in *.
      rewrite Hexp.
      apply IH. intros k. unfold count_key. rewrite filter_cons, filter_nil.
      destruct (decide (RemoteAddr r = k)) as [-> | Hne].
      * by rewrite lookup_insert_eq, lookup_empty.
      * by rewrite lookup_insert_ne, lookup_empty.
    + match type of Hlim with
      | _ = <[cl := ?st2]> _ =>
          assert (Hst2 : limiters w1 !! cl = Some st2) by (rewrite Hlim; apply lookup_insert_eq);
          specialize (IH w1 st2 (obs ++ [RemoteAddr r]) Hst2)
      end.
      simpl in IH.
      destruct (serve_all rt lm cl reqs w1) as [w'' tr]. simpl in *.
      rewrite Hexp.
      apply IH. intros k. rewrite count_key_snoc.
      destruct (decide (RemoteAddr r = k)) as [-> | Hne].
      * rewrite lookup_insert_eq. simpl. rewrite Hinv, wrap64_add_l. f_equal. lia.
      * rewrite lookup_insert_ne by done. rewrite Hinv. f_equal. lia.
Qed.

(** The run of the rate-limiting handler with a logger in place. *)
Lemma RateLimit_run {T} `{ResponseWriter T} rt lm next cl (w0 : T) r w st a L :
  limiters w !! cl = Some st →
  lm_logger lm = Some a →
  loggers w !! a = Some L →
  let expired := time_Sub (rt_clock rt (ticks w)) (lastReset st) >? Minute in
  let st1 := if expired then mkRateLimiter ∅ (rt_clock rt (S (ticks w))) else st in
  let count := wrap64 (default 0 (requestCounts st1 !! RemoteAddr r) + 1) in
  let id := GetRequestID (req_ctx r) in
  let run := RateLimit_ServeHTTP rt lm next cl w0 r w in
  ∃ recs,
    records (journal run.2) = records (journal w) ++ recs
    ∧ if count >? 100 then
        run.1 = Ret (http_Error w0 "Rate limit exceeded" StatusTooManyRequests)
        ∧ served (journal run.2) = served (journal w)
        ∧ logs rt L id (req_ctx r) WARN "Rate limit exceeded" recs
      else
        run.1 = match h_panic next with
                | Some v => Panic v
                | None => Ret (apply_ops (h_ops next) w0).1
                end
        ∧ served (journal run.2) = served (journal w) ++ [(req_ctx r, rw_Header w0)]
        ∧ if count >? 50
          then logs rt L id (req_ctx r) INFO "High request rate detected" recs
          else recs = [].
Proof.
  intros Hst Hlm HL. cbv zeta.
  destruct (RateLimit_counting rt lm next cl w0 r w st Hst)
    as (w3 & _ & Hlog3 & Hrec3 & Hsrv3 & ->).
  rewrite Hlm. unfold Logger_WarnContext, Logger_InfoContext.
  assert (HL3 : loggers w3 !! a = Some L) by (by rewrite Hlog3).
  rewrite <- Hrec3, <- Hsrv3.
  match goal with |- context [if ?c >? 100 then _ else _] => destruct (c >? 100) end.
  - log_step HL3 (GetRequestID (req_ctx r)).
    exists recs. simpl.
    split; [apply (ev_records _ _ _ _ E) |]. split; [done |].
    split; [| done]. rewrite (ev_served _ _ _ _ E). apply app_nil_r.
  - opt_log_step HL3 (GetRequestID (req_ctx r)).
    rewrite ServeHTTP_run. exists recs. simpl.
    split; [journal_simpl; rewrite app_nil_r; apply (ev_records _ _ _ _ E) |].
    split; [done |].
    split; [| done]. journal_simpl. rewrite (ev_served _ _ _ _ E). by rewrite app_nil_r.
Qed.

(** A request whose counter does not pass the soft threshold goes to the
    inner handler, and nothing is logged, whatever the logger. *)
Lemma RateLimit_quiet {T} `{ResponseWriter T} rt lm next cl (w0 : T) r w st :
  limiters w !! cl = Some st →
  let expired := time_Sub (rt_clock rt (ticks w)) (lastReset st) >? Minute in
  let st1 := if expired then mkRateLimiter ∅ (rt_clock rt (S (ticks w))) else st in
  let count := wrap64 (default 0 (requestCounts st1 !! RemoteAddr r) + 1) in
  let run := RateLimit_ServeHTTP rt lm next cl w0 r w in
  count ≤ 50 →
  run.1 = match h_panic next with
          | Some v => Panic v
          | None => Ret (apply_ops (h_ops next) w0).1
          end
  ∧ served (journal run.2) = served (journal w) ++ [(req_ctx r, rw_Header w0)]
  ∧ records (journal run.2) = records (journal w).
Proof.
  intros Hst. cbv zeta.
  destruct (RateLimit_counting rt lm next cl w0 r w st Hst)
    as (w3 & _ & _ & Hrec3 & Hsrv3 & ->).
  intros Hcount.
  match goal with
  | |- context [if ?c >? 100 then _ else _] =>
      destruct (Z.gtb_spec c 100); [lia |]; destruct (Z.gtb_spec c 50); [lia |]
  end.
  rewrite bind_ret, ServeHTTP_run. simpl. rewrite <- Hrec3, <- Hsrv3.
  split; [done |]. split; journal_simpl; by rewrite ?app_nil_r.
Qed.

(** C3, as the code has it: the handler increments the counter of the
    client and compares the incremented counter [count].  Up to 100 the
    request is allowed: the inner handler runs and the response is its
    own; this holds in particular for the request that brings the
    counter to 50, for which nothing is logged.  Above 50 and up to 100
    a record at INFO, High request rate detected, is logged.  Above 100
    the request is denied: status 429 is written by [http.Error], the
    inner handler is not invoked, and a record at WARN, Rate limit
    exceeded, is logged.  Each record reaches the sink only if the
    threshold of the logger is at most its level. *)
Theorem RateLimit_thresholds {T} `{ResponseWriter T} rt lm next cl (w0 : T) r w st a L :
  limiters w !! cl = Some st →
  lm_logger lm = Some a →
  loggers w !! a = Some L →
  let run := RateLimit_ServeHTTP rt lm next cl w0 r w in
  ∃ count recs st',
    limiters run.2 !! cl = Some st'
    ∧ requestCounts st' !! RemoteAddr r = Some count
    ∧ (rt_clock rt (ticks w) - lastReset st ≤ sixty_seconds →
       count = wrap64 (default 0 (requestCounts st !! RemoteAddr r) + 1))
    ∧ records (journal run.2) = records (journal w) ++ recs
    ∧ (count ≤ 100 →
       run.1 = match h_panic next with
               | Some v => Panic v
               | None => Ret (apply_ops (h_ops next) w0).1
               end
       ∧ served (journal run.2) = served (journal w) ++ [(req_ctx r, rw_Header w0)])
    ∧ (count ≤ 50 → recs = [])
    ∧ (50 < count ≤ 100 →
       (level L ≤ INFO →
        ∃ e, recs = [e] ∧ Level e = "INFO" ∧ Message e = "High request rate detected")
       ∧ (INFO < level L → recs = []))
    ∧ (100 < count →
       run.1 = Ret (http_Error w0 "Rate limit exceeded" 429)
       ∧ served (journal run.2) = served (journal w)
       ∧ (level L ≤ WARN →
          ∃ e, recs = [e] ∧ Level e = "WARN" ∧ Message e = "Rate limit exceeded")
       ∧ (WARN < level L → recs = [])).
Proof.
  intros Hst Hlm HL run. subst run.
  pose proof (RateLimit_limiter_after rt lm next cl w0 r w st Hst) as Hlim.
  pose proof (RateLimit_run rt lm next cl w0 r w st a L Hst Hlm HL) as Hrun.
  cbv zeta in Hlim, Hrun.
  rewrite time_Sub_gt_Minute in Hlim, Hrun.
  destruct Hrun as (recs & Hrecs & Hrun).
  match type of Hlim with
  | _ = <[cl := mkRateLimiter (<[_ := ?c]> _) _]> _ => set (count := c) in *
  end.
  match type of Hlim with
  | _ = <[cl := ?st2]> _ => exists count, recs, st2
  end.
  split; [rewrite Hlim; apply lookup_insert_eq |].
  split; [apply lookup_insert_eq |].
  split.
  { intros Hin. subst count.
    by destruct (Z.gtb_spec (rt_clock rt (ticks w) - lastReset st) sixty_seconds); [lia |]. }
  split; [exact Hrecs |].
  destruct (Z.gtb_spec count 100) as [H100 | H100].
  - destruct Hrun as (Hout & Hsrv & Hlogs).
    split; [lia |]. split; [lia |]. split; [lia |]. intros _.
    split; [exact Hout |]. split; [exact Hsrv |]. split.
    + intros Hle. by apply (logs_present _ _ _ _ _ _ _ Hlogs).
    + intros Hgt. by apply (logs_absent _ _ _ _ _ _ _ Hlogs).
  - destruct Hrun as (Hout & Hsrv & Hlogs).
    split; [done |].
    destruct (Z.gtb_spec count 50) as [H50 | H50].
    + split; [lia |]. split; [| lia]. intros _. split.
      * intros Hle. by apply (logs_present _ _ _ _ _ _ _ Hlogs).
      * intros Hgt. by apply (logs_absent _ _ _ _ _ _ _ Hlogs).
    + split; [done |]. split; lia.
Qed.

Lemma RateLimit_thresholds_witness :
  let w := example_limited_world DEBUG 100 0 in
  let next := mkHandler [OpWriteHeader 200] None in
  let run := RateLimit_ServeHTTP example_runtime example_middleware next 0%nat
               example_response (example_request ∅) w in
  limiters w !! 0%nat = Some (mkRateLimiter {[ "10.0.0.7:51034" := 100 ]} 0)
  ∧ lm_logger example_middleware = Some 0%nat
  ∧ loggers w !! 0%nat = Some (example_logger DEBUG)
  ∧ run.1 = Ret (http_Error example_response "Rate limit exceeded" 429)
  ∧ denied (http_Error example_response "Rate limit exceeded" 429)
  ∧ served (journal run.2) = served (journal w)
  ∧ ∃ e, records (journal run.2) = records (journal w) ++ [e]
         ∧ Level e = "WARN" ∧ Message e = "Rate limit exceeded".
Proof.
  intros w next run.
  assert (Hst : limiters w !! 0%nat
                = Some (mkRateLimiter {[ "10.0.0.7:51034" := 100 ]} 0)) by reflexivity.
  assert (Hlm : lm_logger example_middleware = Some 0%nat) by reflexivity.
  assert (HL : loggers w !! 0%nat = Some (example_logger DEBUG)) by reflexivity.
  split; [exact Hst |]. split; [exact Hlm |]. split; [exact HL |].
  pose proof (@RateLimit_thresholds Response _ example_runtime example_middleware next
                0%nat example_response (example_request ∅) w _ 0%nat _ Hst Hlm HL) as Hrun.
  cbv zeta in Hrun.
  destruct Hrun as (count & recs & st' & _ & _ & Hcount & Hrecs & _ & _ & _ & Hdeny).
  assert (Hc : count = 101).
  { rewrite Hcount; [vm_compute; reflexivity |]. vm_compute. intros Hcmp. discriminate Hcmp. }
  destruct Hdeny as (Hout & Hsrv & Hwarn & _); [rewrite Hc; reflexivity |].
  split; [exact Hout |].
  split; [vm_compute; apply list_elem_of_here |].
  split; [exact Hsrv |].
  destruct Hwarn as (e & He & Hl & Hm); [vm_compute; intros Hcmp; discriminate Hcmp |].
  exists e. unfold run. rewrite Hrecs, He. split; [reflexivity |]. split; [exact Hl | exact Hm].
Defined.

(** C3 as stated fails when the threshold of the logger is above INFO:
    with threshold ERROR, the request that brings the counter of a
    client to 51 is allowed and no record is logged, and the request
    that brings it to 101 is denied with status 429 and no record is
    logged either. *)
Lemma RateLimit_logs_filtered :
  let next := mkHandler [OpWriteHeader 200] None in
  let run51 := RateLimit_ServeHTTP example_runtime example_middleware next 0%nat
                 example_response (example_request ∅)
                 (example_limited_world ERROR 50 0) in
  let run101 := RateLimit_ServeHTTP example_runtime example_middleware next 0%nat
                  example_response (example_request ∅)
                  (example_limited_world ERROR 100 0) in
  (requestCounts <$> limiters run51.2 !! 0%nat) = Some {[ "10.0.0.7:51034" := 51 ]}
  ∧ served (journal run51.2) = [([], ∅)]
  ∧ records (journal run51.2) = []
  ∧ (requestCounts <$> limiters run101.2 !! 0%nat) = Some {[ "10.0.0.7:51034" := 101 ]}
  ∧ run101.1 = Ret (http_Error example_response "Rate limit exceeded" 429)
  ∧ records (journal run101.2) = [].
Proof. repeat split; vm_compute; reflexivity. Qed.

(** C4: a request that arrives more than sixty seconds after the start
    of the window empties the counters of all clients and starts a new
    window at the reading of the clock taken then, before it is counted:
    afterwards the limiter holds the counter 1 for the requester and no
    other counter, and the request goes to the inner handler, whatever
    the counters were; so does any request of a client that has no
    counter in the window in force.  For a handler made by
    [RateLimitMiddleware] and any requests served one after the other,
    the start of the window and the counter of each client are those of
    the window of the specification: the counter of a client is the
    number of its arrivals since the window in force was opened (in
    [int], hence that number as long as it fits). *)
Theorem RateLimit_window rt lm :
  (∀ (next : Handler) cl (w0 : Response) r w st,
     limiters w !! cl = Some st →
     rt_clock rt (ticks w) - lastReset st > sixty_seconds →
     let run := RateLimit_ServeHTTP rt lm next cl w0 r w in
     limiters run.2 =
       <[cl := mkRateLimiter {[ RemoteAddr r := 1 ]} (rt_clock rt (S (ticks w)))]>
         (limiters w)
     ∧ run.1 = match h_panic next with
               | Some v => Panic v
               | None => Ret (apply_ops (h_ops next) w0).1
               end
     ∧ served (journal run.2) = served (journal w) ++ [(req_ctx r, rw_Header w0)])
  ∧ (∀ (next : Handler) cl (w0 : Response) r w st,
       limiters w !! cl = Some st →
       rt_clock rt (ticks w) - lastReset st ≤ sixty_seconds →
       requestCounts st !! RemoteAddr r = None →
       let run := RateLimit_ServeHTTP rt lm next cl w0 r w in
       limiters run.2 =
         <[cl := mkRateLimiter (<[ RemoteAddr r := 1 ]> (requestCounts st)) (lastReset st)]>
           (limiters w)
       ∧ run.1 = match h_panic next with
                 | Some v => Panic v
                 | None => Ret (apply_ops (h_ops next) w0).1
                 end
       ∧ served (journal run.2) = served (journal w) ++ [(req_ctx r, rw_Header w0)])
  ∧ (∀ (reqs : list (Handler * Request * Response)) w0,
       ∃ cl,
         (RateLimitMiddleware rt w0).1 = Ret cl
         ∧ let after := serve_all rt lm cl reqs (RateLimitMiddleware rt w0).2 in
           let window := spec_window (rt_clock rt (ticks w0)) [] after.2 in
           ∃ st,
             limiters after.1 !! cl = Some st
             ∧ lastReset st = window.1
             ∧ (∀ k, default 0 (requestCounts st !! k)
                     = wrap64 (Z.of_nat (count_key k window.2)))
             ∧ (Z.of_nat (length reqs) ≤ maxInt64 →
                ∀ k, default 0 (requestCounts st !! k) = Z.of_nat (count_key k window.2))).
Proof.
  assert (Hone : wrap64 (0 + 1) = 1) by (apply wrap64_small; unfold minInt64, maxInt64; lia).
  split; [| split].
  - intros next cl w0 r w st Hst Hexp run. subst run.
    pose proof (RateLimit_limiter_after rt lm next cl w0 r w st Hst) as Hlim.
    pose proof (RateLimit_quiet rt lm next cl w0 r w st Hst) as Hquiet.
    cbv zeta in Hlim, Hquiet. rewrite time_Sub_gt_Minute in Hlim, Hquiet.
    destruct (Z.gtb_spec (rt_clock rt (ticks w) - lastReset st) sixty_seconds); [| lia].
    simpl in Hlim, Hquiet. rewrite lookup_empty in Hlim, Hquiet. simpl in Hlim, Hquiet.
    rewrite Hone in Hlim, Hquiet. rewrite insert_empty in Hlim.
    split; [exact Hlim |].
    destruct Hquiet as (Hout & Hsrv & _); [lia |]. by split.
  - intros next cl w0 r w st Hst Hin Hnone run. subst run.
    pose proof (RateLimit_limiter_after rt lm next cl w0 r w st Hst) as Hlim.
    pose proof (RateLimit_quiet rt lm next cl w0 r w st Hst) as Hquiet.
    cbv zeta in Hlim, Hquiet. rewrite time_Sub_gt_Minute in Hlim, Hquiet.
    destruct (Z.gtb_spec (rt_clock rt (ticks w) - lastReset st) sixty_seconds); [lia |].
    rewrite Hnone in Hlim, Hquiet. simpl in Hlim, Hquiet.
    rewrite Hone in Hlim, Hquiet.
    split; [exact Hlim |].
    destruct Hquiet as (Hout & Hsrv & _); [lia |]. by split.
  - intros reqs w0.
    exists (fresh (dom (limiters w0))). split; [reflexivity |].
    set (cl := fresh (dom (limiters w0))).
    set (w := (RateLimitMiddleware rt w0).2).
    assert (Hst : limiters w !! cl = Some (mkRateLimiter ∅ (rt_clock rt (ticks w0)))).
    { subst w cl. unfold RateLimitMiddleware, bind, time_Now, set_limiters. simpl.
      apply lookup_insert_eq. }
    pose proof (serve_all_counts rt lm cl reqs w _ [] Hst) as Hinv.
    cbv zeta in Hinv. simpl in Hinv.
    destruct Hinv as (st & Hst' & Hws & Hcounts).
    { intros k. by rewrite lookup_empty. }
    exists st. split; [exact Hst' |]. split; [exact Hws |]. split; [exact Hcounts |].
    intros Hfit k. rewrite Hcounts. apply wrap64_small.
    pose proof (count_key_length k
                  (spec_window (rt_clock rt (ticks w0)) [] (serve_all rt lm cl reqs w).2).2)
      as Hk.
    pose proof (spec_window_length (rt_clock rt (ticks w0)) []
                  (serve_all rt lm cl reqs w).2) as Hlen.
    rewrite serve_all_length in Hlen. simpl in Hlen.
    unfold minInt64, maxInt64 in *. lia.
Qed.

Lemma RateLimit_window_witness :
  let next := mkHandler [OpWriteHeader 200] None in
  let flooded := example_limited_world INFO 150 61 in
  let st := mkRateLimiter {[ "10.0.0.7:51034" := 150 ]} 0 in
  let other := mkRequest "GET" "/logs" EmptyString ∅ "10.0.0.9:4000" "ingest.example.org" 0 [] in
  let quiet := example_limited_world INFO 150 7 in
  let reqs := [(next, example_request ∅, example_response);
               (next, other, example_response);
               (next, example_request ∅, example_response)] in
  (* a denied client, a minute later *)
  (limiters flooded !! 0%nat = Some st
   ∧ rt_clock example_runtime (ticks flooded) - lastReset st > sixty_seconds
   ∧ limiters (RateLimit_ServeHTTP example_runtime example_middleware next 0%nat
                 example_response (example_request ∅) flooded).2
     = <[0%nat := mkRateLimiter {[ "10.0.0.7:51034" := 1 ]} (62 * Second)]>
         (limiters flooded))
  (* a client without a counter, within the window *)
  ∧ (limiters quiet !! 0%nat = Some st
     ∧ rt_clock example_runtime (ticks quiet) - lastReset st ≤ sixty_seconds
     ∧ requestCounts st !! RemoteAddr other = None
     ∧ served (journal (RateLimit_ServeHTTP example_runtime example_middleware next 0%nat
                          example_response other quiet).2)
       = served (journal quiet) ++ [(req_ctx other, rw_Header example_response)])
  (* three requests to a new handler *)
  ∧ (Z.of_nat (length reqs) ≤ maxInt64
     ∧ ∃ cl st',
         limiters (serve_all example_runtime example_middleware cl reqs
                     (RateLimitMiddleware example_runtime (example_world INFO ∅)).2).1
           !! cl = Some st'
         ∧ default 0 (requestCounts st' !! "10.0.0.7:51034")
           = Z.of_nat
               (count_key "10.0.0.7:51034"
                  (spec_window (rt_clock example_runtime 0) []
                     (serve_all example_runtime example_middleware cl reqs
                        (RateLimitMiddleware example_runtime (example_world INFO ∅)).2).2).2)).
Proof.
  intros next flooded st other quiet reqs.
  destruct (RateLimit_window example_runtime example_middleware)
    as (Hreset & Hfirst & Hcounts).
  split; [| split].
  - assert (Hst : limiters flooded !! 0%nat = Some st) by reflexivity.
    assert (Hexp : rt_clock example_runtime (ticks flooded) - lastReset st > sixty_seconds)
      by reflexivity.
    split; [exact Hst |]. split; [exact Hexp |].
    exact (proj1 (Hreset next 0%nat example_response (example_request ∅) flooded st
                    Hst Hexp)).
  - assert (Hst : limiters quiet !! 0%nat = Some st) by reflexivity.
    assert (Hin : rt_clock example_runtime (ticks quiet) - lastReset st ≤ sixty_seconds)
      by (vm_compute; intros Hcmp; discriminate Hcmp).
    assert (Hnone : requestCounts st !! RemoteAddr other = None) by reflexivity.
    split; [exact Hst |]. split; [exact Hin |]. split; [exact Hnone |].
    exact (proj2 (proj2 (Hfirst next 0%nat example_response other quiet st
                           Hst Hin Hnone))).
  - assert (Hfit : Z.of_nat (length reqs) ≤ maxInt64)
      by (vm_compute; intros Hcmp; discriminate Hcmp).
    split; [exact Hfit |].
    destruct (Hcounts reqs (example_world INFO ∅)) as (cl & _ & Hafter).
    cbv zeta in Hafter. destruct Hafter as (st' & Hst' & _ & _ & Hexact).
    exists cl, st'. split; [exact Hst' |]. exact (Hexact Hfit "10.0.0.7:51034").
Defined.

(** * Further properties of the code *)

(** ** Construction, in full *)

Lemma New_run rt config w :
  New rt config w =
    (Ret (Some (fresh (dom (loggers w)))),
     set_maps (<[fresh (dom (maps w)) := default ∅ (cfg_Fields config)]> (maps w))
       (set_loggers
          (<[fresh (dom (loggers w)) :=
               mkLogger (parseLogLevel (cfg_Level config)) (cfg_Service config)
                        (cfg_Component config) (New_output rt config)
                        (parseLogFormat (cfg_Format config)) (fresh (dom (maps w)))]>
             (loggers w)) w)).
Proof.
  unfold New, New_output.
  unfold bind at 1, make_map at 1. unfold bind at 1, new_Logger at 1.
  cbn [loggers set_maps].
  set (a := fresh (dom (loggers w))).
  set (r := fresh (dom (maps w))).
  set (L0 := mkLogger _ _ _ Stdout _ r).
  set (w2 := set_loggers _ _).
  assert (Ha : loggers w2 !! a = Some L0) by apply lookup_insert_eq.
  assert (Hr : maps w2 !! r = Some ∅) by apply lookup_insert_eq.
  set (out := if _ && _ then default Stdout _ else Stdout).
  set (L1 := mkLogger _ _ _ out _ r).
  set (w3 := set_maps (<[r := ∅]> (maps w)) (set_loggers (<[a := L1]> (loggers w)) w)).
  assert (Hout : (if negb (String.eqb (cfg_Output config) "")
                     && negb (String.eqb (cfg_Output config) "stdout")
                  then match rt_openFile rt (cfg_Output config) with
                       | Some file =>
                           let* L := deref (Some a) in
                           store_Logger a
                             (mkLogger (level L) (service L) (component L) file (format L)
                                       (fields L))
                       | None => ret tt
                       end
                  else ret tt) w2 = (Ret tt, w3)).
  { subst out L1 w3. destruct (negb _ && negb _); [destruct (rt_openFile rt _) as [file |] |].
    - rewrite (bind_Ret _ _ _ _ _ (deref_Some _ _ _ Ha)).
      unfold store_Logger, set_loggers, set_maps, ret. simpl.
      by rewrite insert_insert_eq.
    - done.
    - done. }
  rewrite (bind_Ret _ _ _ _ _ Hout).
  assert (Ha3 : loggers w3 !! a = Some L1) by apply lookup_insert_eq.
  assert (Hr3 : maps w3 !! r = Some ∅) by apply lookup_insert_eq.
  destruct (cfg_Fields config) as [fs |]; simpl.
  - rewrite bind_assoc, (bind_Ret _ _ _ _ _ (deref_Some _ _ _ Ha3)).
    cbn [fields L1].
    rewrite (bind_Ret _ _ _ _ _ (copy_entries_spec _ r w3 ∅ Hr3)).
    unfold ret. f_equal. subst w3. unfold set_maps, set_loggers. simpl.
    by rewrite insert_insert_eq, copy_into_union, (right_id_L ∅ (∪)).
  - reflexivity.
Qed.

(** ** The record of a leveled method *)

Lemma entry_of_record_of rt L fs lvl message ctx now :
  record_of L fs lvl message ctx (call_site rt) (entry_of rt L fs lvl message ctx now).
Proof. unfold record_of, entry_of. simpl. by destruct (call_site rt) as [[? ?] ?]. Qed.

Lemma Logger_logWithContext_entry rt w a L ctx lvl message extraFields :
  loggers w !! a = Some L →
  level L ≤ lvl →
  let e := entry_of rt L (default ∅ extraFields ∪ default ∅ (maps w !! fields L))
                    lvl message ctx (rt_clock rt (ticks w)) in
  ∃ line evs n,
    Logger_logWithContext rt (Some a) ctx lvl message extraFields w =
      (Ret tt, after_write w (output L) (line +:+ newline) n
                 ([EvCaller; EvNow (rt_clock rt (ticks w)); EvEntry e] ++ evs
                  ++ [EvWrite (output L) (line +:+ newline)]))
    ∧ Forall (λ ev, is_encoding ev = true) evs.
Proof.
  intros HL Hlvl e. subst e. unfold Logger_logWithContext.
  rewrite (bind_Ret _ _ _ _ _ (deref_Some _ _ _ HL)).
  destruct (Z.ltb_spec lvl (level L)) as [Hlt | _]; [lia |].
  rewrite (bind_Ret _ _ _ _ _ (getCaller_spec rt w)).
  unfold entry_of.
  destruct (call_site rt) as [[file line] function] eqn:Hsite.
  unfold bind at 1, time_Now at 1. simpl.
  unfold bind at 1, map_range at 1. simpl.
  rewrite entry_fields_spec, !nonempty_or_empty.
  match goal with
  | |- context [Logger_writeEntry rt (Some a) ?e ?w1] =>
      destruct (Logger_writeEntry_spec rt w1 a L e HL) as (out & evs & n & Hrun & Hevs);
      exists out, evs, (S n)
  end.
  split; [| exact Hevs].
  rewrite Hrun. unfold after_write, set_journal, set_sinks, set_ticks. simpl.
  rewrite <- !app_assoc. simpl. by rewrite Nat.add_succ_r.
Qed.

Lemma Logger_log_entry rt w a L lvl message extraFields :
  loggers w !! a = Some L →
  level L ≤ lvl →
  let e := entry_of rt L (default ∅ extraFields ∪ default ∅ (maps w !! fields L))
                    lvl message [] (rt_clock rt (ticks w)) in
  ∃ line evs n,
    Logger_log rt (Some a) lvl message extraFields w =
      (Ret tt, after_write w (output L) (line +:+ newline) n
                 ([EvCaller; EvNow (rt_clock rt (ticks w)); EvEntry e] ++ evs
                  ++ [EvWrite (output L) (line +:+ newline)]))
    ∧ Forall (λ ev, is_encoding ev = true) evs.
Proof.
  intros HL Hlvl e. subst e. unfold Logger_log.
  rewrite (bind_Ret _ _ _ _ _ (deref_Some _ _ _ HL)).
  destruct (Z.ltb_spec lvl (level L)) as [Hlt | _]; [lia |].
  rewrite (bind_Ret _ _ _ _ _ (getCaller_spec rt w)).
  unfold entry_of.
  destruct (call_site rt) as [[file line] function] eqn:Hsite.
  unfold bind at 1, time_Now at 1. simpl.
  unfold bind at 1, map_range at 1. simpl.
  rewrite entry_fields_spec.
  match goal with
  | |- context [Logger_writeEntry rt (Some a) ?e ?w1] =>
      destruct (Logger_writeEntry_spec rt w1 a L e HL) as (out & evs & n & Hrun & Hevs);
      exists out, evs, (S n)
  end.
  split; [| exact Hevs].
  rewrite Hrun. unfold after_write, set_journal, set_sinks, set_ticks. simpl.
  rewrite <- !app_assoc. simpl. by rewrite Nat.add_succ_r.
Qed.

(** A leveled method at or above the threshold, in full. *)
Lemma emit_entry rt w a L c :
  loggers w !! a = Some L →
  level L ≤ emit_level c →
  let e := entry_of rt L (default ∅ (maps w !! fields L)) (emit_level c)
                    (emit_message rt c) (emit_ctx c) (rt_clock rt (ticks w)) in
  ∃ line evs n,
    emit rt (Some a) c w =
      (emit_outcome c,
       after_write w (output L) (line +:+ newline) n
         (emit_formatting c
          ++ [EvCaller; EvNow (rt_clock rt (ticks w)); EvEntry e] ++ evs
          ++ [EvWrite (output L) (line +:+ newline)] ++ emit_exit c))
    ∧ Forall (λ ev, is_encoding ev = true) evs.
Proof.
  intros HL Hge e. subst e.
  assert (Hplain : ∀ pre message,
            ∃ line evs n,
              Logger_log rt (Some a) (emit_level c) message None
                (set_journal (journal w ++ pre) w) =
                (Ret tt, after_write w (output L) (line +:+ newline) n
                   (pre ++ [EvCaller; EvNow (rt_clock rt (ticks w));
                            EvEntry (entry_of rt L (default ∅ (maps w !! fields L))
                                       (emit_level c) message [] (rt_clock rt (ticks w)))]
                    ++ evs ++ [EvWrite (output L) (line +:+ newline)]))
              ∧ Forall (λ ev, is_encoding ev = true) evs).
  { intros pre message.
    destruct (Logger_log_entry rt (set_journal (journal w ++ pre) w) a L
                (emit_level c) message None HL Hge)
      as (line & evs & n & Hrun & Hevs).
    exists line, evs, n. rewrite Hrun, after_write_prefix.
    simpl. by rewrite (left_id_L ∅ (∪)). }
  assert (Hctx : ∀ ctx message,
            ∃ line evs n,
              Logger_logWithContext rt (Some a) ctx (emit_level c) message None w =
                (Ret tt, after_write w (output L) (line +:+ newline) n
                   ([EvCaller; EvNow (rt_clock rt (ticks w));
                     EvEntry (entry_of rt L (default ∅ (maps w !! fields L))
                                (emit_level c) message ctx (rt_clock rt (ticks w)))]
                    ++ evs ++ [EvWrite (output L) (line +:+ newline)]))
              ∧ Forall (λ ev, is_encoding ev = true) evs).
  { intros ctx message.
    destruct (Logger_logWithContext_entry rt w a L ctx (emit_level c) message None HL Hge)
      as (line & evs & n & Hrun & Hevs).
    exists line, evs, n. rewrite Hrun.
    simpl. by rewrite (left_id_L ∅ (∪)). }
  assert (Hnil : set_journal (journal w ++ []) w = w).
  { unfold set_journal. by rewrite app_nil_r, world_eta. }
  destruct c; simpl in *; unfold emit_outcome, emit_exit; simpl;
    unfold Logger_Debug, Logger_Debugf, Logger_DebugContext, Logger_Info, Logger_Infof,
      Logger_InfoContext, Logger_Warn, Logger_Warnf, Logger_WarnContext,
      Logger_Error, Logger_Errorf, Logger_ErrorContext, Logger_Fatal, Logger_Fatalf;
    match goal with
    | |- context [Logger_logWithContext rt (Some a) ?ctx _ ?m None] =>
        destruct (Hctx ctx m) as (line & evs & n & Hrun & Hevs)
    | |- context [Sprintf rt ?f ?args] =>
        destruct (Hplain [EvSprintf f args] (rt_sprintf rt f args))
          as (line & evs & n & Hrun & Hevs)
    | |- context [Logger_log rt (Some a) _ ?m None] =>
        destruct (Hplain [] m) as (line & evs & n & Hrun & Hevs);
        rewrite Hnil in Hrun
    end;
    exists line, evs, n;
    (split; [| done]);
    unfold bind, Sprintf, note, ret, os_Exit; simpl;
    rewrite Hrun; simpl;
    unfold after_write, set_journal, set_sinks, set_ticks; simpl;
    rewrite ?app_nil_r; repeat (rewrite <- app_assoc; simpl); done.
Qed.

(** What a leveled method leaves of the store: the loggers and the
    maps. *)
Lemma emit_store rt w a L c :
  loggers w !! a = Some L →
  loggers (emit rt (Some a) c w).2 = loggers w
  ∧ maps (emit rt (Some a) c w).2 = maps w
  ∧ defaultLogger (emit rt (Some a) c w).2 = defaultLogger w.
Proof.
  intros HL. destruct (emit_run rt w a L c HL) as [Hbelow Habove].
  destruct (Z.lt_ge_cases (emit_level c) (level L)) as [Hlt | Hge].
  - by rewrite (Hbelow Hlt).
  - destruct (Habove Hge) as (e & line & evs & n & -> & _). done.
Qed.

(** The journal of a leveled method, read for its records and writes. *)
Lemma emit_observed rt w a L c :
  loggers w !! a = Some L →
  let run := emit rt (Some a) c w in
  run.1 = emit_outcome c
  ∧ (emit_level c < level L →
     records (journal run.2) = records (journal w)
     ∧ writes (journal run.2) = writes (journal w)
     ∧ sinks run.2 = sinks w
     ∧ ticks run.2 = ticks w)
  ∧ (level L ≤ emit_level c →
     ∃ line,
       records (journal run.2) =
         records (journal w)
         ++ [entry_of rt L (default ∅ (maps w !! fields L)) (emit_level c)
               (emit_message rt c) (emit_ctx c) (rt_clock rt (ticks w))]
       ∧ writes (journal run.2) = writes (journal w) ++ [(output L, line +:+ newline)]
       ∧ sinks run.2 =
           <[output L := default [] (sinks w !! output L) ++ [line +:+ newline]]> (sinks w)).
Proof.
  intros HL run. subst run.
  destruct (emit_run rt w a L c HL) as [Hbelow _].
  destruct (emit_formatting_quiet c) as [Hfr Hfw].
  destruct (emit_exit_quiet c) as [Her Hew].
  destruct (Z.lt_ge_cases (emit_level c) (level L)) as [Hlt | Hge].
  - rewrite (Hbelow Hlt). simpl. split; [done |]. split; [| intros; lia].
    intros _. journal_simpl. by rewrite Hfr, Hfw, Her, Hew, !app_nil_r.
  - destruct (emit_entry rt w a L c HL Hge) as (line & evs & n & -> & Hevs).
    destruct (encoding_no_records evs Hevs) as (Hr & Hw & _).
    simpl. split; [done |]. split; [intros; lia |]. intros _. exists line.
    split; [| split]; journal_simpl;
      rewrite ?Hfr, ?Hfw, ?Her, ?Hew, ?Hr, ?Hw; simpl; by rewrite ?app_nil_r.
Qed.

(** What [l.WithFields(fs)] followed by a leveled method on the derived
    logger does. *)
Lemma derived_emit rt w a L fs c :
  loggers w !! a = Some L →
  let run := bind (Logger_WithFields (Some a) fs) (λ lg, emit rt lg c) w in
  run.1 = emit_outcome c
  ∧ (∀ b Lb, loggers w !! b = Some Lb → loggers run.2 !! b = Some Lb)
  ∧ (∀ r m, maps w !! r = Some m → maps run.2 !! r = Some m)
  ∧ (emit_level c < level L →
     records (journal run.2) = records (journal w)
     ∧ writes (journal run.2) = writes (journal w)
     ∧ sinks run.2 = sinks w
     ∧ ticks run.2 = ticks w)
  ∧ (level L ≤ emit_level c →
     ∃ line,
       records (journal run.2) =
         records (journal w)
         ++ [entry_of rt L (fs ∪ default ∅ (maps w !! fields L)) (emit_level c)
               (emit_message rt c) (emit_ctx c) (rt_clock rt (ticks w))]
       ∧ writes (journal run.2) = writes (journal w) ++ [(output L, line +:+ newline)]
       ∧ sinks run.2 =
           <[output L := default [] (sinks w !! output L) ++ [line +:+ newline]]> (sinks w)).
Proof.
  intros HL run. subst run.
  pose proof (Logger_WithFields_spec w a L fs HL) as Hwith. simpl in Hwith.
  rewrite (bind_Ret _ _ _ _ _ Hwith).
  set (a' := fresh (dom (loggers w))) in *.
  set (r' := fresh (dom (maps w))) in *.
  set (D := mkLogger (level L) (service L) (component L) (output L) (format L) r').
  set (w1 := set_maps _ _).
  assert (Ha' : ∀ b Lb, loggers w !! b = Some Lb → loggers w1 !! b = Some Lb).
  { intros b Lb Hb. subst w1. unfold set_maps, set_loggers. simpl.
    rewrite lookup_insert_ne; [done |]. intros <-.
    apply (is_fresh (dom (loggers w))). apply elem_of_dom. by exists Lb. }
  assert (Hr' : ∀ r m, maps w !! r = Some m → maps w1 !! r = Some m).
  { intros r m Hm. subst w1. unfold set_maps, set_loggers. simpl.
    rewrite lookup_insert_ne; [done |]. intros <-.
    apply (is_fresh (dom (maps w))). apply elem_of_dom. by exists m. }
  assert (HD : loggers w1 !! a' = Some D).
  { subst w1. unfold set_maps, set_loggers. simpl. apply lookup_insert_eq. }
  assert (HmD : default ∅ (maps w1 !! fields D) = fs ∪ default ∅ (maps w !! fields L)).
  { subst w1. unfold set_maps, set_loggers. simpl. by rewrite lookup_insert_eq. }
  destruct (emit_observed rt w1 a' D c HD) as (Hout & Hbelow & Habove).
  destruct (emit_store rt w1 a' D c HD) as (Hlog & Hmaps & _).
  split; [exact Hout |].
  split; [intros b Lb Hb; rewrite Hlog; by apply Ha' |].
  split; [intros r m Hm; rewrite Hmaps; by apply Hr' |].
  split.
  - intros Hlt. apply Hbelow. exact Hlt.
  - intros Hge. destruct (Habove Hge) as (line & Hrec & Hwr & Hsink).
    exists line. rewrite HmD in Hrec. done.
Qed.

(** ** The names of the levels *)

(** X1: [String] and [parseLogLevel] are inverse to each other on the five
    levels: the name of a level parses to that level, distinct levels
    have distinct names, and a value that is not a level is named
    UNKNOWN, which parses to INFO. *)
Theorem level_names_round_trip (l : LogLevel) :
  (DEBUG ≤ l ≤ FATAL → parseLogLevel (LogLevel_String l) = l)
  ∧ (¬ (DEBUG ≤ l ≤ FATAL) →
     LogLevel_String l = "UNKNOWN" ∧ parseLogLevel (LogLevel_String l) = INFO)
  ∧ (∀ l', DEBUG ≤ l ≤ FATAL → LogLevel_String l = LogLevel_String l' → l = l').
Proof.
  unfold DEBUG, INFO, FATAL. split; [| split].
  - intros Hl.
    assert (Hcases : l = 0 ∨ l = 1 ∨ l = 2 ∨ l = 3 ∨ l = 4) by lia.
    destruct Hcases as [-> | [-> | [-> | [-> | ->]]]]; reflexivity.
  - intros Hl. unfold LogLevel_String, DEBUG, INFO, WARN, ERROR, FATAL.
    destruct (Z.eqb_spec l 0); [lia |]. destruct (Z.eqb_spec l 1); [lia |].
    destruct (Z.eqb_spec l 2); [lia |]. destruct (Z.eqb_spec l 3); [lia |].
    destruct (Z.eqb_spec l 4); [lia |]. done.
  - intros l' Hl.
    assert (Hcases : l = 0 ∨ l = 1 ∨ l = 2 ∨ l = 3 ∨ l = 4) by lia.
    unfold LogLevel_String, DEBUG, INFO, WARN, ERROR, FATAL.
    destruct Hcases as [-> | [-> | [-> | [-> | ->]]]]; simpl;
      destruct (Z.eqb_spec l' 0); try done; destruct (Z.eqb_spec l' 1); try done;
      destruct (Z.eqb_spec l' 2); try done; destruct (Z.eqb_spec l' 3); try done;
      destruct (Z.eqb_spec l' 4); try done.
Qed.

(** ** Identifiers in a context *)

(** X2: Each of the three identifiers is read back as it was last set,
    whatever was set for the other two and in whatever order; an
    identifier that was never set, or a value under its key that is not
    a string, reads as the empty string. *)
Theorem context_ids_round_trip (ctx : Context) (id other : string) :
  (GetTraceID (WithTraceID ctx id) = id
   ∧ GetUserID (WithUserID ctx id) = id
   ∧ GetRequestID (WithRequestID ctx id) = id)
  ∧ (GetTraceID (WithUserID ctx other) = GetTraceID ctx
     ∧ GetTraceID (WithRequestID ctx other) = GetTraceID ctx
     ∧ GetUserID (WithTraceID ctx other) = GetUserID ctx
     ∧ GetUserID (WithRequestID ctx other) = GetUserID ctx
     ∧ GetRequestID (WithTraceID ctx other) = GetRequestID ctx
     ∧ GetRequestID (WithUserID ctx other) = GetRequestID ctx)
  ∧ (GetTraceID (WithTraceID (WithTraceID ctx other) id) = id
     ∧ GetUserID (WithUserID (WithUserID ctx other) id) = id
     ∧ GetRequestID (WithRequestID (WithRequestID ctx other) id) = id)
  ∧ (GetTraceID [] = "" ∧ GetUserID [] = "" ∧ GetRequestID [] = "")
  ∧ (∀ key n, getFromContext (context_WithValue ctx key (VInt n)) key = ""
              ∧ getFromContext (context_WithValue ctx key VNil) key = "").
Proof.
  repeat split; try reflexivity;
    unfold getFromContext, context_WithValue; simpl; by rewrite String.eqb_refl.
Qed.

(** ** What a record holds *)

(** X3: A leveled method at or above the threshold logs one record: its
    time is the reading of the clock that the call takes, its level and
    message are those of the call, its service and component those of
    the logger, its fields those of the logger (the nil map when the
    logger has none), and its three identifiers those of the context of
    a context variant, empty for the other methods.  The duration, the
    error and the tags of a record are never set.  The loggers and their
    maps are left as they were. *)
Theorem leveled_method_record rt w a L c :
  loggers w !! a = Some L →
  level L ≤ emit_level c →
  let run := emit rt (Some a) c w in
  let own := default ∅ (maps w !! fields L) in
  ∃ e,
    records (journal run.2) = records (journal w) ++ [e]
    ∧ Timestamp e = rt_clock rt (ticks w)
    ∧ Level e = LogLevel_String (emit_level c)
    ∧ Message e = emit_message rt c
    ∧ Service e = service L
    ∧ Component e = component L
    ∧ TraceID e = GetTraceID (emit_ctx c)
    ∧ UserID e = GetUserID (emit_ctx c)
    ∧ RequestID e = GetRequestID (emit_ctx c)
    ∧ (emit_ctx c = [] → TraceID e = "" ∧ UserID e = "" ∧ RequestID e = "")
    ∧ (own = ∅ → Fields_ e = None)
    ∧ (own ≠ ∅ → Fields_ e = Some own)
    ∧ Duration_ e = None ∧ Error_ e = "" ∧ Tags e = []
    ∧ loggers run.2 = loggers w
    ∧ maps run.2 = maps w.
Proof.
  intros HL Hge run own. subst run.
  destruct (emit_observed rt w a L c HL) as (_ & _ & Habove).
  destruct (Habove Hge) as (line & Hrec & _).
  destruct (emit_store rt w a L c HL) as (Hlog & Hmaps & _).
  eexists. split; [exact Hrec |]. fold own. unfold entry_of. simpl.
  repeat split; try done;
    try (match goal with Hctx : emit_ctx c = [] |- _ => by rewrite Hctx end).
  - intros ->. by rewrite decide_True.
  - intros Hne. by rewrite decide_False.
Qed.

Lemma leveled_method_record_witness :
  let w := example_world INFO {[ "region" := VString "eu" ]} in
  let ctx := WithUserID (WithRequestID [] "r-17") "ann" in
  let run := emit example_runtime (Some 0%nat) (CallWarnContext ctx "quota low") w in
  loggers w !! 0%nat = Some (example_logger INFO)
  ∧ level (example_logger INFO) ≤ emit_level (CallWarnContext ctx "quota low")
  ∧ ∃ e, records (journal run.2) = records (journal w) ++ [e]
         ∧ Level e = "WARN" ∧ RequestID e = "r-17" ∧ UserID e = "ann" ∧ TraceID e = ""
         ∧ Fields_ e = Some {[ "region" := VString "eu" ]} ∧ Error_ e = "".
Proof.
  intros w ctx run.
  assert (HL : loggers w !! 0%nat = Some (example_logger INFO)) by reflexivity.
  assert (Hge : level (example_logger INFO) ≤ emit_level (CallWarnContext ctx "quota low"))
    by (vm_compute; intros Hcmp; discriminate Hcmp).
  split; [exact HL |]. split; [exact Hge |].
  pose proof (leveled_method_record example_runtime w 0%nat (example_logger INFO)
                (CallWarnContext ctx "quota low") HL Hge) as Hrun.
  cbv zeta in Hrun.
  destruct Hrun as (e & Hrec & _ & Hl & _ & _ & _ & Ht & Hu & Hr & _ & _ & Hf & _ & He & _).
  exists e. split; [exact Hrec |]. split; [exact Hl |]. split; [exact Hr |].
  split; [exact Hu |]. split; [exact Ht |]. split; [| exact He].
  apply Hf. vm_compute. intros Heq. discriminate Heq.
Defined.

(** X4: When [runtime.Caller] resolves the call site, the record of a
    leveled method carries the base name of the file and the line that
    it reported; the function is the base name of the name that
    [runtime.FuncForPC] gives, and [unknown] when it gives none, the
    file and the line being kept. *)
Theorem caller_resolved_in_record rt w a L c pc fullFile line :
  loggers w !! a = Some L →
  level L ≤ emit_level c →
  rt_caller rt = Some (pc, fullFile, line) →
  ∃ e,
    records (journal (emit rt (Some a) c w).2) = records (journal w) ++ [e]
    ∧ File e = rt_base rt fullFile
    ∧ Line e = line
    ∧ (rt_funcForPC rt pc = None → Function e = "unknown")
    ∧ (∀ name, rt_funcForPC rt pc = Some name → Function e = rt_base rt name).
Proof.
  intros HL Hge Hcaller.
  destruct (emit_observed rt w a L c HL) as (_ & _ & Habove).
  destruct (Habove Hge) as (_ & Hrec & _).
  eexists. split; [exact Hrec |].
  unfold entry_of, call_site. rewrite Hcaller. simpl.
  split; [reflexivity |]. split; [reflexivity |].
  split; [by intros -> | by intros name ->].
Qed.

Lemma caller_resolved_in_record_witness :
  let rt := mkRuntime (rt_sprintf example_runtime) (rt_marshal_entry example_runtime)
              (rt_marshal_fields example_runtime) (rt_time_format example_runtime)
              (rt_clock example_runtime) (Some (7%nat, "/srv/app/main.go", 42))
              (λ _, None) (λ s, if String.eqb s "/srv/app/main.go" then "main.go" else s)
              (rt_getenv example_runtime) (rt_openFile example_runtime)
              (rt_uuid example_runtime) in
  let w := example_world INFO ∅ in
  loggers w !! 0%nat = Some (example_logger INFO)
  ∧ level (example_logger INFO) ≤ emit_level (CallInfo "ready")
  ∧ rt_caller rt = Some (7%nat, "/srv/app/main.go", 42)
  ∧ ∃ e, records (journal (emit rt (Some 0%nat) (CallInfo "ready") w).2)
         = records (journal w) ++ [e]
         ∧ File e = "main.go" ∧ Line e = 42 ∧ Function e = "unknown".
Proof.
  intros rt w.
  assert (HL : loggers w !! 0%nat = Some (example_logger INFO)) by reflexivity.
  assert (Hge : level (example_logger INFO) ≤ emit_level (CallInfo "ready"))
    by (vm_compute; intros Hcmp; discriminate Hcmp).
  assert (Hc : rt_caller rt = Some (7%nat, "/srv/app/main.go", 42)) by reflexivity.
  split; [exact HL |]. split; [exact Hge |]. split; [exact Hc |].
  destruct (caller_resolved_in_record rt w 0%nat (example_logger INFO) (CallInfo "ready")
              7%nat "/srv/app/main.go" 42 HL Hge Hc) as (e & Hrec & Hf & Hl & Hnone & _).
  exists e. split; [exact Hrec |]. split; [exact Hf |]. split; [exact Hl |].
  apply Hnone. reflexivity.
Defined.

(** ** A sequence of calls *)

(** X5: The calls of a sequence, none of them [Fatal] or [Fatalf], made one
    after the other on a logger: the records logged and the lines
    written are those of the calls at or above the threshold, one for
    each, in the order of the calls, and the lines are appended to what
    the writer of the logger held. *)
Theorem calls_are_logged_in_order rt w a L (cs : list EmitCall) :
  loggers w !! a = Some L →
  Forall (λ c, emit_is_fatal c = false) cs →
  let run := for_each cs (emit rt (Some a)) w in
  let admitted := filter (λ c, level L ≤ emit_level c) cs in
  run.1 = Ret tt
  ∧ ∃ recs lines,
      records (journal run.2) = records (journal w) ++ recs
      ∧ Message <$> recs = emit_message rt <$> admitted
      ∧ Level <$> recs = (λ c, LogLevel_String (emit_level c)) <$> admitted
      ∧ writes (journal run.2) = writes (journal w) ++ ((λ line, (output L, line)) <$> lines)
      ∧ length lines = length admitted
      ∧ Forall (λ line, ∃ s, line = s +:+ newline) lines
      ∧ (lines ≠ [] →
         sinks run.2 !! output L = Some (default [] (sinks w !! output L) ++ lines))
      ∧ (lines = [] → sinks run.2 = sinks w).
Proof.
  intros HL Hcs. revert w HL.
  induction Hcs as [| c cs Hc _ IH]; intros w HL; cbv zeta.
  - simpl. split; [done |]. exists [], []. rewrite !app_nil_r. by repeat split.
  - cbn [for_each].
    destruct (emit_observed rt w a L c HL) as (Hout & Hbelow & Habove).
    destruct (emit_store rt w a L c HL) as (Hlog & _).
    unfold emit_outcome in Hout. rewrite Hc in Hout.
    destruct (emit rt (Some a) c w) as [o w1] eqn:Hrun. simpl in *. subst o.
    unfold bind. rewrite Hrun.
    assert (HL1 : loggers w1 !! a = Some L) by (by rewrite Hlog).
    destruct (IH w1 HL1) as (Hret & recs & lines & Hr & Hm & Hl & Hw & Hlen & Hnl & Hs & Hs0).
    split; [exact Hret |].
    rewrite filter_cons.
    destruct (decide (level L ≤ emit_level c)) as [Hge | Hlt].
    + destruct (Habove Hge) as (line & Hr1 & Hw1 & Hs1).
      eexists (_ :: recs), ((line +:+ newline) :: lines).
      split; [rewrite Hr, Hr1; by rewrite <- app_assoc |].
      split; [cbn [fmap list_fmap]; by rewrite <- Hm |].
      split; [cbn [fmap list_fmap]; by rewrite <- Hl |].
      split; [rewrite Hw, Hw1; by rewrite <- app_assoc |].
      split; [simpl; by rewrite Hlen |].
      split; [constructor; [by eexists | exact Hnl] |].
      split; [| done].
      intros _. destruct lines as [| l0 lines'].
      * rewrite (Hs0 eq_refl), Hs1. by rewrite lookup_insert_eq.
      * rewrite Hs by done. rewrite Hs1, lookup_insert_eq. simpl.
        by rewrite <- app_assoc.
    + destruct Hbelow as (Hr1 & Hw1 & Hs1 & _); [lia |].
      exists recs, lines.
      split; [by rewrite Hr, Hr1 |].
      split; [exact Hm |]. split; [exact Hl |].
      split; [by rewrite Hw, Hw1 |].
      split; [exact Hlen |]. split; [exact Hnl |].
      split; [intros Hne; rewrite Hs by done; by rewrite Hs1 |].
      intros Hnil. by rewrite Hs0, Hs1.
Qed.

Lemma calls_are_logged_in_order_witness :
  let w := example_world WARN ∅ in
  let cs := [CallInfo "ready"; CallError "disk full"; CallDebugf "tick %d" [VInt 1];
             CallWarn "quota low"] in
  let run := for_each cs (emit example_runtime (Some 0%nat)) w in
  loggers w !! 0%nat = Some (example_logger WARN)
  ∧ Forall (λ c, emit_is_fatal c = false) cs
  ∧ ∃ recs, records (journal run.2) = records (journal w) ++ recs
            ∧ Message <$> recs = ["disk full"; "quota low"].
Proof.
  intros w cs run.
  assert (HL : loggers w !! 0%nat = Some (example_logger WARN)) by reflexivity.
  assert (Hcs : Forall (λ c, emit_is_fatal c = false) cs) by (repeat constructor).
  split; [exact HL |]. split; [exact Hcs |].
  pose proof (calls_are_logged_in_order example_runtime w 0%nat (example_logger WARN) cs
                HL Hcs) as Hrun.
  cbv zeta in Hrun. destruct Hrun as (_ & recs & lines & Hr & Hm & _).
  exists recs. split; [exact Hr |]. rewrite Hm. reflexivity.
Defined.

(** ** Derived loggers at work *)

(** X6: [l.WithFields(fs)] followed by a leveled method on the derived
    logger: below the threshold of [l] nothing is logged; otherwise the
    one record carries the service and the component of [l] and, as its
    fields, those of [l] joined with [fs], an entry of [fs] winning over
    an entry of [l] with the same key.  The line goes to the writer of
    [l], and [l] and the maps of the store are as before. *)
Theorem derived_logger_record rt w a L fs c :
  loggers w !! a = Some L →
  let base := default ∅ (maps w !! fields L) in
  let run := bind (Logger_WithFields (Some a) fs) (λ lg, emit rt lg c) w in
  run.1 = emit_outcome c
  ∧ loggers run.2 !! a = Some L
  ∧ (∀ r m, maps w !! r = Some m → maps run.2 !! r = Some m)
  ∧ (emit_level c < level L →
     records (journal run.2) = records (journal w) ∧ sinks run.2 = sinks w)
  ∧ (level L ≤ emit_level c →
     ∃ e line,
       records (journal run.2) = records (journal w) ++ [e]
       ∧ writes (journal run.2) = writes (journal w) ++ [(output L, line +:+ newline)]
       ∧ Service e = service L
       ∧ Component e = component L
       ∧ Message e = emit_message rt c
       ∧ (fs ∪ base = ∅ → Fields_ e = None)
       ∧ (fs ∪ base ≠ ∅ → Fields_ e = Some (fs ∪ base))
       ∧ (∀ k v, fs !! k = Some v → (fs ∪ base) !! k = Some v)
       ∧ (∀ k, fs !! k = None → (fs ∪ base) !! k = base !! k)).
Proof.
  intros HL base run. subst run.
  destruct (derived_emit rt w a L fs c HL) as (Hout & Hlog & Hmaps & Hbelow & Habove).
  split; [exact Hout |]. split; [by apply Hlog |]. split; [exact Hmaps |].
  split.
  - intros Hlt. destruct (Hbelow Hlt) as (Hr & _ & Hs & _). done.
  - intros Hge. destruct (Habove Hge) as (line & Hr & Hw & _).
    eexists _, line. split; [exact Hr |]. split; [exact Hw |].
    fold base. unfold entry_of. simpl.
    split; [done |]. split; [done |]. split; [done |].
    split; [intros ->; by rewrite decide_True |].
    split; [intros Hne; by rewrite decide_False |].
    split.
    + intros k v Hk. by apply lookup_union_Some_l.
    + intros k Hk. by rewrite lookup_union_r.
Qed.

Lemma derived_logger_record_witness :
  let w := example_world INFO {[ "region" := VString "eu"; "zone" := VString "a" ]} in
  let fs : Fields := {[ "region" := VString "us" ]} in
  let run := bind (Logger_WithFields (Some 0%nat) fs)
                  (λ lg, emit example_runtime lg (CallError "disk full")) w in
  loggers w !! 0%nat = Some (example_logger INFO)
  ∧ ∃ e merged,
      records (journal run.2) = records (journal w) ++ [e]
      ∧ Fields_ e = Some merged
      ∧ merged !! "region" = Some (VString "us")
      ∧ merged !! "zone" = Some (VString "a").
Proof.
  intros w fs run.
  assert (HL : loggers w !! 0%nat = Some (example_logger INFO)) by reflexivity.
  split; [exact HL |].
  pose proof (derived_logger_record example_runtime w 0%nat (example_logger INFO) fs
                (CallError "disk full") HL) as Hrun.
  cbv zeta in Hrun.
  destruct Hrun as (_ & _ & _ & _ & Habove).
  destruct Habove as (e & line & Hrec & _ & _ & _ & _ & _ & Hf & Hin & Hout);
    [vm_compute; intros Hcmp; discriminate Hcmp |].
  exists e, (fs ∪ default ∅ (maps w !! fields (example_logger INFO))).
  split; [exact Hrec |]. split.
  - apply Hf. intros Heq.
    assert (Hk : (fs ∪ default ∅ (maps w !! fields (example_logger INFO))) !! "region"
                 = Some (VString "us")) by (apply Hin; reflexivity).
    rewrite Heq in Hk. discriminate Hk.
  - split; [apply Hin; reflexivity |].
    rewrite Hout; reflexivity.
Defined.

(** X7: [WithField], [WithError] with an error and [WithDuration] derive a
    logger whose fields are those of the receiver with the one entry
    set, in place of an entry that the receiver had under that key;
    [WithError] puts the message of the error under [error], and
    [WithDuration] the formatted duration under [duration].
    [WithError] with the nil error returns the receiver itself and
    allocates nothing, also when the receiver is nil. *)
Theorem single_field_derivations (Duration_String : Duration → string) w a L :
  loggers w !! a = Some L →
  let base := default ∅ (maps w !! fields L) in
  (∀ key value,
     derived_from w a L (<[key := value]> base) (Logger_WithField (Some a) key value w))
  ∧ (∀ msg,
       derived_from w a L (<["error" := VString msg]> base)
         (Logger_WithError (Some a) (Some msg) w))
  ∧ (∀ d,
       derived_from w a L (<["duration" := VString (Duration_String d)]> base)
         (Logger_WithDuration Duration_String (Some a) d w))
  ∧ (∀ l w0, Logger_WithError l None w0 = (Ret l, w0)).
Proof.
  intros HL base.
  assert (Hfield : ∀ key value,
            derived_from w a L (<[key := value]> base)
              (Logger_WithField (Some a) key value w)).
  { intros key value. unfold Logger_WithField.
    pose proof (Logger_WithFields_spec w a L {[ key := value ]} HL) as Hwith.
    cbv zeta in Hwith. rewrite Hwith. fold base.
    pose proof (is_fresh (dom (loggers w))) as Hfa.
    pose proof (is_fresh (dom (maps w))) as Hfr.
    eexists _, _. simpl.
    split; [reflexivity |]. split; [exact Hfa |].
    split; [apply lookup_insert_eq |].
    do 5 (split; [reflexivity |]).
    split; [exact Hfr |].
    split; [rewrite lookup_insert_eq; by rewrite insert_union_singleton_l |].
    split.
    { rewrite lookup_insert_ne; [done |]. intros <-. apply Hfa, elem_of_dom. by exists L. }
    split; [| done].
    intros m Hm. rewrite lookup_insert_ne; [done |]. intros Heq. apply Hfr.
    rewrite Heq. apply elem_of_dom. by exists m. }
  split; [exact Hfield |].
  split; [intros msg; apply Hfield |].
  split; [intros d; apply Hfield |].
  reflexivity.
Qed.

Lemma single_field_derivations_witness :
  let w := example_world INFO {[ "error" := VString "stale" ]} in
  loggers w !! 0%nat = Some (example_logger INFO)
  ∧ derived_from w 0%nat (example_logger INFO) {[ "error" := VString "disk full" ]}
      (Logger_WithError (Some 0%nat) (Some "disk full") w).
Proof.
  intros w.
  assert (HL : loggers w !! 0%nat = Some (example_logger INFO)) by reflexivity.
  split; [exact HL |].
  pose proof (single_field_derivations example_Duration_String w 0%nat
                (example_logger INFO) HL) as Hrun.
  cbv zeta in Hrun. destruct Hrun as (_ & Herr & _).
  specialize (Herr "disk full").
  assert (Hfs : <["error" := VString "disk full"]>
                  (default ∅ (maps w !! fields (example_logger INFO)))
                = ({[ "error" := VString "disk full" ]} : Fields)).
  { change (default ∅ (maps w !! fields (example_logger INFO)))
      with ({[ "error" := VString "stale" ]} : Fields).
    rewrite <- (insert_empty (M := gmap string) "error" (VString "stale")).
    rewrite <- (insert_empty (M := gmap string) "error" (VString "disk full")).
    apply insert_insert_eq. }
  rewrite Hfs in Herr. exact Herr.
Defined.

(** X8: [WithComponent] changes the component and nothing else: a leveled
    method on the derived logger passes the threshold of the receiver,
    writes to its writer, and logs the record that the receiver would
    log, fields included, under the new component.  The receiver keeps
    its component, and no map is allocated. *)
Theorem WithComponent_changes_component_only rt w a L name c :
  loggers w !! a = Some L →
  let run := bind (Logger_WithComponent (Some a) name) (λ lg, emit rt lg c) w in
  let D := mkLogger (level L) (service L) name (output L) (format L) (fields L) in
  run.1 = emit_outcome c
  ∧ loggers run.2 = <[fresh (dom (loggers w)) := D]> (loggers w)
  ∧ loggers run.2 !! a = Some L
  ∧ maps run.2 = maps w
  ∧ (emit_level c < level L →
     records (journal run.2) = records (journal w) ∧ sinks run.2 = sinks w)
  ∧ (level L ≤ emit_level c →
     ∃ e line,
       records (journal run.2) = records (journal w) ++ [e]
       ∧ writes (journal run.2) = writes (journal w) ++ [(output L, line +:+ newline)]
       ∧ Component e = name
       ∧ Service e = service L
       ∧ Level e = LogLevel_String (emit_level c)
       ∧ Message e = emit_message rt c
       ∧ Fields_ e = Fields_ (entry_of rt L (default ∅ (maps w !! fields L)) (emit_level c)
                                (emit_message rt c) (emit_ctx c) (rt_clock rt (ticks w)))).
Proof.
  intros HL run D. subst run.
  set (a' := fresh (dom (loggers w))).
  set (w1 := set_loggers (<[a' := D]> (loggers w)) w).
  assert (Hrun : bind (Logger_WithComponent (Some a) name) (λ lg, emit rt lg c) w
                 = emit rt (Some a') c w1).
  { unfold Logger_WithComponent.
    by rewrite bind_assoc, (bind_Ret _ _ _ _ _ (deref_Some _ _ _ HL)). }
  rewrite Hrun. clear Hrun.
  assert (Hne : a' ≠ a).
  { intros Heq. apply (is_fresh (dom (loggers w))). fold a'. rewrite Heq.
    apply elem_of_dom. by exists L. }
  assert (HD : loggers w1 !! a' = Some D) by apply lookup_insert_eq.
  destruct (emit_observed rt w1 a' D c HD) as (Hout & Hbelow & Habove).
  destruct (emit_store rt w1 a' D c HD) as (Hlog & Hmaps & _).
  split; [exact Hout |]. split; [by rewrite Hlog |].
  split; [rewrite Hlog; subst w1; unfold set_loggers; simpl; by rewrite lookup_insert_ne |].
  split; [by rewrite Hmaps |].
  split.
  - intros Hlt. destruct (Hbelow Hlt) as (Hr & _ & Hs & _). done.
  - intros Hge. destruct (Habove Hge) as (line & Hr & Hw & _).
    eexists _, line. split; [exact Hr |]. split; [exact Hw |]. done.
Qed.

Lemma WithComponent_changes_component_only_witness :
  let w := example_world INFO {[ "region" := VString "eu" ]} in
  let run := bind (Logger_WithComponent (Some 0%nat) "storage")
                  (λ lg, emit example_runtime lg (CallInfo "compacted")) w in
  loggers w !! 0%nat = Some (example_logger INFO)
  ∧ loggers run.2 !! 0%nat = Some (example_logger INFO)
  ∧ ∃ e, records (journal run.2) = records (journal w) ++ [e]
         ∧ Component e = "storage" ∧ Service e = "log-ingestion"
         ∧ Fields_ e = Some {[ "region" := VString "eu" ]}.
Proof.
  intros w run.
  assert (HL : loggers w !! 0%nat = Some (example_logger INFO)) by reflexivity.
  split; [exact HL |].
  pose proof (WithComponent_changes_component_only example_runtime w 0%nat
                (example_logger INFO) "storage" (CallInfo "compacted") HL) as Hrun.
  cbv zeta in Hrun.
  destruct Hrun as (_ & _ & Hkeep & _ & _ & Habove).
  split; [exact Hkeep |].
  destruct Habove as (e & line & Hrec & _ & Hc & Hs & _ & _ & Hf);
    [vm_compute; intros Hcmp; discriminate Hcmp |].
  exists e. split; [exact Hrec |]. split; [exact Hc |]. split; [exact Hs |].
  rewrite Hf. reflexivity.
Defined.

(** X9: [SetOutput] redirects the receiver and no other logger: a logger
    derived from the receiver before the call keeps writing to the
    writer the receiver had then, and one derived after it writes to the
    new writer.  The call changes nothing else of the receiver and
    writes nothing. *)
Theorem SetOutput_redirects_receiver_only rt w a L wr fs c :
  loggers w !! a = Some L →
  level L ≤ emit_level c →
  let derive_then_set :=
    bind (Logger_WithFields (Some a) fs)
         (λ d, bind (Logger_SetOutput (Some a) wr) (λ _, emit rt d c)) w in
  let set_then_derive :=
    bind (Logger_SetOutput (Some a) wr)
         (λ _, bind (Logger_WithFields (Some a) fs) (λ d, emit rt d c)) w in
  let set_then_log := bind (Logger_SetOutput (Some a) wr) (λ _, emit rt (Some a) c) w in
  Logger_SetOutput (Some a) wr w =
    (Ret tt,
     set_loggers
       (<[a := mkLogger (level L) (service L) (component L) wr (format L) (fields L)]>
          (loggers w)) w)
  ∧ (∃ line, writes (journal derive_then_set.2)
             = writes (journal w) ++ [(output L, line +:+ newline)])
  ∧ (∃ line, writes (journal set_then_derive.2)
             = writes (journal w) ++ [(wr, line +:+ newline)])
  ∧ (∃ line, writes (journal set_then_log.2)
             = writes (journal w) ++ [(wr, line +:+ newline)]).
Proof.
  intros HL Hge. cbv zeta.
  set (L' := mkLogger (level L) (service L) (component L) wr (format L) (fields L)).
  assert (Hset : ∀ w0 L0, loggers w0 !! a = Some L0 →
            Logger_SetOutput (Some a) wr w0 =
              (Ret tt,
               set_loggers
                 (<[a := mkLogger (level L0) (service L0) (component L0) wr (format L0)
                                  (fields L0)]> (loggers w0)) w0)).
  { intros w0 L0 H0. unfold Logger_SetOutput.
    by rewrite (bind_Ret _ _ _ _ _ (deref_Some _ _ _ H0)). }
  split; [by apply Hset |].
  split; [| split].
  - pose proof (Logger_WithFields_spec w a L fs HL) as Hwith. cbv zeta in Hwith.
    rewrite (bind_Ret _ _ _ _ _ Hwith).
    set (a' := fresh (dom (loggers w))).
    set (D := mkLogger _ _ _ _ _ (fresh (dom (maps w)))).
    set (w1 := set_maps _ _).
    assert (Hne : a' ≠ a).
    { intros Heq. apply (is_fresh (dom (loggers w))). fold a'. rewrite Heq.
      apply elem_of_dom. by exists L. }
    assert (HL1 : loggers w1 !! a = Some L).
    { subst w1. unfold set_maps, set_loggers. simpl. by rewrite lookup_insert_ne. }
    rewrite (bind_Ret _ _ _ _ _ (Hset w1 L HL1)).
    set (w2 := set_loggers _ w1).
    assert (HD : loggers w2 !! a' = Some D).
    { subst w2 w1. unfold set_maps, set_loggers. simpl.
      rewrite lookup_insert_ne by done. apply lookup_insert_eq. }
    destruct (emit_observed rt w2 a' D c HD) as (_ & _ & Habove).
    destruct (Habove Hge) as (line & _ & Hw & _).
    exists line. exact Hw.
  - rewrite (bind_Ret _ _ _ _ _ (Hset w L HL)). fold L'.
    set (w1 := set_loggers _ w).
    assert (HL1 : loggers w1 !! a = Some L') by apply lookup_insert_eq.
    destruct (derived_emit rt w1 a L' fs c HL1) as (_ & _ & _ & _ & Habove).
    destruct (Habove Hge) as (line & _ & Hw & _).
    exists line. exact Hw.
  - rewrite (bind_Ret _ _ _ _ _ (Hset w L HL)). fold L'.
    set (w1 := set_loggers _ w).
    assert (HL1 : loggers w1 !! a = Some L') by apply lookup_insert_eq.
    destruct (emit_observed rt w1 a L' c HL1) as (_ & _ & Habove).
    destruct (Habove Hge) as (line & _ & Hw & _).
    exists line. exact Hw.
Qed.

Lemma SetOutput_redirects_receiver_only_witness :
  let w := example_world INFO ∅ in
  let fs : Fields := {[ "job" := VString "compaction" ]} in
  let c := CallInfo "done" in
  loggers w !! 0%nat = Some (example_logger INFO)
  ∧ level (example_logger INFO) ≤ emit_level c
  ∧ (∃ line,
       writes (journal (bind (Logger_WithFields (Some 0%nat) fs)
                          (λ d, bind (Logger_SetOutput (Some 0%nat) 5%nat)
                                     (λ _, emit example_runtime d c)) w).2)
       = writes (journal w) ++ [(Stdout, line +:+ newline)])
  ∧ (∃ line,
       writes (journal (bind (Logger_SetOutput (Some 0%nat) 5%nat)
                          (λ _, bind (Logger_WithFields (Some 0%nat) fs)
                                     (λ d, emit example_runtime d c)) w).2)
       = writes (journal w) ++ [(5%nat, line +:+ newline)]).
Proof.
  intros w fs c.
  assert (HL : loggers w !! 0%nat = Some (example_logger INFO)) by reflexivity.
  assert (Hge : level (example_logger INFO) ≤ emit_level c)
    by (vm_compute; intros Hcmp; discriminate Hcmp).
  split; [exact HL |]. split; [exact Hge |].
  pose proof (SetOutput_redirects_receiver_only example_runtime w 0%nat (example_logger INFO)
                5%nat fs c HL Hge) as Hrun.
  cbv zeta in Hrun. destruct Hrun as (_ & Hold & Hnew & _).
  split; [exact Hold | exact Hnew].
Defined.

(** ** Construction and the environment *)

(** X10: [New] never fails and never logs: it returns a logger at a new
    address, with a map of its own that holds the fields of the
    configuration; a level or a format that it does not know becomes
    INFO or JSON; the writer is the standard output when the
    configuration names no file or names [stdout], and also when the
    file it names cannot be opened, which goes unreported; otherwise it
    is that file.  The loggers and maps of the store, the writers and
    the journal are as before. *)
Theorem New_never_fails rt config w :
  let run := New rt config w in
  ∃ a L,
    run.1 = Ret (Some a)
    ∧ (a ∉ dom (loggers w))
    ∧ loggers run.2 !! a = Some L
    ∧ level L = parseLogLevel (cfg_Level config)
    ∧ format L = parseLogFormat (cfg_Format config)
    ∧ format L ∈ [JSON; TEXT]
    ∧ service L = cfg_Service config
    ∧ component L = cfg_Component config
    ∧ (cfg_Output config = "" ∨ cfg_Output config = "stdout" → output L = Stdout)
    ∧ (rt_openFile rt (cfg_Output config) = None → output L = Stdout)
    ∧ (∀ file, cfg_Output config ≠ "" → cfg_Output config ≠ "stdout" →
               rt_openFile rt (cfg_Output config) = Some file → output L = file)
    ∧ (fields L ∉ dom (maps w))
    ∧ maps run.2 !! fields L = Some (default ∅ (cfg_Fields config))
    ∧ (∀ b, b ∈ dom (loggers w) → loggers run.2 !! b = loggers w !! b)
    ∧ (∀ r, r ∈ dom (maps w) → maps run.2 !! r = maps w !! r)
    ∧ sinks run.2 = sinks w
    ∧ journal run.2 = journal w
    ∧ defaultLogger run.2 = defaultLogger w.
Proof.
  intros run. subst run. rewrite New_run.
  pose proof (is_fresh (dom (loggers w))) as Hfa.
  pose proof (is_fresh (dom (maps w))) as Hfr.
  eexists _, _. simpl.
  split; [reflexivity |]. split; [exact Hfa |].
  split; [apply lookup_insert_eq |]. simpl.
  split; [reflexivity |]. split; [reflexivity |].
  split.
  { unfold parseLogFormat. destruct (String.eqb _ "JSON"); [set_solver |].
    destruct (String.eqb _ "TEXT"); set_solver. }
  split; [reflexivity |]. split; [reflexivity |].
  unfold New_output.
  split.
  { intros [-> | ->]; reflexivity. }
  split.
  { intros ->. by destruct (negb _ && negb _). }
  split.
  { intros file Hne1 Hne2 ->.
    destruct (String.eqb_spec (cfg_Output config) ""); [done |].
    by destruct (String.eqb_spec (cfg_Output config) "stdout"). }
  split; [exact Hfr |].
  split; [apply lookup_insert_eq |].
  split.
  { intros b Hb. rewrite lookup_insert_ne; [done |]. by intros <-. }
  split.
  { intros r Hr. rewrite lookup_insert_ne; [done |]. by intros <-. }
  done.
Qed.

(** X11: [NewFromEnv] takes the level, the format and the writer from
    LOG_LEVEL, LOG_FORMAT and LOG_OUTPUT; a variable that is unset or
    empty counts as INFO, JSON and the standard output.  The logger has
    the given service and component and no fields. *)
Theorem NewFromEnv_reads_environment rt service_name component_name w :
  let run := NewFromEnv rt service_name component_name w in
  ∃ a L,
    run.1 = Ret (Some a)
    ∧ (a ∉ dom (loggers w))
    ∧ loggers run.2 !! a = Some L
    ∧ service L = service_name
    ∧ component L = component_name
    ∧ maps run.2 !! fields L = Some ∅
    ∧ (rt_getenv rt "LOG_LEVEL" = "" → level L = INFO)
    ∧ (rt_getenv rt "LOG_LEVEL" ≠ "" → level L = parseLogLevel (rt_getenv rt "LOG_LEVEL"))
    ∧ (rt_getenv rt "LOG_FORMAT" = "" → format L = JSON)
    ∧ (rt_getenv rt "LOG_FORMAT" ≠ "" →
       format L = parseLogFormat (rt_getenv rt "LOG_FORMAT"))
    ∧ (format L = TEXT ↔ rt_getenv rt "LOG_FORMAT" = "TEXT")
    ∧ (rt_getenv rt "LOG_OUTPUT" = "" → output L = Stdout)
    ∧ (∀ file, rt_getenv rt "LOG_OUTPUT" ≠ "" → rt_getenv rt "LOG_OUTPUT" ≠ "stdout" →
               rt_openFile rt (rt_getenv rt "LOG_OUTPUT") = Some file → output L = file)
    ∧ sinks run.2 = sinks w
    ∧ journal run.2 = journal w.
Proof.
  intros run. subst run. unfold NewFromEnv. rewrite New_run.
  eexists _, _. simpl.
  split; [reflexivity |]. split; [apply is_fresh |].
  split; [apply lookup_insert_eq |]. simpl.
  split; [reflexivity |]. split; [reflexivity |].
  split; [apply lookup_insert_eq |].
  unfold getEnv, New_output. simpl.
  split; [by intros -> |].
  split; [intros Hne; by destruct (String.eqb_spec (rt_getenv rt "LOG_LEVEL") "") |].
  split; [by intros -> |].
  split; [intros Hne; by destruct (String.eqb_spec (rt_getenv rt "LOG_FORMAT") "") |].
  split.
  { unfold parseLogFormat, JSON, TEXT.
    destruct (String.eqb_spec (rt_getenv rt "LOG_FORMAT") "") as [-> | Hne]; simpl;
      [split; intros Heq; discriminate Heq |].
    destruct (String.eqb_spec (rt_getenv rt "LOG_FORMAT") "JSON") as [-> | _];
      [split; intros Heq; discriminate Heq |].
    destruct (String.eqb_spec (rt_getenv rt "LOG_FORMAT") "TEXT") as [-> | Hnt];
      [done |].
    split; [intros Heq; discriminate Heq | done]. }
  split; [by intros -> |].
  split; [| done].
  intros file Hne1 Hne2 Hopen.
  destruct (String.eqb_spec (rt_getenv rt "LOG_OUTPUT") ""); [done |]. simpl.
  destruct (String.eqb_spec (rt_getenv rt "LOG_OUTPUT") ""); [done |].
  destruct (String.eqb_spec (rt_getenv rt "LOG_OUTPUT") "stdout"); [done |]. simpl.
  by rewrite Hopen.
Qed.

(** ** The default logger at work *)

Lemma package_call_with_default rt w a c :
  defaultLogger w = Some a →
  package_call rt c w = emit rt (Some a) (package_emit c) w.
Proof.
  intros Hd.
  destruct c; simpl;
    unfold Debug, Debugf, Info, Infof, Warn, Warnf, Error, Errorf, Fatal, Fatalf;
    unfold bind at 1, get_defaultLogger; by rewrite Hd.
Qed.

(** X12: After [InitDefault] the package-level functions are the leveled
    methods of the logger that it made from the environment: a function
    below the threshold of that logger logs nothing, any other logs one
    record, with the service and the component given to [InitDefault]
    and no fields, and writes one line to the writer of that logger;
    [Fatal] and [Fatalf] then exit.  With LOG_LEVEL unset the threshold
    is INFO. *)
Theorem InitDefault_then_package_call rt service_name component_name w c :
  let w1 := (InitDefault rt service_name component_name w).2 in
  let run := package_call rt c w1 in
  ∃ a L,
    defaultLogger w1 = Some a
    ∧ loggers w1 !! a = Some L
    ∧ (rt_getenv rt "LOG_LEVEL" = "" → level L = INFO)
    ∧ records (journal w1) = records (journal w)
    ∧ sinks w1 = sinks w
    ∧ run.1 = emit_outcome (package_emit c)
    ∧ (emit_level (package_emit c) < level L →
       records (journal run.2) = records (journal w) ∧ sinks run.2 = sinks w)
    ∧ (level L ≤ emit_level (package_emit c) →
       ∃ e line,
         records (journal run.2) = records (journal w) ++ [e]
         ∧ Level e = LogLevel_String (emit_level (package_emit c))
         ∧ Message e = emit_message rt (package_emit c)
         ∧ Service e = service_name
         ∧ Component e = component_name
         ∧ Fields_ e = None
         ∧ writes (journal run.2) = writes (journal w) ++ [(output L, line +:+ newline)]).
Proof.
  intros w1 run. subst run w1.
  unfold InitDefault, NewFromEnv.
  rewrite (bind_Ret _ _ _ _ _ (New_run rt _ w)). cbn [fst snd].
  set (a := fresh (dom (loggers w))).
  set (L := mkLogger _ _ _ _ _ _).
  set (w1 := set_defaultLogger _ _).
  assert (Hd : defaultLogger w1 = Some a) by reflexivity.
  assert (HL : loggers w1 !! a = Some L) by apply lookup_insert_eq.
  assert (Hm : maps w1 !! fields L = Some ∅) by apply lookup_insert_eq.
  exists a, L.
  split; [exact Hd |]. split; [exact HL |].
  split.
  { intros Henv. subst L. simpl. unfold getEnv. by rewrite Henv. }
  split; [reflexivity |]. split; [reflexivity |].
  rewrite (package_call_with_default rt w1 a c Hd).
  destruct (emit_observed rt w1 a L (package_emit c) HL) as (Hout & Hbelow & Habove).
  split; [exact Hout |]. split.
  - intros Hlt. destruct (Hbelow Hlt) as (Hr & _ & Hs & _).
    split; [exact Hr | exact Hs].
  - intros Hge. destruct (Habove Hge) as (line & Hr & Hw & _).
    eexists _, line. split; [exact Hr |].
    rewrite Hm. simpl. done.
Qed.

(** ** Encoding a record *)

(** The line that [formatTextEntry] returns does not depend on the
    world it runs in. *)
Lemma formatTextEntry_result rt entry w1 w2 :
  (formatTextEntry rt entry w1).1 = (formatTextEntry rt entry w2).1.
Proof.
  unfold formatTextEntry, bind, Sprintf, note, ret. simpl.
  destruct (negb (String.eqb (TraceID entry) "")),
           (negb (String.eqb (RequestID entry) "")),
           (negb (String.eqb (UserID entry) "")); simpl;
    (destruct (Fields_ entry) as [fs |]; [| reflexivity]);
    (destruct (0 <? Z.of_nat (size fs)); [| reflexivity]); simpl;
    by destruct (rt_marshal_fields rt fs).
Qed.

(** X13: [writeEntry] writes one line whatever happens: the bytes of
    [json.Marshal] in the JSON format; when [json.Marshal] fails, a
    record made up for the failure, with the message of the error and
    the time of a new reading of the clock, and the record itself is
    lost; the line of [formatTextEntry] in the TEXT format; and the
    empty line for a logger whose format is neither JSON nor TEXT. *)
Theorem writeEntry_one_line_in_every_case rt w a L entry :
  loggers w !! a = Some L →
  let run := Logger_writeEntry rt (Some a) entry w in
  run.1 = Ret tt
  ∧ ∃ line,
      writes (journal run.2) = writes (journal w) ++ [(output L, line +:+ newline)]
      ∧ sinks run.2 =
          <[output L := default [] (sinks w !! output L) ++ [line +:+ newline]]> (sinks w)
      ∧ (format L = JSON → ∀ bytes, rt_marshal_entry rt entry = inl bytes →
         line = bytes ∧ ticks run.2 = ticks w)
      ∧ (format L = JSON → ∀ err, rt_marshal_entry rt entry = inr err →
         line = rt_sprintf rt marshal_failure_format
                  [VString err; VString (rt_time_format rt RFC3339 (rt_clock rt (ticks w)))]
         ∧ ticks run.2 = S (ticks w))
      ∧ (format L = TEXT → (formatTextEntry rt entry w).1 = Ret line)
      ∧ (format L ≠ JSON → format L ≠ TEXT → line = "" ∧ ticks run.2 = ticks w).
Proof.
  intros HL run. subst run.
  destruct (Z.eqb_spec (format L) JSON) as [HJ | HJ];
    [destruct (rt_marshal_entry rt entry) as [bytes | err] eqn:Hm
    | destruct (Z.eqb_spec (format L) TEXT) as [HT | HT]].
  - assert (Hrun : Logger_writeEntry rt (Some a) entry w =
               (Ret tt, after_write w (output L) (bytes +:+ newline) 0
                          [EvEntry entry; EvMarshal; EvWrite (output L) (bytes +:+ newline)])).
    { unfold Logger_writeEntry. rewrite (bind_Ret _ _ _ _ _ (deref_Some _ _ _ HL)).
      rewrite HJ. simpl. rewrite Hm.
      unfold bind, note, ret, Fprintln, after_write, set_journal, set_sinks, set_ticks.
      simpl. by rewrite <- !app_assoc, Nat.add_0_r. }
    rewrite Hrun. split; [done |]. exists bytes. journal_simpl.
    split; [done |]. split; [done |].
    split; [intros _ b [= <-]; split; [done | lia] |].
    split; [intros _ e0 [=] |].
    split; [intros HT; rewrite HJ in HT; discriminate HT | done].
  - set (line := rt_sprintf rt marshal_failure_format
                   [VString err; VString (rt_time_format rt RFC3339 (rt_clock rt (ticks w)))]).
    assert (Hrun : Logger_writeEntry rt (Some a) entry w =
               (Ret tt, after_write w (output L) (line +:+ newline) 1
                          [EvEntry entry; EvMarshal; EvNow (rt_clock rt (ticks w));
                           EvSprintf marshal_failure_format
                             [VString err;
                              VString (rt_time_format rt RFC3339 (rt_clock rt (ticks w)))];
                           EvWrite (output L) (line +:+ newline)])).
    { unfold Logger_writeEntry. rewrite (bind_Ret _ _ _ _ _ (deref_Some _ _ _ HL)).
      rewrite HJ. simpl. rewrite Hm.
      unfold bind, note, ret, Fprintln, time_Now, Sprintf, after_write, set_journal,
        set_sinks, set_ticks.
      simpl. by rewrite <- !app_assoc, Nat.add_1_r. }
    rewrite Hrun. split; [done |]. exists line. journal_simpl.
    split; [done |]. split; [done |].
    split; [intros _ b [=] |].
    split; [intros _ e0 [= <-]; split; [done | lia] |].
    split; [intros HT; rewrite HJ in HT; discriminate HT | done].
  - set (w1 := set_journal (journal w ++ [EvEntry entry]) w).
    destruct (encodes_formatTextEntry rt entry w1) as (line & evs & n & Htext & Hevs).
    destruct (encoding_no_records evs Hevs) as (_ & Hw & _).
    assert (Hrun : Logger_writeEntry rt (Some a) entry w =
               (Ret tt, after_write w (output L) (line +:+ newline) n
                          ([EvEntry entry] ++ evs ++ [EvWrite (output L) (line +:+ newline)]))).
    { unfold Logger_writeEntry. rewrite (bind_Ret _ _ _ _ _ (deref_Some _ _ _ HL)).
      destruct (Z.eqb_spec (format L) JSON); [done |].
      destruct (Z.eqb_spec (format L) TEXT); [| done].
      unfold bind at 1, note at 1. fold w1.
      rewrite (bind_Ret _ _ _ _ _ Htext).
      unfold Fprintln, after_write, set_journal, set_sinks, set_ticks. subst w1. simpl.
      by rewrite <- !app_assoc. }
    rewrite Hrun. split; [done |]. exists line. journal_simpl. rewrite Hw. simpl.
    split; [done |]. split; [done |].
    split; [intros; congruence |]. split; [intros; congruence |].
    split; [| intros; congruence].
    intros _. rewrite (formatTextEntry_result rt entry w w1). by rewrite Htext.
  - assert (Hrun : Logger_writeEntry rt (Some a) entry w =
               (Ret tt, after_write w (output L) (EmptyString +:+ newline) 0
                          [EvEntry entry; EvWrite (output L) (EmptyString +:+ newline)])).
    { unfold Logger_writeEntry. rewrite (bind_Ret _ _ _ _ _ (deref_Some _ _ _ HL)).
      destruct (Z.eqb_spec (format L) JSON); [done |].
      destruct (Z.eqb_spec (format L) TEXT); [done |].
      unfold bind, note, ret, Fprintln, after_write, set_journal, set_sinks, set_ticks.
      simpl. by rewrite <- !app_assoc, Nat.add_0_r. }
    rewrite Hrun. split; [done |]. exists EmptyString. journal_simpl.
    split; [done |]. split; [done |].
    split; [intros; congruence |]. split; [intros; congruence |].
    split; [intros; congruence |].
    intros _ _. split; [done | lia].
Qed.

Lemma writeEntry_one_line_in_every_case_witness :
  let rt := mkRuntime (rt_sprintf example_runtime) (λ _, inr "unsupported value")
              (rt_marshal_fields example_runtime) (rt_time_format example_runtime)
              (rt_clock example_runtime) (rt_caller example_runtime)
              (rt_funcForPC example_runtime) (rt_base example_runtime)
              (rt_getenv example_runtime) (rt_openFile example_runtime)
              (rt_uuid example_runtime) in
  let w := example_world INFO ∅ in
  let e := entry_of rt (example_logger INFO) ∅ INFO "ready" [] 0 in
  loggers w !! 0%nat = Some (example_logger INFO)
  ∧ writes (journal (Logger_writeEntry rt (Some 0%nat) e w).2)
    = [(Stdout, marshal_failure_format +:+ newline)].
Proof.
  intros rt w e.
  assert (HL : loggers w !! 0%nat = Some (example_logger INFO)) by reflexivity.
  split; [exact HL |].
  pose proof (writeEntry_one_line_in_every_case rt w 0%nat (example_logger INFO) e HL)
    as Hrun.
  cbv zeta in Hrun. destruct Hrun as (_ & line & Hw & _ & _ & Herr & _).
  destruct (Herr eq_refl "unsupported value" eq_refl) as (Hline & _).
  rewrite Hw, Hline. reflexivity.
Defined.

(** X14: In the TEXT format the fields are an optional tail of the line: for
    a record whose fields are the nil map or the empty map, or cannot be
    marshalled, [formatTextEntry] returns the line of the same record
    without fields, and the failure of [json.Marshal] goes unreported.
    It always returns, and it writes nothing. *)
Theorem text_line_drops_fields rt entry w :
  (∃ line, (formatTextEntry rt entry w).1 = Ret line)
  ∧ sinks (formatTextEntry rt entry w).2 = sinks w
  ∧ writes (journal (formatTextEntry rt entry w).2) = writes (journal w)
  ∧ (Fields_ entry = None ∨ Fields_ entry = Some ∅
     ∨ (∃ fs err, Fields_ entry = Some fs ∧ rt_marshal_fields rt fs = inr err) →
     (formatTextEntry rt entry w).1 = (formatTextEntry rt (without_fields entry) w).1).
Proof.
  destruct (encodes_formatTextEntry rt entry w) as (line & evs & n & Hrun & Hevs).
  destruct (encoding_no_records evs Hevs) as (_ & Hw & _).
  split; [exists line; by rewrite Hrun |].
  split; [by rewrite Hrun |].
  split; [rewrite Hrun; journal_simpl; by rewrite Hw, app_nil_r |].
  clear Hrun. intros Hf.
  unfold formatTextEntry, without_fields. simpl.
  unfold bind, Sprintf, note, ret. simpl.
  destruct (negb (String.eqb (TraceID entry) "")),
           (negb (String.eqb (RequestID entry) "")),
           (negb (String.eqb (UserID entry) "")); simpl;
    (destruct Hf as [-> | [-> | (fs & err & -> & Hm)]];
     [reflexivity | reflexivity |]);
    (destruct (0 <? Z.of_nat (size fs)); [| reflexivity]); simpl; by rewrite Hm.
Qed.

(** ** The convenience methods *)

(** X15: [LogBusinessEvent] logs at INFO, through a logger derived from the
    receiver, the fields of the receiver joined with [business_event],
    [entity_id] and the fields of the caller.  The fields of the caller
    come last: one of them named [business_event] or [entity_id]
    replaces the event or the entity of the call, and any of them
    replaces a field of the receiver with the same key.  Above the
    threshold INFO nothing is logged. *)
Theorem LogBusinessEvent_fields rt w a L event entityID fs :
  loggers w !! a = Some L →
  let base := default ∅ (maps w !! fields L) in
  let run := Logger_LogBusinessEvent rt (Some a) event entityID fs w in
  run.1 = Ret tt
  ∧ loggers run.2 !! a = Some L
  ∧ (INFO < level L →
     records (journal run.2) = records (journal w) ∧ sinks run.2 = sinks w)
  ∧ (level L ≤ INFO →
     ∃ e merged line,
       records (journal run.2) = records (journal w) ++ [e]
       ∧ writes (journal run.2) = writes (journal w) ++ [(output L, line +:+ newline)]
       ∧ Level e = "INFO"
       ∧ Message e = "Business event occurred"
       ∧ Fields_ e = Some merged
       ∧ merged !! "business_event" = Some (default (VString event) (fs !! "business_event"))
       ∧ merged !! "entity_id" = Some (default (VString entityID) (fs !! "entity_id"))
       ∧ (∀ k v, fs !! k = Some v → merged !! k = Some v)
       ∧ (∀ k, k ≠ "business_event" → k ≠ "entity_id" → fs !! k = None →
               merged !! k = base !! k)).
Proof.
  intros HL base run. subst run.
  unfold Logger_LogBusinessEvent.
  set (lit := (list_to_map [("business_event", VString event);
                            ("entity_id", VString entityID)] : Fields)).
  rewrite copy_into_union.
  destruct (derived_emit rt w a L (fs ∪ lit) (CallInfo "Business event occurred") HL)
    as (Hout & Hlog & _ & Hbelow & Habove).
  split; [exact Hout |]. split; [by apply Hlog |].
  split.
  - intros Hgt. destruct (Hbelow Hgt) as (Hr & _ & Hs & _). done.
  - intros Hle. destruct (Habove Hle) as (line & Hr & Hw & _).
    fold base in Hr.
    assert (Hev : lit !! "business_event" = Some (VString event)) by reflexivity.
    assert (Hen : lit !! "entity_id" = Some (VString entityID)) by reflexivity.
    assert (Hother : ∀ k, k ≠ "business_event" → k ≠ "entity_id" → lit !! k = None).
    { intros k H1 H2. subst lit. simpl.
      rewrite lookup_insert_ne by done. rewrite lookup_insert_ne by done.
      apply lookup_empty. }
    assert (Hbe : (fs ∪ lit ∪ base) !! "business_event"
                  = Some (default (VString event) (fs !! "business_event"))).
    { rewrite <- (assoc_L (∪)), lookup_union.
      destruct (fs !! "business_event") as [v |] eqn:Hv; simpl.
      - by destruct ((lit ∪ base) !! "business_event").
      - rewrite (left_id None _). by apply lookup_union_Some_l. }
    eexists _, (fs ∪ lit ∪ base), line.
    split; [exact Hr |]. split; [exact Hw |].
    unfold entry_of. simpl.
    split; [done |]. split; [done |].
    split.
    { rewrite decide_False; [done |]. intros Heq. rewrite Heq in Hbe. by rewrite lookup_empty in Hbe. }
    split; [exact Hbe |].
    split.
    { rewrite <- (assoc_L (∪)), lookup_union.
      destruct (fs !! "entity_id") as [v |] eqn:Hv; simpl.
      - by destruct ((lit ∪ base) !! "entity_id").
      - rewrite (left_id None _). by apply lookup_union_Some_l. }
    split.
    { intros k v Hk. rewrite <- (assoc_L (∪)). by apply lookup_union_Some_l. }
    intros k H1 H2 Hk.
    rewrite <- (assoc_L (∪)), lookup_union_r by done.
    by rewrite lookup_union_r by (by apply Hother).
Qed.

Lemma LogBusinessEvent_fields_witness :
  let w := example_world INFO {[ "region" := VString "eu" ]} in
  let fs : Fields := {[ "business_event" := VString "overridden"; "log_level" := VString "warn" ]} in
  let run := Logger_LogBusinessEvent example_runtime (Some 0%nat) "log_ingested" "r-17" fs w in
  loggers w !! 0%nat = Some (example_logger INFO)
  ∧ ∃ e merged,
      records (journal run.2) = records (journal w) ++ [e]
      ∧ Fields_ e = Some merged
      ∧ merged !! "business_event" = Some (VString "overridden")
      ∧ merged !! "entity_id" = Some (VString "r-17")
      ∧ merged !! "region" = Some (VString "eu").
Proof.
  intros w fs run.
  assert (HL : loggers w !! 0%nat = Some (example_logger INFO)) by reflexivity.
  split; [exact HL |].
  pose proof (LogBusinessEvent_fields example_runtime w 0%nat (example_logger INFO)
                "log_ingested" "r-17" fs HL) as Hrun.
  cbv zeta in Hrun. destruct Hrun as (_ & _ & _ & Habove).
  destruct Habove as (e & merged & line & Hrec & _ & _ & _ & Hf & Hev & Hen & _ & Hbase);
    [vm_compute; intros Hcmp; discriminate Hcmp |].
  exists e, merged. split; [exact Hrec |]. split; [exact Hf |].
  split; [exact Hev |]. split; [exact Hen |].
  rewrite Hbase; [reflexivity | | | reflexivity]; intros Heq; discriminate Heq.
Defined.

(** X16: [LogHTTPRequest] logs at INFO and [LogDatabaseOperation] at DEBUG,
    each through a logger derived from the receiver, with the arguments
    of the call as fields and the duration formatted as a string.  A
    logger with the threshold INFO, the default, therefore logs requests
    and no database operation.  Both derive the logger before the
    threshold is looked at. *)
Theorem LogHTTPRequest_and_LogDatabaseOperation (Duration_String : Duration → string)
    rt w a L method path userAgent remoteAddr status duration operation table rows :
  loggers w !! a = Some L →
  let http := Logger_LogHTTPRequest Duration_String rt (Some a) method path userAgent
                remoteAddr status duration w in
  let db := Logger_LogDatabaseOperation Duration_String rt (Some a) operation table
              duration rows w in
  http.1 = Ret tt
  ∧ db.1 = Ret tt
  ∧ (fresh (dom (loggers w)) ∈ dom (loggers http.2)
     ∧ fresh (dom (loggers w)) ∈ dom (loggers db.2))
  ∧ (INFO < level L → records (journal http.2) = records (journal w))
  ∧ (DEBUG < level L → records (journal db.2) = records (journal w))
  ∧ (level L ≤ INFO →
     ∃ e fs,
       records (journal http.2) = records (journal w) ++ [e]
       ∧ Level e = "INFO"
       ∧ Message e = "HTTP request processed"
       ∧ Fields_ e = Some fs
       ∧ fs !! "http_method" = Some (VString method)
       ∧ fs !! "http_path" = Some (VString path)
       ∧ fs !! "http_user_agent" = Some (VString userAgent)
       ∧ fs !! "http_remote_addr" = Some (VString remoteAddr)
       ∧ fs !! "http_status_code" = Some (VInt status)
       ∧ fs !! "duration" = Some (VString (Duration_String duration)))
  ∧ (level L ≤ DEBUG →
     ∃ e fs,
       records (journal db.2) = records (journal w) ++ [e]
       ∧ Level e = "DEBUG"
       ∧ Message e = "Database operation completed"
       ∧ Fields_ e = Some fs
       ∧ fs !! "db_operation" = Some (VString operation)
       ∧ fs !! "db_table" = Some (VString table)
       ∧ fs !! "db_rows_affected" = Some (VInt rows)
       ∧ fs !! "duration" = Some (VString (Duration_String duration))).
Proof.
  intros HL http db. subst http db.
  unfold Logger_LogHTTPRequest, Logger_LogDatabaseOperation.
  set (hf := (list_to_map _ : Fields)).
  set (df := (list_to_map _ : Fields)).
  destruct (derived_emit rt w a L hf (CallInfo "HTTP request processed") HL)
    as (Hout1 & _ & _ & Hbelow1 & Habove1).
  destruct (derived_emit rt w a L df (CallDebug "Database operation completed") HL)
    as (Hout2 & _ & _ & Hbelow2 & Habove2).
  assert (Halloc : ∀ fs c,
            fresh (dom (loggers w))
            ∈ dom (loggers (bind (Logger_WithFields (Some a) fs) (λ lg, emit rt lg c) w).2)).
  { intros fs c.
    pose proof (Logger_WithFields_spec w a L fs HL) as Hwith. cbv zeta in Hwith.
    rewrite (bind_Ret _ _ _ _ _ Hwith).
    match goal with
    | |- context [emit rt (Some ?a') c ?w1] =>
        assert (HD : ∃ D, loggers w1 !! a' = Some D)
          by (eexists; unfold set_maps, set_loggers; simpl; apply lookup_insert_eq);
        destruct HD as [D HD];
        destruct (emit_store rt w1 a' D c HD) as (-> & _)
    end.
    apply elem_of_dom. unfold set_maps, set_loggers. simpl.
    rewrite lookup_insert_eq. by eexists. }
  split; [exact Hout1 |]. split; [exact Hout2 |].
  split; [split; [exact (Halloc hf (CallInfo "HTTP request processed"))
                 | exact (Halloc df (CallDebug "Database operation completed"))] |].
  split; [intros Hgt; by destruct (Hbelow1 Hgt) as (Hr & _) |].
  split; [intros Hgt; by destruct (Hbelow2 Hgt) as (Hr & _) |].
  split.
  - intros Hle. destruct (Habove1 Hle) as (line & Hr & _).
    assert (Hin : ∀ k v, hf !! k = Some v →
              (hf ∪ default ∅ (maps w !! fields L)) !! k = Some v)
      by (intros k v Hk; by apply lookup_union_Some_l).
    eexists _, (hf ∪ default ∅ (maps w !! fields L)).
    split; [exact Hr |]. unfold entry_of. simpl.
    split; [done |]. split; [done |].
    split.
    { rewrite decide_False; [done |]. intros Heq.
      assert (Hk : (hf ∪ default ∅ (maps w !! fields L)) !! "duration"
                   = Some (VString (Duration_String duration))) by (apply Hin; reflexivity).
      rewrite Heq in Hk. by rewrite lookup_empty in Hk. }
    repeat split; apply Hin; reflexivity.
  - intros Hle. destruct (Habove2 Hle) as (line & Hr & _).
    assert (Hin : ∀ k v, df !! k = Some v →
              (df ∪ default ∅ (maps w !! fields L)) !! k = Some v)
      by (intros k v Hk; by apply lookup_union_Some_l).
    eexists _, (df ∪ default ∅ (maps w !! fields L)).
    split; [exact Hr |]. unfold entry_of. simpl.
    split; [done |]. split; [done |].
    split.
    { rewrite decide_False; [done |]. intros Heq.
      assert (Hk : (df ∪ default ∅ (maps w !! fields L)) !! "duration"
                   = Some (VString (Duration_String duration))) by (apply Hin; reflexivity).
      rewrite Heq in Hk. by rewrite lookup_empty in Hk. }
    repeat split; apply Hin; reflexivity.
Qed.

Lemma LogHTTPRequest_and_LogDatabaseOperation_witness :
  let w := example_world INFO ∅ in
  let http := Logger_LogHTTPRequest example_Duration_String example_runtime (Some 0%nat)
                "POST" "/ingest" "curl/8.5" "10.0.0.7:51034" 202 (1500 * Millisecond) w in
  let db := Logger_LogDatabaseOperation example_Duration_String example_runtime (Some 0%nat)
              "INSERT" "logs" (1500 * Millisecond) 1 w in
  loggers w !! 0%nat = Some (example_logger INFO)
  ∧ records (journal db.2) = records (journal w)
  ∧ ∃ e fs, records (journal http.2) = records (journal w) ++ [e]
            ∧ Fields_ e = Some fs
            ∧ fs !! "http_status_code" = Some (VInt 202)
            ∧ fs !! "duration" = Some (VString "1.5s").
Proof.
  intros w http db.
  assert (HL : loggers w !! 0%nat = Some (example_logger INFO)) by reflexivity.
  split; [exact HL |].
  pose proof (LogHTTPRequest_and_LogDatabaseOperation example_Duration_String example_runtime
                w 0%nat (example_logger INFO) "POST" "/ingest" "curl/8.5" "10.0.0.7:51034"
                202 (1500 * Millisecond) "INSERT" "logs" 1 HL) as Hrun.
  cbv zeta in Hrun. destruct Hrun as (_ & _ & _ & _ & Hdb & Hhttp & _).
  split; [apply Hdb; reflexivity |].
  destruct Hhttp as (e & fs & Hrec & _ & _ & Hf & _ & _ & _ & _ & Hs & Hd);
    [vm_compute; intros Hcmp; discriminate Hcmp |].
  exists e, fs. split; [exact Hrec |]. split; [exact Hf |]. split; [exact Hs | exact Hd].
Defined.

(** ** Package [models] *)

(** X17: [Validate] checks the message first and the level second, and
    returns at the first check that fails: the log entry is then as it
    was, and the clock has not been read.  It never panics. *)
Theorem Validate_rejects_without_change rt (l : models.Log) w :
  let run := models.Log_Validate rt l w in
  (models.Message l = "" → run = (Ret (Some "message cannot be empty", l), w))
  ∧ (models.Message l ≠ "" → models.isValidLogLevel (models.Level l) = false →
     run = (Ret (Some "invalid log level", l), w))
  ∧ (∀ err l', run.1 = Ret (Some err, l') →
       l' = l ∧ run.2 = w
       ∧ (models.Message l = "" ∨ models.isValidLogLevel (models.Level l) = false))
  ∧ (∀ l', run.1 = Ret (None, l') →
       models.Message l ≠ "" ∧ models.isValidLogLevel (models.Level l) = true)
  ∧ (∀ reason, run.1 ≠ Panic reason)
  ∧ (∀ code, run.1 ≠ Exit code).
Proof.
  intros run.
  assert (Hcases :
            (models.Message l = "" ∧ run = (Ret (Some "message cannot be empty", l), w))
            ∨ (models.Message l ≠ "" ∧ models.isValidLogLevel (models.Level l) = false
               ∧ run = (Ret (Some "invalid log level", l), w))
            ∨ (models.Message l ≠ "" ∧ models.isValidLogLevel (models.Level l) = true
               ∧ ∃ l' w', run = (Ret (None, l'), w'))).
  { subst run. unfold models.Log_Validate.
    destruct (String.eqb_spec (models.Message l) "") as [Hm | Hm]; [by left |].
    right. destruct (models.isValidLogLevel (models.Level l)) eqn:Hv; simpl;
      [right | by left].
    split; [done |]. split; [done |].
    destruct (models.Time_IsZero (models.Timestamp l)); by eexists _, _. }
  destruct Hcases as [(Hm & Hrun) | [(Hm & Hv & Hrun) | (Hm & Hv & l1 & w1 & Hrun)]];
    rewrite Hrun; clear Hrun run; simpl.
  - split; [done |]. split; [done |].
    split; [intros err l' [= <- <-]; split; [done |]; split; [done | by left] |].
    split; [intros l' [=] |]. split; intros ?; discriminate.
  - split; [done |]. split; [done |].
    split; [intros err l' [= <- <-]; split; [done |]; split; [done | by right] |].
    split; [intros l' [=] |]. split; intros ?; discriminate.
  - split; [done |]. split; [intros _ Hv'; congruence |].
    split; [intros err l' [=] |].
    split; [intros l' _; done |]. split; intros ?; discriminate.
Qed.

(** X18: On a log entry with a message and a valid level [Validate] returns
    no error and fills in what is missing: a zero timestamp becomes the
    reading of the clock, an empty source becomes [unknown]; the
    identifier, the message, the level, a timestamp and a source that
    were given are kept.  Validating the result again changes nothing
    and reads no clock. *)
Theorem Validate_fills_defaults rt (l : models.Log) w :
  models.Message l ≠ "" →
  models.isValidLogLevel (models.Level l) = true →
  let run := models.Log_Validate rt l w in
  ∃ l',
    run.1 = Ret (None, l')
    ∧ models.ID l' = models.ID l
    ∧ models.Message l' = models.Message l
    ∧ models.Level l' = models.Level l
    ∧ (models.Timestamp l ≠ 0 → models.Timestamp l' = models.Timestamp l ∧ run.2 = w)
    ∧ (models.Timestamp l = 0 →
       models.Timestamp l' = rt_clock rt (ticks w) ∧ ticks run.2 = S (ticks w))
    ∧ (models.Source l ≠ "" → models.Source l' = models.Source l)
    ∧ (models.Source l = "" → models.Source l' = "unknown")
    ∧ models.Source l' ≠ ""
    ∧ (models.Timestamp l' ≠ 0 →
       models.Log_Validate rt l' run.2 = (Ret (None, l'), run.2)).
Proof.
  intros Hm Hv run. subst run. unfold models.Log_Validate at 1 2 3 4.
  destruct (String.eqb_spec (models.Message l) "") as [Hm0 | _]; [done |].
  rewrite Hv. simpl.
  assert (Hagain : ∀ l' w', models.Message l' = models.Message l →
            models.Level l' = models.Level l → models.Timestamp l' ≠ 0 →
            models.Source l' ≠ "" →
            models.Log_Validate rt l' w' = (Ret (None, l'), w')).
  { intros l' w' Hm' Hl' Ht' Hs'. unfold models.Log_Validate.
    rewrite Hm', Hl', Hv.
    destruct (String.eqb_spec (models.Message l) ""); [done |]. simpl.
    unfold models.Time_IsZero. destruct (Z.eqb_spec (models.Timestamp l') 0); [done |].
    rewrite bind_ret.
    by destruct (String.eqb_spec (models.Source l') ""). }
  unfold models.Time_IsZero.
  destruct (Z.eqb_spec (models.Timestamp l) 0) as [Ht | Ht];
    destruct (String.eqb_spec (models.Source l) "") as [Hs | Hs].
  - eexists. unfold bind, time_Now, ret. simpl. rewrite Hs. simpl.
    repeat split; try done.
    intros Ht'. by apply Hagain.
  - eexists. unfold bind, time_Now, ret. simpl.
    destruct (String.eqb_spec (models.Source l) ""); [done |].
    repeat split; try done.
    intros Ht'. by apply Hagain.
  - eexists. rewrite bind_ret. unfold ret. simpl. rewrite Hs. simpl.
    repeat split; try done.
    intros Ht'. by apply Hagain.
  - eexists. rewrite bind_ret. unfold ret. simpl.
    destruct (String.eqb_spec (models.Source l) ""); [done |].
    repeat split; try done.
    intros Ht'. by apply Hagain.
Qed.

Lemma Validate_fills_defaults_witness :
  let l := models.mkLog 0 "disk full" "error" 0 "" in
  let w := set_ticks 3 (example_world INFO ∅) in
  let run := models.Log_Validate example_runtime l w in
  models.Message l ≠ ""
  ∧ models.isValidLogLevel (models.Level l) = true
  ∧ ∃ l', run.1 = Ret (None, l')
          ∧ models.Source l' = "unknown"
          ∧ models.Timestamp l' = 3 * Second
          ∧ models.Log_Validate example_runtime l' run.2 = (Ret (None, l'), run.2).
Proof.
  intros l w run.
  assert (Hm : models.Message l ≠ "") by (intros Heq; discriminate Heq).
  assert (Hv : models.isValidLogLevel (models.Level l) = true) by reflexivity.
  split; [exact Hm |]. split; [exact Hv |].
  pose proof (Validate_fills_defaults example_runtime l w Hm Hv) as Hrun.
  cbv zeta in Hrun.
  destruct Hrun as (l' & Hret & _ & _ & _ & _ & Ht & _ & Hs & _ & Hagain).
  exists l'. split; [exact Hret |]. split; [apply Hs; reflexivity |].
  destruct (Ht eq_refl) as (Ht' & _).
  split; [exact Ht' |].
  apply Hagain. rewrite Ht'. intros Heq. discriminate Heq.
Defined.

(** X19: [isValidLogLevel] accepts the names of the five levels, each in
    upper case, as [String] gives it, and in lower case, and nothing
    else.  A lower-case name that it accepts is not a name for
    [parseLogLevel], which reads it as INFO. *)
Theorem isValidLogLevel_accepts_level_names (s : string) :
  (models.isValidLogLevel s = true ↔
   ∃ l, DEBUG ≤ l ≤ FATAL ∧ (s = LogLevel_String l ∨ s = lower (LogLevel_String l)))
  ∧ (∀ l, DEBUG ≤ l ≤ FATAL → parseLogLevel (lower (LogLevel_String l)) = INFO)
  ∧ (∀ l, models.isValidLogLevel (LogLevel_String l) = true ↔ DEBUG ≤ l ≤ FATAL).
Proof.
  assert (Hfive : ∀ l, DEBUG ≤ l ≤ FATAL → l = 0 ∨ l = 1 ∨ l = 2 ∨ l = 3 ∨ l = 4)
    by (unfold DEBUG, FATAL; lia).
  split; [split | split].
  - unfold models.isValidLogLevel, models.validLevels, models.level_among.
    intros Hs.
    repeat match type of Hs with
           | context [String.eqb s ?lit] =>
               destruct (String.eqb_spec s lit) as [-> | _]
           end; try discriminate Hs.
    + exists DEBUG. split; [done | by left].
    + exists INFO. split; [done | by left].
    + exists WARN. split; [done | by left].
    + exists ERROR. split; [done | by left].
    + exists FATAL. split; [done | by left].
    + exists DEBUG. split; [done | by right].
    + exists INFO. split; [done | by right].
    + exists WARN. split; [done | by right].
    + exists ERROR. split; [done | by right].
    + exists FATAL. split; [done | by right].
  - intros (l & Hl & Hs).
    destruct (Hfive l Hl) as [-> | [-> | [-> | [-> | ->]]]];
      destruct Hs as [-> | ->]; reflexivity.
  - intros l Hl.
    destruct (Hfive l Hl) as [-> | [-> | [-> | [-> | ->]]]]; reflexivity.
  - intros l. split.
    + intros Hv. destruct (decide (DEBUG ≤ l ≤ FATAL)) as [Hl | Hl]; [done |].
      exfalso. revert Hv. unfold LogLevel_String, DEBUG, INFO, WARN, ERROR, FATAL in *.
      destruct (Z.eqb_spec l 0); [lia |]. destruct (Z.eqb_spec l 1); [lia |].
      destruct (Z.eqb_spec l 2); [lia |]. destruct (Z.eqb_spec l 3); [lia |].
      destruct (Z.eqb_spec l 4); [lia |]. discriminate.
    + intros Hl.
      destruct (Hfive l Hl) as [-> | [-> | [-> | [-> | ->]]]]; reflexivity.
Qed.

(** X20: [isValidTimeFormat] accepts exactly the strings made of four
    digits, a hyphen, two digits, a hyphen, two digits, the letter T,
    two digits, a colon, two digits, a colon, two digits and the letter
    Z: twenty characters, with no check of the ranges of the numbers,
    and none of the other forms of RFC 3339 (an offset, a fraction of a
    second). *)
Theorem isValidTimeFormat_shape (s : string) :
  (models.isValidTimeFormat s = true ↔
   ∃ year month day hour minute second,
     s = year +:+ "-" +:+ month +:+ "-" +:+ day +:+ "T"
         +:+ hour +:+ ":" +:+ minute +:+ ":" +:+ second +:+ "Z"
     ∧ digits 4 year ∧ digits 2 month ∧ digits 2 day
     ∧ digits 2 hour ∧ digits 2 minute ∧ digits 2 second)
  ∧ (models.isValidTimeFormat s = true → String.length s = 20%nat).
Proof.
  assert (Hlit : ∀ c c', Ascii.eqb c c' = true → c = c')
    by (intros c c'; apply Ascii.eqb_eq).
  assert (Htf : models.timeFormat
                = ltac:(let t := eval vm_compute in models.timeFormat in exact t))
    by reflexivity.
  assert (Hfwd : models.isValidTimeFormat s = true →
            String.length s = 20%nat ∧
            ∃ year month day hour minute second,
              s = year +:+ "-" +:+ month +:+ "-" +:+ day +:+ "T"
                  +:+ hour +:+ ":" +:+ minute +:+ ":" +:+ second +:+ "Z"
              ∧ digits 4 year ∧ digits 2 month ∧ digits 2 day
              ∧ digits 2 hour ∧ digits 2 minute ∧ digits 2 second).
  { unfold models.isValidTimeFormat. rewrite Htf. intros Hs.
    cbn [models.matches_items] in Hs.
    repeat match type of Hs with
           | match ?x with EmptyString => _ | String _ _ => _ end = true =>
               destruct x as [| ? ?]; [discriminate Hs |];
               apply andb_prop in Hs as [? Hs]
           end.
    match type of Hs with
    | match ?x with EmptyString => _ | String _ _ => _ end = true =>
        destruct x; [| discriminate Hs]
    end.
    repeat match goal with
           | H : models.item_matches (models.Lit _) _ = true |- _ =>
               cbn [models.item_matches] in H; apply Hlit in H; subst
           end.
    split; [reflexivity |].
    match goal with
    | |- ∃ _ _ _ _ _ _,
          String ?y1 (String ?y2 (String ?y3 (String ?y4 (String _ (String ?m1 (String ?m2
            (String _ (String ?d1 (String ?d2 (String _ (String ?h1 (String ?h2 (String _
            (String ?n1 (String ?n2 (String _ (String ?s1 (String ?s2 _)))))))))))))))))) = _
          ∧ _ =>
        exists (String y1 (String y2 (String y3 (String y4 EmptyString)))),
               (String m1 (String m2 EmptyString)), (String d1 (String d2 EmptyString)),
               (String h1 (String h2 EmptyString)), (String n1 (String n2 EmptyString)),
               (String s1 (String s2 EmptyString))
    end.
    split; [reflexivity |].
    unfold digits. cbn [String.length all_digits].
    repeat match goal with
           | H : models.item_matches models.Digit ?c = true |- _ =>
               change (is_digit c = true) in H; rewrite H; clear H
           end.
    done. }
  split; [split; [intros Hs; exact (proj2 (Hfwd Hs)) |] |].
  - intros (year & month & day & hour & minute & second & -> & Hy & Hm & Hd & Hh & Hn & Hs).
    unfold digits in *.
    repeat match goal with
           | H : String.length ?x = _ ∧ all_digits ?x = true |- _ =>
               let Hl := fresh "Hl" in
               let Hd := fresh "Hd" in
               destruct H as [Hl Hd];
               repeat (destruct x as [| ? x]; [discriminate Hl |]);
               destruct x; [| discriminate Hl];
               simpl in Hd; clear Hl
           end.
    repeat match goal with
           | H : (is_digit _ && _) = true |- _ => apply andb_prop in H as [? H]
           end.
    unfold models.isValidTimeFormat. rewrite Htf.
    match goal with
    | |- models.matches_items ?p ?x = true =>
        let x' := eval cbv beta iota delta [String.append] in x in
        change (models.matches_items p x' = true)
    end.
    cbn [models.matches_items].
    repeat match goal with
           | H : is_digit ?c = true |- _ =>
               change (models.item_matches models.Digit c = true) in H; rewrite H; clear H
           end.
    reflexivity.
  - intros Hs. exact (proj1 (Hfwd Hs)).
Qed.

(** ** More runs of the middleware *)

(** [l.WithFields(fs).XContext(ctx, message)], with the fields of the
    record. *)
Lemma log_block_with rt w a L fs ctx lvl message :
  loggers w !! a = Some L →
  ∃ w' recs,
    bind (Logger_WithFields (Some a) fs)
         (λ lg, Logger_logWithContext rt lg ctx lvl message None) w = (Ret tt, w')
    ∧ evolves w w' recs []
    ∧ (ticks w ≤ ticks w')%nat
    ∧ uuids w' = uuids w
    ∧ logs_with rt L (fs ∪ default ∅ (maps w !! fields L)) ctx lvl message recs.
Proof.
  intros HL.
  pose proof (Logger_WithFields_spec w a L fs HL) as Hwith. simpl in Hwith.
  rewrite (bind_Ret _ _ _ _ _ Hwith).
  set (a' := fresh (dom (loggers w))) in *.
  set (r' := fresh (dom (maps w))) in *.
  set (D := mkLogger (level L) (service L) (component L) (output L) (format L) r').
  set (w1 := set_maps _ _).
  assert (Ha' : ∀ b Lb, loggers w !! b = Some Lb → loggers w1 !! b = Some Lb).
  { intros b Lb Hb. subst w1. unfold set_maps, set_loggers. simpl.
    rewrite lookup_insert_ne; [done |]. intros <-.
    apply (is_fresh (dom (loggers w))). apply elem_of_dom. by exists Lb. }
  assert (HD : loggers w1 !! a' = Some D).
  { subst w1. unfold set_maps, set_loggers. simpl. apply lookup_insert_eq. }
  assert (Hev1 : evolves w w1 [] []).
  { split; [exact Ha' | done | |]; subst w1; journal_simpl; by rewrite app_nil_r. }
  unfold logs_with. destruct (Z.ltb_spec lvl (level L)) as [Hlt | Hge].
  - exists w1, []. split; [| done].
    by apply (Logger_logWithContext_filtered rt w1 a' D).
  - destruct (Logger_logWithContext_emits rt w1 a' D ctx lvl message None HD Hge)
      as (e & line & evs & n & Hrun & Hevs & Hrec).
    eexists _, [e]. split; [exact Hrun |]. split; [| split; [| split]].
    + apply (evolves_trans w w1 _ [] [e] [] []); [exact Hev1 |].
      apply (after_write_evolves w1 (output D) (line +:+ newline) n e
               [EvCaller; EvNow (rt_clock rt (ticks w1))] evs); done.
    + unfold after_write, set_journal, set_sinks, set_ticks. simpl. lia.
    + reflexivity.
    + exists e. split; [done |].
      simpl in Hrec. rewrite (left_id_L ∅ (∪)) in Hrec.
      subst w1. unfold set_maps, set_loggers in Hrec. simpl in Hrec.
      rewrite lookup_insert_eq in Hrec. exact Hrec.
Qed.

Ltac log_step_with HLw :=
  match goal with
  | |- context [bind (bind (Logger_WithFields (Some ?a) ?fs)
                           (λ lg, Logger_logWithContext ?rt lg ?c ?lvl ?msg None)) _ ?w] =>
      let w' := fresh "w" in
      let recs := fresh "recs" in
      let Hrun := fresh "Hrun" in
      let E := fresh "E" in
      let Ht := fresh "Ht" in
      let Hu := fresh "Hu" in
      let Hlog := fresh "Hlog" in
      destruct (log_block_with rt w a _ fs c lvl msg HLw)
        as (w' & recs & Hrun & E & Ht & Hu & Hlog);
      rewrite (bind_Ret _ _ _ _ _ Hrun); clear Hrun
  end.

Lemma logs_with_absent rt L fs ctx lvl message recs :
  logs_with rt L fs ctx lvl message recs → lvl < level L → recs = [].
Proof.
  unfold logs_with. intros Hlogs Hlt.
  by destruct (Z.ltb_spec lvl (level L)); [| lia].
Qed.

Lemma logs_with_present rt L fs ctx lvl message recs :
  logs_with rt L fs ctx lvl message recs → level L ≤ lvl →
  ∃ e, recs = [e] ∧ record_of L fs lvl message ctx (call_site rt) e.
Proof.
  unfold logs_with. intros Hlogs Hge.
  by destruct (Z.ltb_spec lvl (level L)); [lia |].
Qed.

(** What a record of a stage shows of the fields it was given. *)
Lemma record_of_field L fs base lvl message ctx site e k v :
  record_of L (fs ∪ base) lvl message ctx site e →
  fs !! k = Some v →
  ∃ merged, Fields_ e = Some merged ∧ merged !! k = Some v.
Proof.
  intros (_ & _ & _ & _ & _ & _ & _ & _ & Hf) Hk.
  assert (Hin : (fs ∪ base) !! k = Some v) by (by apply lookup_union_Some_l).
  exists (fs ∪ base). split; [| exact Hin].
  rewrite Hf. destruct (decide (fs ∪ base = ∅)) as [Heq | _]; [| done].
  rewrite Heq in Hin. by rewrite lookup_empty in Hin.
Qed.

(** [http.Error] on the recorder: the status and the message, with a
    newline, after what the recorder had received. *)
Lemma http_Error_Response (w0 : Response) message code :
  resp_calls (http_Error w0 message code)
  = resp_calls w0 ++ [SinkWriteHeader code; SinkWrite (message +:+ newline)]
  ∧ Header_Get (resp_header (http_Error w0 message code)) "Content-Type"
    = "text/plain; charset=utf-8".
Proof.
  unfold http_Error. simpl. split.
  - destruct (resp_replies w0); simpl; by rewrite <- app_assoc.
  - assert (Hh : ∀ h : gmap string (list string),
              Header_Get
                (Header_Set "X-Content-Type-Options" "nosniff"
                   (Header_Set "Content-Type" "text/plain; charset=utf-8"
                      (Header_Del "Content-Length" h))) "Content-Type"
              = "text/plain; charset=utf-8").
    { intros h. unfold Header_Get, Header_Set.
      rewrite lookup_insert_ne by done. by rewrite lookup_insert_eq. }
    destruct (resp_replies w0); apply Hh.
Qed.

(** ** The health check stage *)

(** X21: For the paths [/health] and [/healthz], and for these two only, the
    stage hands the request to the inner handler as it is: nothing is
    logged, no clock is read, no identifier is made up or set, and the
    logger is not touched, so that a nil logger is no fault.  Any other
    request, [/health/] among them, goes through the logging stage. *)
Theorem HealthCheck_skips_health_paths {T} `{ResponseWriter T} rt lm next (w0 : T) r w :
  let run := HealthCheckMiddleware rt lm next w0 r w in
  (URL_Path r = "/health" ∨ URL_Path r = "/healthz" →
   run.1 = match h_panic next with
           | Some v => Panic v
           | None => Ret (apply_ops (h_ops next) w0).1
           end
   ∧ served (journal run.2) = served (journal w) ++ [(req_ctx r, rw_Header w0)]
   ∧ records (journal run.2) = records (journal w)
   ∧ sinks run.2 = sinks w
   ∧ ticks run.2 = ticks w
   ∧ uuids run.2 = uuids w
   ∧ loggers run.2 = loggers w
   ∧ maps run.2 = maps w)
  ∧ (URL_Path r ≠ "/health" → URL_Path r ≠ "/healthz" →
     run = LoggingMiddleware_Handler rt lm next w0 r w).
Proof.
  intros run. subst run. unfold HealthCheckMiddleware. split.
  - intros Hpath.
    assert (Hc : String.eqb (URL_Path r) "/health" || String.eqb (URL_Path r) "/healthz"
                 = true).
    { destruct Hpath as [-> | ->]; reflexivity. }
    rewrite Hc, ServeHTTP_run. simpl. journal_simpl. by rewrite ?app_nil_r.
  - intros H1 H2.
    destruct (String.eqb_spec (URL_Path r) "/health"); [done |].
    by destruct (String.eqb_spec (URL_Path r) "/healthz").
Qed.

(** ** The recovery stage *)

(** X22: The stage adds nothing to a request whose handler returns.  When
    the handler panics, and the stage has a logger, the panic stops
    here: the stage returns; the response writer, which has received
    what the handler sent before it panicked, gets status 500 and the
    body Internal Server Error by [http.Error]; and one record at ERROR
    is logged, with the formatted value of the panic under [panic] and
    the request identifier of the context, provided the threshold of
    the logger admits ERROR. *)
Theorem Recovery_stops_panics {T} `{ResponseWriter T} rt lm next (w0 : T) r w a L :
  lm_logger lm = Some a →
  loggers w !! a = Some L →
  let run := RecoveryMiddleware rt lm next w0 r w in
  (∀ reason, run.1 ≠ Panic reason)
  ∧ served (journal run.2) = served (journal w) ++ [(req_ctx r, rw_Header w0)]
  ∧ (h_panic next = None → run = ServeHTTP next w0 r w)
  ∧ (∀ v, h_panic next = Some v →
       run.1 = Ret (http_Error (apply_ops (h_ops next) w0).1 "Internal Server Error" 500)
       ∧ ∃ recs,
           records (journal run.2) = records (journal w) ++ recs
           ∧ (ERROR < level L → recs = [])
           ∧ (level L ≤ ERROR →
              ∃ e fs,
                recs = [e]
                ∧ Level e = "ERROR"
                ∧ Message e = "HTTP handler panic recovered"
                ∧ RequestID e = GetRequestID (req_ctx r)
                ∧ Fields_ e = Some fs
                ∧ fs !! "panic" = Some (VString (rt_sprintf rt "%v" [VString v])))).
Proof.
  intros Hlm HL run. subst run.
  destruct (h_panic next) as [v |] eqn:Hp.
  - assert (Hrun : ∃ w' recs,
               RecoveryMiddleware rt lm next w0 r w =
                 (Ret (http_Error (apply_ops (h_ops next) w0).1 "Internal Server Error" 500),
                  w')
               ∧ records (journal w') = records (journal w) ++ recs
               ∧ served (journal w') = served (journal w) ++ [(req_ctx r, rw_Header w0)]
               ∧ logs_with rt L
                   (map_lit
                      [("http_method", VString (Method r));
                       ("http_path", VString (URL_Path r));
                       ("http_remote_addr", VString (RemoteAddr r));
                       ("request_id", VString (GetRequestID (req_ctx r)));
                       ("panic", VString (rt_sprintf rt "%v" [VString v]))]
                    ∪ default ∅ (maps w !! fields L))
                   (req_ctx r) ERROR "HTTP handler panic recovered" recs).
    { unfold RecoveryMiddleware. rewrite ServeHTTP_run, Hp, Hlm.
      unfold Logger_ErrorContext.
      set (w1 := set_journal _ w).
      unfold bind at 1, Sprintf at 1. unfold bind at 1, note at 1. cbn [ret].
      set (w2 := set_journal _ w1).
      assert (HL2 : loggers w2 !! a = Some L) by exact HL.
      log_step_with HL2.
      exists w3, recs. split; [reflexivity |].
      split; [| split; [| exact Hlog]].
      - rewrite (ev_records _ _ _ _ E). subst w2 w1. journal_simpl. by rewrite !app_nil_r.
      - rewrite (ev_served _ _ _ _ E). subst w2 w1. journal_simpl. by rewrite !app_nil_r. }
    destruct Hrun as (w' & recs & -> & Hrecs & Hsrv & Hlog). cbn [fst snd].
    split; [intros reason; discriminate |].
    split; [exact Hsrv |].
    split; [intros Hnone; discriminate Hnone |].
    intros v' [= <-]. split; [reflexivity |].
    exists recs. split; [exact Hrecs |].
    split; [intros Hgt; by apply (logs_with_absent _ _ _ _ _ _ _ Hlog) |].
    intros Hle.
    destruct (logs_with_present _ _ _ _ _ _ _ Hlog Hle) as (e & -> & Hrec).
    destruct (record_of_field _ _ _ _ _ _ _ _ "panic"
                (VString (rt_sprintf rt "%v" [VString v])) Hrec) as (fs & Hf & Hk);
      [vm_compute; reflexivity |].
    destruct Hrec as (Hlv & Hmsg & _ & _ & _ & _ & Hrid & _).
    exists e, fs. done.
  - assert (Hrun : RecoveryMiddleware rt lm next w0 r w = ServeHTTP next w0 r w).
    { unfold RecoveryMiddleware. by rewrite ServeHTTP_run, Hp. }
    rewrite Hrun, ServeHTTP_run, Hp. cbn [fst snd].
    split; [intros reason; discriminate |].
    split; [journal_simpl; by rewrite ?app_nil_r |].
    split; [done |].
    intros v [=].
Qed.

Lemma Recovery_stops_panics_witness :
  let w := example_world INFO ∅ in
  let next := mkHandler [OpWrite "partial"] (Some "index out of range") in
  let run := RecoveryMiddleware example_runtime example_middleware next example_response
               (example_request ∅) w in
  lm_logger example_middleware = Some 0%nat
  ∧ loggers w !! 0%nat = Some (example_logger INFO)
  ∧ (∃ resp, run.1 = Ret resp
             ∧ resp_calls resp = [SinkWrite "partial"; SinkWriteHeader 500;
                                  SinkWrite ("Internal Server Error" +:+ newline)])
  ∧ ∃ e, records (journal run.2) = records (journal w) ++ [e]
         ∧ Message e = "HTTP handler panic recovered".
Proof.
  intros w next run.
  assert (Hlm : lm_logger example_middleware = Some 0%nat) by reflexivity.
  assert (HL : loggers w !! 0%nat = Some (example_logger INFO)) by reflexivity.
  split; [exact Hlm |]. split; [exact HL |].
  pose proof (@Recovery_stops_panics Response _ example_runtime example_middleware next
                example_response (example_request ∅) w 0%nat (example_logger INFO) Hlm HL)
    as Hrun.
  cbv zeta in Hrun. destruct Hrun as (_ & _ & _ & Hpanic).
  destruct (Hpanic "index out of range" eq_refl) as (Hout & recs & Hrecs & _ & Hlog).
  split.
  - eexists. split; [exact Hout |].
    rewrite (proj1 (http_Error_Response _ _ _)). reflexivity.
  - destruct Hlog as (e & fs & -> & _ & Hm & _); [vm_compute; intros Hcmp; discriminate Hcmp |].
    exists e. split; [exact Hrecs | exact Hm].
Defined.

(** ** The CORS stage and the security stage *)

Lemma cors_headers_Get (h : gmap string (list string)) :
  Header_Get (cors_headers h) "Access-Control-Allow-Origin" = "*"
  ∧ Header_Get (cors_headers h) "Access-Control-Allow-Methods"
    = "GET, POST, PUT, DELETE, OPTIONS"
  ∧ Header_Get (cors_headers h) "Access-Control-Allow-Headers"
    = "Content-Type, Authorization, X-Request-ID".
Proof.
  unfold cors_headers, Header_Get, Header_Set.
  split; [| split].
  - rewrite !lookup_insert_ne by done. by rewrite lookup_insert_eq.
  - rewrite lookup_insert_ne by done. by rewrite lookup_insert_eq.
  - by rewrite lookup_insert_eq.
Qed.

Lemma security_headers_Get (h : gmap string (list string)) :
  Header_Get (security_headers h) "X-Content-Type-Options" = "nosniff"
  ∧ Header_Get (security_headers h) "X-Frame-Options" = "DENY"
  ∧ Header_Get (security_headers h) "X-XSS-Protection" = "1; mode=block"
  ∧ Header_Get (security_headers h) "Strict-Transport-Security"
    = "max-age=31536000; includeSubDomains".
Proof.
  unfold security_headers, Header_Get, Header_Set.
  split; [| split; [| split]].
  - rewrite !lookup_insert_ne by done. by rewrite lookup_insert_eq.
  - rewrite !lookup_insert_ne by done. by rewrite lookup_insert_eq.
  - rewrite lookup_insert_ne by done. by rewrite lookup_insert_eq.
  - by rewrite lookup_insert_eq.
Qed.

(** The run of the CORS stage with a logger in place. *)
Lemma CORS_run rt lm next (w0 : Response) r w a L :
  lm_logger lm = Some a →
  loggers w !! a = Some L →
  let origin := Header_Get (ReqHeader r) "Origin" in
  let id := GetRequestID (req_ctx r) in
  let allowed := mkResponse (cors_headers (resp_header w0)) (resp_calls w0)
                            (resp_replies w0) in
  ∃ w' received handled,
    evolves w w' (received ++ handled)
      (if String.eqb (Method r) "OPTIONS" then []
       else [(req_ctx r, cors_headers (resp_header w0))])
    ∧ (if negb (String.eqb origin "")
       then logs rt L id (req_ctx r) DEBUG "CORS request received" received
       else received = [])
    ∧ if String.eqb (Method r) "OPTIONS"
      then CORSMiddleware rt lm next w0 r w = (Ret (rw_WriteHeader StatusOK allowed), w')
           ∧ logs rt L id (req_ctx r) DEBUG "CORS preflight request handled" handled
      else CORSMiddleware rt lm next w0 r w =
             (match h_panic next with
              | Some v => Panic v
              | None => Ret (apply_ops (h_ops next) allowed).1
              end, w')
           ∧ handled = [].
Proof.
  intros Hlm HL origin id allowed.
  unfold CORSMiddleware. rewrite Hlm. unfold Logger_DebugContext. fold origin.
  opt_log_step HL id. cbv beta.
  rename w1 into w1, recs into received, E into E1, Hlog into Hreceived.
  assert (HL1 : loggers w1 !! a = Some L) by (by apply (ev_loggers _ _ _ _ E1)).
  change (rw_Header_update _ (rw_Header_update _ (rw_Header_update _ w0))) with allowed.
  destruct (String.eqb (Method r) "OPTIONS").
  - log_step HL1 id.
    exists w2, received, recs. split; [| split; [exact Hreceived |]].
    + apply (evolves_trans _ _ _ _ _ [] [] E1 E).
    + split; [reflexivity | exact Hlog].
  - rewrite ServeHTTP_run.
    eexists _, received, []. split; [| split; [exact Hreceived |]].
    + rewrite app_nil_r.
      apply (evolves_eq _ _ (received ++ []) _ ([] ++ [(req_ctx r, rw_Header allowed)]));
        [| apply app_nil_r | reflexivity].
      apply (evolves_trans _ _ _ _ _ _ _ E1). apply ServeHTTP_evolves.
    + split; [reflexivity | done].
Qed.

(** X23: The CORS stage sets the three CORS headers on every response,
    before the inner handler runs.  A request with the method OPTIONS
    is answered here with status 200 and never reaches the inner
    handler; every other request goes to it.  What the stage logs, a
    record for a request with an Origin and one for a preflight, is
    logged at DEBUG: a logger with a higher threshold logs nothing. *)
Theorem CORS_headers_and_preflight rt lm next (w0 : Response) r w a L :
  lm_logger lm = Some a →
  loggers w !! a = Some L →
  let origin := Header_Get (ReqHeader r) "Origin" in
  let allowed := mkResponse (cors_headers (resp_header w0)) (resp_calls w0)
                            (resp_replies w0) in
  let run := CORSMiddleware rt lm next w0 r w in
  (Header_Get (cors_headers (resp_header w0)) "Access-Control-Allow-Origin" = "*"
   ∧ Header_Get (cors_headers (resp_header w0)) "Access-Control-Allow-Methods"
     = "GET, POST, PUT, DELETE, OPTIONS"
   ∧ Header_Get (cors_headers (resp_header w0)) "Access-Control-Allow-Headers"
     = "Content-Type, Authorization, X-Request-ID")
  ∧ (Method r = "OPTIONS" →
     run.1 = Ret (mkResponse (cors_headers (resp_header w0))
                    (resp_calls w0 ++ [SinkWriteHeader 200]) (resp_replies w0))
     ∧ served (journal run.2) = served (journal w))
  ∧ (Method r ≠ "OPTIONS" →
     run.1 = match h_panic next with
             | Some v => Panic v
             | None => Ret (apply_ops (h_ops next) allowed).1
             end
     ∧ served (journal run.2)
       = served (journal w) ++ [(req_ctx r, cors_headers (resp_header w0))])
  ∧ ∃ received handled,
      records (journal run.2) = records (journal w) ++ received ++ handled
      ∧ (DEBUG < level L → received = [] ∧ handled = [])
      ∧ (origin = "" → received = [])
      ∧ (Method r ≠ "OPTIONS" → handled = [])
      ∧ (level L ≤ DEBUG → origin ≠ "" →
         ∃ e, received = [e] ∧ Level e = "DEBUG" ∧ Message e = "CORS request received")
      ∧ (level L ≤ DEBUG → Method r = "OPTIONS" →
         ∃ e, handled = [e] ∧ Level e = "DEBUG"
              ∧ Message e = "CORS preflight request handled").
Proof.
  intros Hlm HL origin allowed run. subst run.
  destruct (CORS_run rt lm next w0 r w a L Hlm HL) as (w' & received & handled & E & Hrec & Hrun).
  fold origin allowed in Hrec, Hrun.
  split; [apply cors_headers_Get |].
  destruct (String.eqb_spec (Method r) "OPTIONS") as [Hopt | Hopt].
  - destruct Hrun as (-> & Hhandled). cbn [fst snd].
    split; [intros _; split; [reflexivity |];
            rewrite (ev_served _ _ _ _ E); apply app_nil_r |].
    split; [done |].
    exists received, handled.
    split; [apply (ev_records _ _ _ _ E) |].
    split.
    { intros Hgt. split; [| by apply (logs_absent _ _ _ _ _ _ _ Hhandled)].
      destruct (negb (String.eqb origin "")); [| done].
      by apply (logs_absent _ _ _ _ _ _ _ Hrec). }
    split.
    { intros Ho. rewrite Ho in Hrec. exact Hrec. }
    split; [done |].
    split.
    { intros Hle Ho. destruct (String.eqb_spec origin ""); [done |].
      by apply (logs_present _ _ _ _ _ _ _ Hrec). }
    intros Hle _. by apply (logs_present _ _ _ _ _ _ _ Hhandled).
  - destruct Hrun as (-> & ->). cbn [fst snd].
    split; [done |].
    split; [intros _; split; [reflexivity | apply (ev_served _ _ _ _ E)] |].
    exists received, [].
    split; [apply (ev_records _ _ _ _ E) |].
    split.
    { intros Hgt. split; [| done].
      destruct (negb (String.eqb origin "")); [| done].
      by apply (logs_absent _ _ _ _ _ _ _ Hrec). }
    split.
    { intros Ho. rewrite Ho in Hrec. exact Hrec. }
    split; [done |].
    split; [| done].
    intros Hle Ho. destruct (String.eqb_spec origin ""); [done |].
    by apply (logs_present _ _ _ _ _ _ _ Hrec).
Qed.

Lemma CORS_headers_and_preflight_witness :
  let w := example_world DEBUG ∅ in
  let next := mkHandler [OpWriteHeader 404] None in
  let r := mkRequest "OPTIONS" "/ingest" EmptyString {[ "Origin" := ["https://example.com"] ]}
             "10.0.0.7:51034" "ingest.example.org" 0 [] in
  let run := CORSMiddleware example_runtime example_middleware next example_response r w in
  lm_logger example_middleware = Some 0%nat
  ∧ loggers w !! 0%nat = Some (example_logger DEBUG)
  ∧ (∃ resp, run.1 = Ret resp ∧ resp_calls resp = [SinkWriteHeader 200]
             ∧ Header_Get (resp_header resp) "Access-Control-Allow-Origin" = "*")
  ∧ served (journal run.2) = served (journal w).
Proof.
  intros w next r run.
  assert (Hlm : lm_logger example_middleware = Some 0%nat) by reflexivity.
  assert (HL : loggers w !! 0%nat = Some (example_logger DEBUG)) by reflexivity.
  split; [exact Hlm |]. split; [exact HL |].
  pose proof (CORS_headers_and_preflight example_runtime example_middleware next
                example_response r w 0%nat (example_logger DEBUG) Hlm HL) as Hrun.
  cbv zeta in Hrun. destruct Hrun as ((Hh & _) & Hopt & _).
  destruct (Hopt eq_refl) as (Hout & Hsrv).
  split; [| exact Hsrv].
  eexists. split; [exact Hout |]. split; [reflexivity | exact Hh].
Defined.

(** X24: The security stage sets the four security headers before the inner
    handler runs and always hands the request on: an empty User-Agent
    and a path that differs from its escaped form are logged at WARN,
    each with a record of its own, and never turn the request away. *)
Theorem SecurityHeaders_warns_and_passes (URL_EscapedPath : Request → string)
    rt lm next (w0 : Response) r w a L :
  lm_logger lm = Some a →
  loggers w !! a = Some L →
  let secured := mkResponse (security_headers (resp_header w0)) (resp_calls w0)
                            (resp_replies w0) in
  let run := SecurityHeadersMiddleware URL_EscapedPath rt lm next w0 r w in
  (Header_Get (security_headers (resp_header w0)) "X-Content-Type-Options" = "nosniff"
   ∧ Header_Get (security_headers (resp_header w0)) "X-Frame-Options" = "DENY"
   ∧ Header_Get (security_headers (resp_header w0)) "X-XSS-Protection" = "1; mode=block"
   ∧ Header_Get (security_headers (resp_header w0)) "Strict-Transport-Security"
     = "max-age=31536000; includeSubDomains")
  ∧ run.1 = match h_panic next with
            | Some v => Panic v
            | None => Ret (apply_ops (h_ops next) secured).1
            end
  ∧ served (journal run.2)
    = served (journal w) ++ [(req_ctx r, security_headers (resp_header w0))]
  ∧ ∃ agent encoded,
      records (journal run.2) = records (journal w) ++ agent ++ encoded
      ∧ (WARN < level L → agent = [] ∧ encoded = [])
      ∧ (Request_UserAgent r ≠ "" → agent = [])
      ∧ (URL_Path r = URL_EscapedPath r → encoded = [])
      ∧ (level L ≤ WARN → Request_UserAgent r = "" →
         ∃ e, agent = [e] ∧ Level e = "WARN"
              ∧ Message e = "Request with empty User-Agent detected")
      ∧ (level L ≤ WARN → URL_Path r ≠ URL_EscapedPath r →
         ∃ e, encoded = [e] ∧ Level e = "WARN"
              ∧ Message e = "Request with URL encoding detected").
Proof.
  intros Hlm HL secured run. subst run.
  assert (Hrun : ∃ w' agent encoded,
             SecurityHeadersMiddleware URL_EscapedPath rt lm next w0 r w =
               (match h_panic next with
                | Some v => Panic v
                | None => Ret (apply_ops (h_ops next) secured).1
                end, w')
             ∧ evolves w w' (agent ++ encoded)
                 [(req_ctx r, security_headers (resp_header w0))]
             ∧ (if String.eqb (Request_UserAgent r) ""
                then logs rt L (GetRequestID (req_ctx r)) (req_ctx r) WARN
                       "Request with empty User-Agent detected" agent
                else agent = [])
             ∧ (if negb (String.eqb (URL_Path r) (URL_EscapedPath r))
                then logs rt L (GetRequestID (req_ctx r)) (req_ctx r) WARN
                       "Request with URL encoding detected" encoded
                else encoded = [])).
  { unfold SecurityHeadersMiddleware. rewrite Hlm. unfold Logger_WarnContext.
    change (rw_Header_update _ (rw_Header_update _ (rw_Header_update _
              (rw_Header_update _ w0)))) with secured.
    opt_log_step HL (GetRequestID (req_ctx r)). cbv beta.
    rename w1 into w1, recs into agent, E into E1, Hlog into Hagent.
    assert (HL1 : loggers w1 !! a = Some L) by (by apply (ev_loggers _ _ _ _ E1)).
    opt_log_step HL1 (GetRequestID (req_ctx r)). cbv beta.
    rename w2 into w2, recs into encoded, E into E2, Hlog into Hencoded.
    rewrite ServeHTTP_run.
    eexists _, agent, encoded. split; [reflexivity |].
    split; [| split; [exact Hagent | exact Hencoded]].
    apply (evolves_eq _ _ ((agent ++ encoded) ++ []) _
             (([] ++ []) ++ [(req_ctx r, rw_Header secured)]));
      [| apply app_nil_r | reflexivity].
    apply (evolves_trans _ _ _ _ _ _ _ (evolves_trans _ _ _ _ _ _ _ E1 E2)).
    apply ServeHTTP_evolves. }
  destruct Hrun as (w' & agent & encoded & -> & E & Hagent & Hencoded). cbn [fst snd].
  split; [apply security_headers_Get |].
  split; [reflexivity |].
  split; [apply (ev_served _ _ _ _ E) |].
  exists agent, encoded.
  split; [apply (ev_records _ _ _ _ E) |].
  split.
  { intros Hgt. split.
    - destruct (String.eqb (Request_UserAgent r) ""); [| done].
      by apply (logs_absent _ _ _ _ _ _ _ Hagent).
    - destruct (negb (String.eqb (URL_Path r) (URL_EscapedPath r))); [| done].
      by apply (logs_absent _ _ _ _ _ _ _ Hencoded). }
  split.
  { intros Hua. by destruct (String.eqb_spec (Request_UserAgent r) ""). }
  split.
  { intros Hp. by destruct (String.eqb_spec (URL_Path r) (URL_EscapedPath r)). }
  split.
  { intros Hle Hua. rewrite Hua in Hagent. simpl in Hagent.
    by apply (logs_present _ _ _ _ _ _ _ Hagent). }
  intros Hle Hp. destruct (String.eqb_spec (URL_Path r) (URL_EscapedPath r)); [done |].
  by apply (logs_present _ _ _ _ _ _ _ Hencoded).
Qed.

Lemma SecurityHeaders_warns_and_passes_witness :
  let w := example_world INFO ∅ in
  let next := mkHandler [OpWriteHeader 200] None in
  let r := mkRequest "GET" "/logs/a b" EmptyString ∅ "10.0.0.7:51034"
             "ingest.example.org" 0 [] in
  let escaped := λ _ : Request, "/logs/a%20b" in
  let run := SecurityHeadersMiddleware escaped example_runtime example_middleware next
               example_response r w in
  lm_logger example_middleware = Some 0%nat
  ∧ loggers w !! 0%nat = Some (example_logger INFO)
  ∧ (∃ resp, run.1 = Ret resp ∧ resp_calls resp = [SinkWriteHeader 200]
             ∧ Header_Get (resp_header resp) "X-Frame-Options" = "DENY")
  ∧ ∃ e1 e2, records (journal run.2) = records (journal w) ++ [e1; e2]
             ∧ Message e1 = "Request with empty User-Agent detected"
             ∧ Message e2 = "Request with URL encoding detected".
Proof.
  intros w next r escaped run.
  assert (Hlm : lm_logger example_middleware = Some 0%nat) by reflexivity.
  assert (HL : loggers w !! 0%nat = Some (example_logger INFO)) by reflexivity.
  split; [exact Hlm |]. split; [exact HL |].
  pose proof (SecurityHeaders_warns_and_passes escaped example_runtime example_middleware
                next example_response r w 0%nat (example_logger INFO) Hlm HL) as Hrun.
  cbv zeta in Hrun.
  destruct Hrun as ((_ & Hh & _) & Hout & _ & agent & encoded & Hrecs & _ & _ & _ & Ha & He).
  split.
  - eexists. split; [exact Hout |]. split; [reflexivity | exact Hh].
  - assert (Hle : level (example_logger INFO) ≤ WARN)
      by (vm_compute; intros Hcmp; discriminate Hcmp).
    destruct (Ha Hle eq_refl) as (e1 & -> & _ & Hm1).
    destruct He as (e2 & -> & _ & Hm2); [exact Hle | intros Heq; discriminate Heq |].
    exists e1, e2. split; [exact Hrecs |]. split; [exact Hm1 | exact Hm2].
Defined.

(** ** The logging stage: what the completion record holds *)







(** X26: The logging stage does not recover from a panic of the inner
    handler: the panic goes on to the caller with its value, and the
    stage has logged the record of the start, if the threshold admits
    it, and nothing else: no completion record and no error record. *)
Theorem Handler_leaves_panics_alone {T} `{ResponseWriter T}
    rt lm next (w0 : T) r w a L v :
  lm_logger lm = Some a →
  loggers w !! a = Some L →
  h_panic next = Some v →
  let run := LoggingMiddleware_Handler rt lm next w0 r w in
  run.1 = Panic v
  ∧ (∃ ctx hdr, served (journal run.2) = served (journal w) ++ [(ctx, hdr)])
  ∧ ∃ started,
      records (journal run.2) = records (journal w) ++ started
      ∧ (INFO < level L → started = [])
      ∧ (level L ≤ INFO →
         ∃ e, started = [e] ∧ Level e = "INFO" ∧ Message e = "HTTP request started").
Proof.
  intros Hlm HL Hp run. subst run.
  destruct (LoggingMiddleware_Handler_run rt lm next w0 r w a L Hlm HL)
    as (w' & started & Hstarted & Hrun).
  rewrite Hp in Hrun. destruct Hrun as (-> & E). cbn [fst snd].
  split; [reflexivity |].
  split; [eexists _, _; apply (ev_served _ _ _ _ E) |].
  exists started. split; [apply (ev_records _ _ _ _ E) |].
  split.
  - intros Hgt. by apply (logs_absent _ _ _ _ _ _ _ Hstarted).
  - intros Hle. by apply (logs_present _ _ _ _ _ _ _ Hstarted).
Qed.

Lemma Handler_leaves_panics_alone_witness :
  let w := example_world INFO ∅ in
  let next := mkHandler [OpWriteHeader 200] (Some "index out of range") in
  let run := LoggingMiddleware_Handler example_runtime example_middleware next
               example_response (example_request ∅) w in
  lm_logger example_middleware = Some 0%nat
  ∧ loggers w !! 0%nat = Some (example_logger INFO)
  ∧ h_panic next = Some "index out of range"
  ∧ run.1 = Panic "index out of range"
  ∧ ∃ e, records (journal run.2) = records (journal w) ++ [e]
         ∧ Message e = "HTTP request started".
Proof.
  intros w next run.
  assert (Hlm : lm_logger example_middleware = Some 0%nat) by reflexivity.
  assert (HL : loggers w !! 0%nat = Some (example_logger INFO)) by reflexivity.
  assert (Hp : h_panic next = Some "index out of range") by reflexivity.
  split; [exact Hlm |]. split; [exact HL |]. split; [exact Hp |].
  pose proof (@Handler_leaves_panics_alone Response _ example_runtime example_middleware
                next example_response (example_request ∅) w 0%nat (example_logger INFO)
                "index out of range" Hlm HL Hp) as Hrun.
  cbv zeta in Hrun. destruct Hrun as (Hout & _ & started & Hrecs & _ & Hs).
  split; [exact Hout |].
  destruct Hs as (e & -> & _ & Hm); [vm_compute; intros Hcmp; discriminate Hcmp |].
  exists e. split; [exact Hrecs | exact Hm].
Defined.

(** ** The rate limiter: what a request leaves alone *)

(** X27: A request changes, of all the state of rate limiting, the counter
    of its own client in the limiter of its own handler: within a
    window the counters of the other clients and the start of the
    window are as before, and the limiters of other handlers are as
    before in any case.  The request is counted before it is judged, so
    a request that is turned away has raised the counter all the
    same. *)
Theorem RateLimit_counts_one_client {T} `{ResponseWriter T}
    rt lm next cl (w0 : T) r w st :
  limiters w !! cl = Some st →
  let run := RateLimit_ServeHTTP rt lm next cl w0 r w in
  (∀ cl', cl' ≠ cl → limiters run.2 !! cl' = limiters w !! cl')
  ∧ (rt_clock rt (ticks w) - lastReset st ≤ sixty_seconds →
     ∃ st',
       limiters run.2 !! cl = Some st'
       ∧ lastReset st' = lastReset st
       ∧ requestCounts st' !! RemoteAddr r
         = Some (wrap64 (default 0 (requestCounts st !! RemoteAddr r) + 1))
       ∧ (minInt64 ≤ default 0 (requestCounts st !! RemoteAddr r) < maxInt64 →
          requestCounts st' !! RemoteAddr r
          = Some (default 0 (requestCounts st !! RemoteAddr r) + 1))
       ∧ (∀ k, k ≠ RemoteAddr r → requestCounts st' !! k = requestCounts st !! k)).
Proof.
  intros Hst run. subst run.
  pose proof (RateLimit_limiter_after rt lm next cl w0 r w st Hst) as Hlim.
  cbv zeta in Hlim. rewrite time_Sub_gt_Minute in Hlim.
  split.
  - intros cl' Hne. rewrite Hlim. by rewrite lookup_insert_ne.
  - intros Hin.
    destruct (Z.gtb_spec (rt_clock rt (ticks w) - lastReset st) sixty_seconds) as [Hgt | _];
      [lia |].
    eexists. split; [rewrite Hlim; apply lookup_insert_eq |]. cbn [lastReset requestCounts].
    split; [reflexivity |].
    split; [apply lookup_insert_eq |].
    split; [| intros k Hk; by rewrite lookup_insert_ne].
    intros Hfull. rewrite lookup_insert_eq. f_equal.
    apply wrap64_small. unfold minInt64, maxInt64 in *. lia.
Qed.

Lemma RateLimit_counts_one_client_witness :
  let w := example_limited_world INFO 150 7 in
  let st := mkRateLimiter {[ "10.0.0.7:51034" := 150 ]} 0 in
  let next := mkHandler [OpWriteHeader 200] None in
  let other := mkRequest "GET" "/logs" EmptyString ∅ "10.0.0.9:4000" "ingest.example.org" 0 [] in
  limiters w !! 0%nat = Some st
  ∧ rt_clock example_runtime (ticks w) - lastReset st ≤ sixty_seconds
  ∧ (∃ st', limiters (RateLimit_ServeHTTP example_runtime example_middleware next 0%nat
                        example_response (example_request ∅) w).2 !! 0%nat = Some st'
            ∧ requestCounts st' !! "10.0.0.7:51034" = Some 151)
  ∧ (∃ st', limiters (RateLimit_ServeHTTP example_runtime example_middleware next 0%nat
                        example_response other w).2 !! 0%nat = Some st'
            ∧ requestCounts st' !! "10.0.0.7:51034" = Some 150).
Proof.
  intros w st next other.
  assert (Hst : limiters w !! 0%nat = Some st) by reflexivity.
  assert (Hin : rt_clock example_runtime (ticks w) - lastReset st ≤ sixty_seconds)
    by (vm_compute; intros Hcmp; discriminate Hcmp).
  split; [exact Hst |]. split; [exact Hin |].
  split.
  - pose proof (@RateLimit_counts_one_client Response _ example_runtime example_middleware
                  next 0%nat example_response (example_request ∅) w st Hst) as Hrun.
    cbv zeta in Hrun. destruct Hrun as (_ & Hwin).
    destruct (Hwin Hin) as (st' & Hst' & _ & _ & Hcount & _).
    exists st'. split; [exact Hst' |]. apply Hcount.
    vm_compute. split; [intros Hcmp; discriminate Hcmp | reflexivity].
  - pose proof (@RateLimit_counts_one_client Response _ example_runtime example_middleware
                  next 0%nat example_response other w st Hst) as Hrun.
    cbv zeta in Hrun. destruct Hrun as (_ & Hwin).
    destruct (Hwin Hin) as (st' & Hst' & _ & _ & _ & Hother).
    exists st'. split; [exact Hst' |].
    rewrite Hother; [reflexivity |]. intros Heq. discriminate Heq.
Defined.
